(** * Ring manager, signal tracker and wake-lock utilities

    A shallow embedding of
      - [src/utils/wakeLockUtils.ts]   ([requestWakeLock], [releaseWakeLock]),
      - [src/hooks/useRingManager.ts]  ([getSignalId], [triggerRing], the
        polling effect, [handleRingOff]),
      - [src/hooks/useSignalTracker.ts] (the background-task effect),
    as state transformers over an explicit browser [World] and an explicit
    store for the hook's [useState] cells and [useRef] boxes.

    Every [await] of the source is a suspension point: the part of an async
    function before the [await] runs inside the event that calls it, the part
    after it runs in a later event that carries what the platform answered.

    Conventions of the model:
      - a state setter takes effect on its cell in the event that calls it,
        so [handleRingOff] reads the values of the latest update;
      - the interval callback reads the list, the antidelay and the
        deduplication set through the closure the polling effect made when
        it last ran, not through the cells;
      - a replaced list and a changed antidelay come from a user action:
        the render they cause, with the cleanup and the re-run of the
        polling effect, completes within the event;
      - [setAlreadyRangIds] is called at the end of [triggerRing], in the
        continuation of an [await]: React queues the update and renders it
        later. The cell of the model holds the set with the queued marks
        applied; the interval the effect made before stays live, with the
        set it closed over, until React renders the marks and runs the
        effect again, which is an event of its own ([MarksFlushed]); the
        interval may fire in between;
      - [setAlreadyRangIds] always stores a new [Set] object and
        [savedSignals] is replaced by a new array, so both always re-run the
        polling effect; the antidelay is a number and re-runs it only when
        its value changes;
      - the console lines of the wake-lock utilities are kept; those of the
        ring manager print values that are not modelled and are left out;
      - the tracked handles are never [null], so the [if (audio)] and
        [if (context ...)] guards of [handleRingOff] only test the context
        state; closing a context that is not closed succeeds. *)

From stdpp Require Import base strings gmap list pretty.

Open Scope Z_scope.

Set Warnings "-clear-no-such-hyp".
Set Default Proof Using "Type".

(** ** JavaScript completions *)

(** A call either returns a value or throws. *)
Inductive outcome (A : Type) : Type :=
| Returned (a : A)
| Thrown (err : string).
Arguments Returned {A} a.
Arguments Thrown {A} err.

(** ** Signals *)

(** Modelled from the spec: the [Signal] type of [@/types/signal], which is
    imported but not part of the sources: an asset, a direction and a
    timestamp in epoch seconds. *)
Record Signal : Type := mkSignal {
  asset : string;
  direction : string;
  timestamp : Z
}.

Global Instance Signal_eq_dec : EqDecision Signal.
Proof. solve_decision. Defined.

(** [getSignalId]: the template literal
    [`${signal.asset}-${signal.direction}-${signal.timestamp}`]. *)
Definition getSignalId (signal : Signal) : string :=
  asset signal +:+ "-" +:+ direction signal +:+ "-" +:+ pretty (timestamp signal).

(** ** The browser world *)

(** An [HTMLAudioElement]: whether it is paused, its playback position and
    whether it is attached to the document (and so found by
    [document.querySelectorAll('audio')]). *)
Record AudioElement : Type := mkAudio {
  paused : bool;
  currentTime : N;
  inDocument : bool
}.

(** The [state] of an [AudioContext]. *)
Inductive ContextState : Type := CtxRunning | CtxSuspended | CtxClosed.

(** What the callback of the polling interval closed over when the effect
    that created it ran. *)
Record Closure : Type := mkClosure {
  cl_signals : list Signal;
  cl_antidelay : Z;
  cl_rang : gset string
}.

(** Timer ids, wake-lock sentinels, audio elements and audio contexts are
    all named by positive numbers taken from one allocator; [setInterval]
    returns a positive integer, so an id is always truthy. *)
Record World : Type := mkWorld {
  wakeLockSupported : bool;            (* 'wakeLock' in navigator *)
  documentHidden : bool;               (* document.hidden *)
  focusCalls : nat;                    (* calls of window.focus() *)
  nextHandle : positive;
  heldLocks : gset positive;           (* sentinels granted and not released *)
  intervals : gmap positive Closure;   (* live setInterval timers *)
  timeouts : nat;                      (* pending one-shot setTimeout timers *)
  audioElements : gmap positive AudioElement;
  audioContexts : gmap positive ContextState;
  console : list string;               (* console.log lines, oldest first *)
  unhandled : list string              (* unhandled promise rejections *)
}.

Definition set_documentHidden (b : bool) (w : World) : World :=
  mkWorld (wakeLockSupported w) b (focusCalls w) (nextHandle w) (heldLocks w)
    (intervals w) (timeouts w) (audioElements w) (audioContexts w) (console w)
    (unhandled w).
Definition set_focusCalls (n : nat) (w : World) : World :=
  mkWorld (wakeLockSupported w) (documentHidden w) n (nextHandle w) (heldLocks w)
    (intervals w) (timeouts w) (audioElements w) (audioContexts w) (console w)
    (unhandled w).
Definition set_nextHandle (p : positive) (w : World) : World :=
  mkWorld (wakeLockSupported w) (documentHidden w) (focusCalls w) p (heldLocks w)
    (intervals w) (timeouts w) (audioElements w) (audioContexts w) (console w)
    (unhandled w).
Definition set_heldLocks (h : gset positive) (w : World) : World :=
  mkWorld (wakeLockSupported w) (documentHidden w) (focusCalls w) (nextHandle w) h
    (intervals w) (timeouts w) (audioElements w) (audioContexts w) (console w)
    (unhandled w).
Definition set_intervals (i : gmap positive Closure) (w : World) : World :=
  mkWorld (wakeLockSupported w) (documentHidden w) (focusCalls w) (nextHandle w)
    (heldLocks w) i (timeouts w) (audioElements w) (audioContexts w) (console w)
    (unhandled w).
Definition set_timeouts (n : nat) (w : World) : World :=
  mkWorld (wakeLockSupported w) (documentHidden w) (focusCalls w) (nextHandle w)
    (heldLocks w) (intervals w) n (audioElements w) (audioContexts w) (console w)
    (unhandled w).
Definition set_audioElements (a : gmap positive AudioElement) (w : World) : World :=
  mkWorld (wakeLockSupported w) (documentHidden w) (focusCalls w) (nextHandle w)
    (heldLocks w) (intervals w) (timeouts w) a (audioContexts w) (console w)
    (unhandled w).
Definition set_audioContexts (c : gmap positive ContextState) (w : World) : World :=
  mkWorld (wakeLockSupported w) (documentHidden w) (focusCalls w) (nextHandle w)
    (heldLocks w) (intervals w) (timeouts w) (audioElements w) c (console w)
    (unhandled w).
Definition set_console (c : list string) (w : World) : World :=
  mkWorld (wakeLockSupported w) (documentHidden w) (focusCalls w) (nextHandle w)
    (heldLocks w) (intervals w) (timeouts w) (audioElements w) (audioContexts w) c
    (unhandled w).
Definition set_unhandled (u : list string) (w : World) : World :=
  mkWorld (wakeLockSupported w) (documentHidden w) (focusCalls w) (nextHandle w)
    (heldLocks w) (intervals w) (timeouts w) (audioElements w) (audioContexts w)
    (console w) u.

(** A page that has just loaded: nothing allocated, nothing logged. *)
Definition freshWorld (supported hidden : bool) : World :=
  mkWorld supported hidden 0%nat 1%positive ∅ ∅ 0%nat ∅ ∅ [] [].

Definition console_log (line : string) (w : World) : World :=
  set_console (console w ++ [line]) w.

Definition reportUnhandled (err : string) (w : World) : World :=
  set_unhandled (unhandled w ++ [err]) w.

(** [window.focus()]. *)
Definition window_focus (w : World) : World :=
  set_focusCalls (S (focusCalls w)) w.

(** Allocation of a fresh handle. *)
Definition allocHandle (w : World) : positive * World :=
  (nextHandle w, set_nextHandle (Pos.succ (nextHandle w)) w).

(** [setInterval(callback, 1000)] and [clearInterval(id)]; clearing an id
    that is not live does nothing. *)
Definition setInterval (c : Closure) (w : World) : positive * World :=
  let '(t, w1) := allocHandle w in
  (t, set_intervals (<[t := c]> (intervals w1)) w1).

Definition clearInterval (t : positive) (w : World) : World :=
  set_intervals (delete t (intervals w)) w.

(** [setTimeout(callback, 200)]. *)
Definition setTimeout (w : World) : World :=
  set_timeouts (S (timeouts w)) w.

(** ** src/utils/wakeLockUtils.ts *)

(** What the platform answers to [navigator.wakeLock.request('screen')]:
    it grants a sentinel or rejects with an error. *)
Inductive LockResponse : Type :=
| Grant
| Deny (err : string).

(** [navigator.wakeLock.request('screen')]. *)
Definition wakeLock_request (r : LockResponse) (w : World)
  : outcome positive * World :=
  match r with
  | Grant =>
      let '(l, w1) := allocHandle w in
      (Returned l, set_heldLocks ({[l]} ∪ heldLocks w1) w1)
  | Deny err => (Thrown err, w)
  end.

(** [sentinel.release()]. *)
Definition sentinel_release (l : positive) (w : World) : World :=
  set_heldLocks (heldLocks w ∖ {[l]}) w.

(** [requestWakeLock]: the [try]/[catch] turns a rejected request into
    [null]; without [navigator.wakeLock] the function falls through to the
    final [return null]. *)
Definition requestWakeLock (r : LockResponse) (w : World)
  : outcome (option positive) * World :=
  if wakeLockSupported w then
    match wakeLock_request r w with
    | (Returned lock, w1) =>
        (Returned (Some lock), console_log "Screen wake lock acquired" w1)
    | (Thrown err, w1) =>
        (Returned None, console_log ("Wake lock not supported: " +:+ err) w1)
    end
  else (Returned None, w).

(** [releaseWakeLock]. *)
Definition releaseWakeLock (wakeLock : option positive) (w : World) : World :=
  match wakeLock with
  | Some l => console_log "Screen wake lock released" (sentinel_release l w)
  | None => w
  end.

(** ** src/hooks/useRingManager.ts: the store *)

(** An invocation of [triggerRing] that is suspended at one of its two
    [await]s. *)
Inductive Task : Type :=
| AwaitWakeLock (signal : Signal)   (* at [await requestWakeLock()] *)
| AwaitAudio (signal : Signal).     (* at [await playCustomRingtone(...)] *)

(** The hook's arguments, its [useState] cells, its [useRef] boxes, the
    suspended [triggerRing] calls, the calls made to [onSignalTriggered] and
    the browser. *)
Record Machine : Type := mkMachine {
  savedSignals : list Signal;
  antidelaySeconds : Z;
  isRinging : bool;
  currentRingingSignal : option Signal;
  wakeLock : option positive;
  ringOffButtonPressed : bool;
  alreadyRangIds : gset string;
  intervalRef : option positive;
  audioInstancesRef : list positive;
  audioContextsRef : list positive;
  pending : list Task;
  triggeredLog : list Signal;
  world : World
}.

Definition set_savedSignals (v : list Signal) (m : Machine) : Machine :=
  mkMachine v (antidelaySeconds m) (isRinging m) (currentRingingSignal m)
    (wakeLock m) (ringOffButtonPressed m) (alreadyRangIds m) (intervalRef m)
    (audioInstancesRef m) (audioContextsRef m) (pending m) (triggeredLog m)
    (world m).
Definition set_antidelaySeconds (v : Z) (m : Machine) : Machine :=
  mkMachine (savedSignals m) v (isRinging m) (currentRingingSignal m)
    (wakeLock m) (ringOffButtonPressed m) (alreadyRangIds m) (intervalRef m)
    (audioInstancesRef m) (audioContextsRef m) (pending m) (triggeredLog m)
    (world m).
Definition setIsRinging (v : bool) (m : Machine) : Machine :=
  mkMachine (savedSignals m) (antidelaySeconds m) v (currentRingingSignal m)
    (wakeLock m) (ringOffButtonPressed m) (alreadyRangIds m) (intervalRef m)
    (audioInstancesRef m) (audioContextsRef m) (pending m) (triggeredLog m)
    (world m).
Definition setCurrentRingingSignal (v : option Signal) (m : Machine) : Machine :=
  mkMachine (savedSignals m) (antidelaySeconds m) (isRinging m) v
    (wakeLock m) (ringOffButtonPressed m) (alreadyRangIds m) (intervalRef m)
    (audioInstancesRef m) (audioContextsRef m) (pending m) (triggeredLog m)
    (world m).
Definition setWakeLock (v : option positive) (m : Machine) : Machine :=
  mkMachine (savedSignals m) (antidelaySeconds m) (isRinging m)
    (currentRingingSignal m) v (ringOffButtonPressed m) (alreadyRangIds m)
    (intervalRef m) (audioInstancesRef m) (audioContextsRef m) (pending m)
    (triggeredLog m) (world m).
Definition setRingOffButtonPressed (v : bool) (m : Machine) : Machine :=
  mkMachine (savedSignals m) (antidelaySeconds m) (isRinging m)
    (currentRingingSignal m) (wakeLock m) v (alreadyRangIds m)
    (intervalRef m) (audioInstancesRef m) (audioContextsRef m) (pending m)
    (triggeredLog m) (world m).
Definition set_alreadyRangIds (v : gset string) (m : Machine) : Machine :=
  mkMachine (savedSignals m) (antidelaySeconds m) (isRinging m)
    (currentRingingSignal m) (wakeLock m) (ringOffButtonPressed m) v
    (intervalRef m) (audioInstancesRef m) (audioContextsRef m) (pending m)
    (triggeredLog m) (world m).
Definition set_intervalRef (v : option positive) (m : Machine) : Machine :=
  mkMachine (savedSignals m) (antidelaySeconds m) (isRinging m)
    (currentRingingSignal m) (wakeLock m) (ringOffButtonPressed m)
    (alreadyRangIds m) v (audioInstancesRef m) (audioContextsRef m) (pending m)
    (triggeredLog m) (world m).
Definition set_audioInstancesRef (v : list positive) (m : Machine) : Machine :=
  mkMachine (savedSignals m) (antidelaySeconds m) (isRinging m)
    (currentRingingSignal m) (wakeLock m) (ringOffButtonPressed m)
    (alreadyRangIds m) (intervalRef m) v (audioContextsRef m) (pending m)
    (triggeredLog m) (world m).
Definition set_audioContextsRef (v : list positive) (m : Machine) : Machine :=
  mkMachine (savedSignals m) (antidelaySeconds m) (isRinging m)
    (currentRingingSignal m) (wakeLock m) (ringOffButtonPressed m)
    (alreadyRangIds m) (intervalRef m) (audioInstancesRef m) v (pending m)
    (triggeredLog m) (world m).
Definition set_pending (v : list Task) (m : Machine) : Machine :=
  mkMachine (savedSignals m) (antidelaySeconds m) (isRinging m)
    (currentRingingSignal m) (wakeLock m) (ringOffButtonPressed m)
    (alreadyRangIds m) (intervalRef m) (audioInstancesRef m)
    (audioContextsRef m) v (triggeredLog m) (world m).
Definition set_triggeredLog (v : list Signal) (m : Machine) : Machine :=
  mkMachine (savedSignals m) (antidelaySeconds m) (isRinging m)
    (currentRingingSignal m) (wakeLock m) (ringOffButtonPressed m)
    (alreadyRangIds m) (intervalRef m) (audioInstancesRef m)
    (audioContextsRef m) (pending m) v (world m).
Definition set_world (v : World) (m : Machine) : Machine :=
  mkMachine (savedSignals m) (antidelaySeconds m) (isRinging m)
    (currentRingingSignal m) (wakeLock m) (ringOffButtonPressed m)
    (alreadyRangIds m) (intervalRef m) (audioInstancesRef m)
    (audioContextsRef m) (pending m) (triggeredLog m) v.

(** [setAlreadyRangIds(prev => new Set(prev).add(id))]: a functional update,
    applied to the cell's current value. *)
Definition markRang (id : string) (m : Machine) : Machine :=
  set_alreadyRangIds ({[id]} ∪ alreadyRangIds m) m.

(** [onSignalTriggered(signal)]: the collaborator's callback is recorded. *)
Definition onSignalTriggered (signal : Signal) (m : Machine) : Machine :=
  set_triggeredLog (triggeredLog m ++ [signal]) m.

(** ** Audio start *)

(** How a call of [playCustomRingtone] ends. *)
Inductive AudioResponse : Type :=
| PlayElement (attached : bool)  (* the custom sound plays in a media element *)
| PlayTone                       (* the default tone plays in an audio context *)
| PlayRaise (err : string).      (* the audio start raises *)

(** Modelled from the spec: [playCustomRingtone] of [@/utils/audioUtils],
    which is imported but not part of the sources (section 4.4: a custom
    payload is played through a playable media handle, which is returned;
    otherwise a default tone is synthesised in a low-level audio context,
    which is appended to the tracking collection passed in; scenario D: the
    audio start may raise a resource error). *)
Definition playCustomRingtone (r : AudioResponse) (contexts : list positive)
    (w : World) : outcome (option positive) * list positive * World :=
  match r with
  | PlayElement attached =>
      let '(a, w1) := allocHandle w in
      (Returned (Some a), contexts,
       set_audioElements (<[a := mkAudio false 0%N attached]> (audioElements w1)) w1)
  | PlayTone =>
      let '(c, w1) := allocHandle w in
      (Returned None, contexts ++ [c],
       set_audioContexts (<[c := CtxRunning]> (audioContexts w1)) w1)
  | PlayRaise err => (Thrown err, contexts, w)
  end.

(** [audio.pause(); audio.currentTime = 0]. *)
Definition stopElement (e : AudioElement) : AudioElement :=
  mkAudio true 0%N (inDocument e).

Definition pauseAndRewind (a : positive) (w : World) : World :=
  set_audioElements (alter stopElement a (audioElements w)) w.

(** [if (context.state !== 'closed') context.close()]. *)
Definition closeContext (c : positive) (w : World) : World :=
  match audioContexts w !! c with
  | Some CtxClosed => w
  | Some _ => set_audioContexts (<[c := CtxClosed]> (audioContexts w)) w
  | None => w
  end.

(** [document.querySelectorAll('audio').forEach(...)]: every element that is
    attached to the document is paused and rewound. *)
Definition sweepDocumentAudio (w : World) : World :=
  set_audioElements
    ((λ e, if inDocument e then stopElement e else e) <$> audioElements w) w.

(** ** src/hooks/useRingManager.ts: the operations *)

(** [triggerRing], up to its first [await]: the two state setters run at
    once, then the call is parked on the wake-lock request. *)
Definition triggerRing_start (signal : Signal) (m : Machine) : Machine :=
  let m1 := setIsRinging true m in
  let m2 := setCurrentRingingSignal (Some signal) m1 in
  set_pending (pending m2 ++ [AwaitWakeLock signal]) m2.

(** [triggerRing], from [const lock = await requestWakeLock()] up to the
    call of [playCustomRingtone]. The result tells whether the call goes on
    to the second [await] ([true]) or ended by throwing ([false]). *)
Definition triggerRing_afterWakeLock (r : LockResponse) (m : Machine)
  : bool * Machine :=
  match requestWakeLock r (world m) with
  | (Returned lock, w1) =>
      let m1 := setWakeLock lock (set_world w1 m) in
      let m2 := if documentHidden (world m1)
                then set_world (window_focus (world m1)) m1 else m1 in
      (true, m2)
  | (Thrown err, w1) => (false, set_world (reportUnhandled err w1) m)
  end.

(** The polling effect: its cleanup, which exists only when the effect ran
    with a non-empty list, and its body. *)
Definition intervalCleanup (m : Machine) : Machine :=
  match savedSignals m with
  | [] => m
  | _ :: _ =>
      match intervalRef m with
      | Some t => set_world (clearInterval t (world m)) m
      | None => m
      end
  end.

Definition intervalEffect (m : Machine) : Machine :=
  match savedSignals m with
  | [] => m
  | _ :: _ =>
      let c := mkClosure (savedSignals m) (antidelaySeconds m) (alreadyRangIds m) in
      let '(t, w1) := setInterval c (world m) in
      set_intervalRef (Some t) (set_world w1 m)
  end.

(** A render in which one of the effect's dependencies changed: the cleanup
    of the previous run is called with the previous values, [change] installs
    the new ones, and the effect runs again. *)
Definition rerender (change : Machine → Machine) (m : Machine) : Machine :=
  intervalEffect (change (intervalCleanup m)).
Arguments rerender : simpl never.

(** [triggerRing], from [const audio = await playCustomRingtone(...)] to its
    end. A raised audio start leaves the function at the [await]: nothing
    after it runs and the promise of [triggerRing], which no caller awaits or
    catches, is rejected. The last statement, [setAlreadyRangIds], updates
    the cell and nothing else: the polling effect is not run again here, so
    the live interval keeps the set it closed over. *)
Definition triggerRing_afterAudio (signal : Signal) (r : AudioResponse)
    (m : Machine) : Machine :=
  match playCustomRingtone r (audioContextsRef m) (world m) with
  | (Returned audio, contexts, w1) =>
      let m1 := set_audioContextsRef contexts (set_world w1 m) in
      let m2 := match audio with
                | Some a => set_audioInstancesRef (audioInstancesRef m1 ++ [a]) m1
                | None => m1
                end in
      let m3 := onSignalTriggered signal m2 in
      markRang (getSignalId signal) m3
  | (Thrown err, contexts, w1) =>
      set_audioContextsRef contexts (set_world (reportUnhandled err w1) m)
  end.

(** The two [forEach] loops of [handleRingOff] over the tracked handles. *)
Definition stopTrackedAudio (instances : list positive) (w : World) : World :=
  foldl (λ w a, pauseAndRewind a w) w instances.

Definition closeTrackedContexts (contexts : list positive) (w : World) : World :=
  foldl (λ w c, closeContext c w) w contexts.

(** [handleRingOff]. *)
Definition handleRingOff (m : Machine) : Machine :=
  let m1 := setRingOffButtonPressed true m in
  let m2 := set_world (setTimeout (world m1)) m1 in
  let m3 := set_world (stopTrackedAudio (audioInstancesRef m2) (world m2)) m2 in
  let m4 := set_audioInstancesRef [] m3 in
  let m5 := set_world (closeTrackedContexts (audioContextsRef m4) (world m4)) m4 in
  let m6 := set_audioContextsRef [] m5 in
  let m7 := set_world (sweepDocumentAudio (world m6)) m6 in
  if isRinging m7 then
    let m8 := setIsRinging false m7 in
    let m9 := setCurrentRingingSignal None m8 in
    let m10 := set_world (releaseWakeLock (wakeLock m9) (world m9)) m9 in
    setWakeLock None m10
  else m7.

(** The hook as first rendered: initial cells, empty boxes, then the polling
    effect. *)
Definition mount (signals : list Signal) (antidelay : Z)
    (supported hidden : bool) : Machine :=
  intervalEffect
    (mkMachine signals antidelay false None None false ∅ None [] [] [] []
       (freshWorld supported hidden)).

(** What happens to the hook. *)
Inductive Event : Type :=
| Tick (t : positive) (now : Z)     (* interval [t] fires at instant [now] *)
| WakeLockSettles (i : nat) (r : LockResponse)
| AudioSettles (i : nat) (r : AudioResponse)
| RingOff                           (* the dismiss button *)
| SaveSignals (signals : list Signal)
| SetAntidelay (d : Z)
| TriggerRingChanges                (* [useCallback] returns a new [triggerRing] *)
| PressedTimeout                    (* the 200 ms timer of [handleRingOff] *)
| Elapse (dt : N)                   (* playing elements advance *)
| Visibility (hidden : bool)
| MarksFlushed.                     (* React renders the queued marks and
                                       runs the polling effect again *)

(** [checkSignalTime] of [@/utils/signalUtils] is imported but not part of
    the sources: the development is parametric in it. It reads the clock,
    which is passed here as [now]. *)
Class Evaluator : Type :=
  checkSignalTime : Signal → Z → Z → bool.

Section Polling.

Context `{Evaluator}.

(** The body of [savedSignals.forEach] in the interval callback, over the
    values the callback closed over. *)
Definition pollSignal (now : Z) (c : Closure) (m : Machine)
    (signal : Signal) : Machine :=
  if checkSignalTime signal (cl_antidelay c) now
     && negb (bool_decide (getSignalId signal ∈ cl_rang c))
  then triggerRing_start signal m
  else m.

(** One firing of interval [t]; a cleared interval does not fire. *)
Definition tick (t : positive) (now : Z) (m : Machine) : Machine :=
  match intervals (world m) !! t with
  | Some c => foldl (pollSignal now c) m (cl_signals c)
  | None => m
  end.

Definition step (e : Event) (m : Machine) : Machine :=
  match e with
  | Tick t now => tick t now m
  | WakeLockSettles i r =>
      match pending m !! i with
      | Some (AwaitWakeLock signal) =>
          match triggerRing_afterWakeLock r m with
          | (true, m1) =>
              set_pending (<[i := AwaitAudio signal]> (pending m1)) m1
          | (false, m1) => set_pending (delete i (pending m1)) m1
          end
      | _ => m
      end
  | AudioSettles i r =>
      match pending m !! i with
      | Some (AwaitAudio signal) =>
          triggerRing_afterAudio signal r
            (set_pending (delete i (pending m)) m)
      | _ => m
      end
  | RingOff => handleRingOff m
  | SaveSignals signals => rerender (set_savedSignals signals) m
  | SetAntidelay d =>
      if decide (d = antidelaySeconds m) then m
      else rerender (set_antidelaySeconds d) m
  | TriggerRingChanges => rerender (λ m, m) m
  | PressedTimeout =>
      match timeouts (world m) with
      | O => m
      | S n => setRingOffButtonPressed false
                 (set_world (set_timeouts n (world m)) m)
      end
  | Elapse dt =>
      set_world
        (set_audioElements
           ((λ e, if paused e then e
                  else mkAudio false (currentTime e + dt)%N (inDocument e))
              <$> audioElements (world m))
           (world m)) m
  | Visibility hidden => set_world (set_documentHidden hidden (world m)) m
  | MarksFlushed => rerender (λ m, m) m
  end.

(** A run applies the events from left to right. *)
Definition run (es : list Event) (m : Machine) : Machine :=
  foldl (λ m e, step e m) m es.

(** The states the hook can be in. *)
Inductive Reachable : Machine → Prop :=
| Reachable_mount signals antidelay supported hidden :
    Reachable (mount signals antidelay supported hidden)
| Reachable_step e m :
    Reachable m → Reachable (step e m).

(** The ringing flag is down in every state of the run of [es] from [m]
    in which an event happens. *)
Fixpoint staysIdle (es : list Event) (m : Machine) : Prop :=
  match es with
  | [] => True
  | e :: es' => isRinging m = false ∧ staysIdle es' (step e m)
  end.

(** The signals for which a firing of interval [t] at [now] starts
    [triggerRing]. *)
Definition fired (t : positive) (now : Z) (m : Machine) : list Signal :=
  match intervals (world m) !! t with
  | Some c =>
      filter (λ signal,
                checkSignalTime signal (cl_antidelay c) now = true
                ∧ getSignalId signal ∉ cl_rang c)
             (cl_signals c)
  | None => []
  end.

End Polling.

(** Modelled from the spec: [checkSignalTime] as the trigger evaluator of
    section 4.1, a level check over a window of one polling interval, with
    [now] in milliseconds and the timestamp and the antidelay in seconds. *)
Definition shouldFire (signal : Signal) (antidelaySeconds now : Z) : bool :=
  let target := (timestamp signal - antidelaySeconds) * 1000 in
  (target <=? now) && (now <? target + 1000).

Definition specEvaluator : Evaluator := shouldFire.

(** ** src/hooks/useSignalTracker.ts: the background-task effect *)

(** The calls the effect makes on its collaborators. *)
Inductive Call : Type :=
| CallStart                             (* startBackgroundTask() *)
| CallStop                              (* stopBackgroundTask() *)
| CallSchedule (signals : list Signal)  (* scheduleAllSignalNotifications *)
| CallPostMessage.                      (* REGISTER_BACKGROUND_SYNC *)

Global Instance Call_eq_dec : EqDecision Call.
Proof. solve_decision. Defined.

Section BackgroundTask.

(** [@/utils/backgroundTaskManager] is imported but not part of the
    sources: its state and its operations are taken as they come. *)
Variable Keeper : Type.
Variable startBackgroundTask : Keeper → Keeper.
Variable stopBackgroundTask : Keeper → Keeper.
Variable scheduleAllSignalNotifications : list Signal → Keeper → Keeper.
(** [getBackgroundTaskStatus().isActive]. *)
Variable getBackgroundTaskStatus : Keeper → bool.

(** The body of the effect; [hasController] stands for
    ['serviceWorker' in navigator && navigator.serviceWorker.controller].
    It returns the collaborator's new state and the calls made, in order. *)
Definition backgroundEffect (savedSignals : list Signal)
    (hasController : bool) (k : Keeper) : Keeper * list Call :=
  match savedSignals with
  | _ :: _ =>
      let '(k1, c1) :=
        if negb (getBackgroundTaskStatus k)
        then (startBackgroundTask k, [CallStart])
        else (k, []) in
      let k2 := scheduleAllSignalNotifications savedSignals k1 in
      (k2, c1 ++ [CallSchedule savedSignals]
              ++ (if hasController then [CallPostMessage] else []))
  | [] => (stopBackgroundTask k, [CallStop])
  end.

(** The cleanup the effect returns, over the list it ran with. *)
Definition backgroundCleanup (savedSignals : list Signal) (k : Keeper)
  : Keeper * list Call :=
  if getBackgroundTaskStatus k && bool_decide (length savedSignals = 0%nat)
  then (stopBackgroundTask k, [CallStop])
  else (k, []).

(** [savedSignals] changes from [old] to [new]: cleanup of the previous
    run, then the effect again. *)
Definition savedSignalsChange (old new : list Signal) (hasController : bool)
    (k : Keeper) : Keeper * list Call :=
  let '(k1, c1) := backgroundCleanup old k in
  let '(k2, c2) := backgroundEffect new hasController k1 in
  (k2, c1 ++ c2).

End BackgroundTask.

(** Modelled from the spec: the background keep-alive collaborator of
    section 6, whose state is its [isActive] flag: [start()] sets it,
    [stop()] clears it, scheduling notifications leaves it. *)
Definition keeperStart (active : bool) : bool := true.
Definition keeperStop (active : bool) : bool := false.
Definition keeperSchedule (signals : list Signal) (active : bool) : bool := active.
Definition keeperStatus (active : bool) : bool := active.

(** The tracker's effect over that collaborator. *)
Definition trackerEffect : list Signal → bool → bool → bool * list Call :=
  backgroundEffect bool keeperStart keeperStop keeperSchedule keeperStatus.
Definition trackerChange
  : list Signal → list Signal → bool → bool → bool * list Call :=
  savedSignalsChange bool keeperStart keeperStop keeperSchedule keeperStatus.

(** ** Invariants of the ring manager *)

(** The polling effect keeps exactly the timer it last created, and only
    while the list is non-empty; the callback of that timer closed over the
    current list and antidelay, and over the deduplication set as it was
    when the effect ran: every identity in it is marked, but a mark that is
    not flushed yet is missing from it. *)
Definition armed (m : Machine) : Prop :=
  match savedSignals m with
  | [] => intervals (world m) = ∅
  | _ :: _ =>
      ∃ t rang, intervalRef m = Some t
           ∧ intervals (world m)
             = {[ t := mkClosure (savedSignals m) (antidelaySeconds m) rang ]}
           ∧ rang ⊆ alreadyRangIds m
  end.

(** Every live interval read the current deduplication set when it was
    made: no mark is waiting to be flushed. *)
Definition flushed (m : Machine) : Prop :=
  ∀ t c, intervals (world m) !! t = Some c → cl_rang c = alreadyRangIds m.

(** Every live interval was made when [id] was marked already. *)
Definition knownToTimers (id : string) (m : Machine) : Prop :=
  ∀ t c, intervals (world m) !! t = Some c → id ∈ cl_rang c.

(** Every handle in use was given out by the allocator. *)
Definition handlesBelow (m : Machine) : Prop :=
  (∀ t, intervalRef m = Some t → (t < nextHandle (world m))%positive)
  ∧ (∀ l, l ∈ heldLocks (world m) → (l < nextHandle (world m))%positive)
  ∧ (∀ l, wakeLock m = Some l → (l < nextHandle (world m))%positive).

Definition wellFormed (m : Machine) : Prop := armed m ∧ handlesBelow m.

(** A change of the store that touches neither the browser nor the timer box
    nor the stored lock. *)
Definition quiet (change : Machine → Machine) : Prop :=
  ∀ x, world (change x) = world x ∧ intervalRef (change x) = intervalRef x
       ∧ wakeLock (change x) = wakeLock x.

(** A reservation that is held by the page while the hook no longer stores
    it: no operation of the hook can release it. *)
Definition leaked (l : positive) (m : Machine) : Prop :=
  l ∈ heldLocks (world m) ∧ wakeLock m ≠ Some l
  ∧ (l < nextHandle (world m))%positive.

(** Closing one context, on the table of contexts. *)
Definition closeIn (c : positive) (ctxs : gmap positive ContextState)
  : gmap positive ContextState :=
  match ctxs !! c with
  | Some CtxClosed => ctxs
  | Some _ => <[c := CtxClosed]> ctxs
  | None => ctxs
  end.

(** The browser after [handleRingOff], before the wake lock is dealt
    with. *)
Definition silenced (m : Machine) : World :=
  sweepDocumentAudio
    (closeTrackedContexts (audioContextsRef m)
       (stopTrackedAudio (audioInstancesRef m) (setTimeout (world m)))).
Arguments silenced : simpl never.

(** ** Scenarios *)

(** The signals and the instant of the scenarios of section 8 of the spec;
    [instantT] is the trigger time of both signals in milliseconds. *)
Definition signalEUR : Signal := mkSignal "EURUSD" "up" 1700000000.
Definition signalGBP : Signal := mkSignal "GBPUSD" "down" 1700000000.
Definition instantT : Z := 1700000000000.

(** One signal fires: the machine rings and the call of [triggerRing] waits
    for its wake lock. *)
Definition ringing : Machine :=
  @run specEvaluator [Tick 1 instantT] (mount [signalEUR] 0 true false).

(** The wake lock is granted: the call waits for the audio start. *)
Definition granted : Machine :=
  @run specEvaluator [Tick 1 instantT; WakeLockSettles 0 Grant]
    (mount [signalEUR] 0 true false).

(** One signal fires; the dismiss button is pressed while the wake-lock
    request is in flight; then the platform grants the request. *)
Definition lateGrant : Machine :=
  @run specEvaluator [Tick 1 instantT; RingOff; WakeLockSettles 0 Grant]
    (mount [signalEUR] 0 true false).

(** One signal fires and its call of [triggerRing] runs to its end; the
    mark is queued and the interval of the mount is still live. *)
Definition rungOnce : Machine :=
  @run specEvaluator
    [Tick 1 instantT; WakeLockSettles 0 Grant; AudioSettles 0 (PlayElement false)]
    (mount [signalEUR] 0 true false).

(** Two signals fire in one firing; the first call has been granted its
    wake lock, the second is still waiting for its own. *)
Definition twoTriggers : Machine :=
  @run specEvaluator [Tick 1 instantT; WakeLockSettles 0 Grant]
    (mount [signalEUR; signalGBP] 0 true false).

(** ** Further notions for the ring manager *)

From Stdlib Require Import Ascii.

(** Whether a string contains the separator of [getSignalId]. *)
Fixpoint hasDash (s : string) : bool :=
  match s with
  | EmptyString => false
  | String c s' => if Ascii.eqb c "-"%char then true else hasDash s'
  end.

(** The store with everything the polling effect manages erased: the live
    timers, the allocator and the timer box. *)
Definition sansTimers (m : Machine) : Machine :=
  set_intervalRef None
    (set_world (set_nextHandle 1 (set_intervals ∅ (world m))) m).

(** Every sound that can be heard is within reach of [handleRingOff]: a
    playing element is tracked or attached to the document, a context that
    is not closed is tracked. *)
Definition audioAccounted (m : Machine) : Prop :=
  (∀ a e, audioElements (world m) !! a = Some e → paused e = false →
          a ∈ audioInstancesRef m ∨ inDocument e = true)
  ∧ (∀ c st, audioContexts (world m) !! c = Some st → st ≠ CtxClosed →
             c ∈ audioContextsRef m).

(** The deduplication set the callback of the interval in the box reads:
    the one the polling effect closed over when it made the interval. It is
    the current set unless a mark is still queued. *)
Definition closedOver (m : Machine) : gset string :=
  match intervalRef m ≫= (λ t, intervals (world m) !! t) with
  | Some c => cl_rang c
  | None => alreadyRangIds m
  end.

(** The signals a firing at [now] rings in state [m]: the saved signals the
    evaluator accepts whose identity is not in the set the callback reads,
    in list order. *)
Definition eligible `{Evaluator} (now : Z) (m : Machine) : list Signal :=
  filter (λ signal,
            checkSignalTime signal (antidelaySeconds m) now = true
            ∧ getSignalId signal ∉ closedOver m)
         (savedSignals m).


(** ** src/utils/wakeLockUtils.ts: the wake-up helpers *)

(** A pending [setTimeout] callback of the wake-up helpers. The last three
    belong to a call of [forceScreenWakeUp], named by its number. *)
Inductive Timer : Type :=
| CloseNotification (n : positive)            (* wakeNotification.close() *)
| CloseContext (c : positive)                 (* audioContext.close() *)
| KeepAwakeOff (call : nat)                   (* keepAwake = false; resolve() *)
| FlashDim (call : nat) (original : string)   (* filter = 'brightness(0.5)' *)
| FlashRestore (call : nat) (original : string).  (* filter = original; resolve() *)

Global Instance Timer_eq_dec : EqDecision Timer.
Proof. solve_decision. Defined.

(** The page as the wake-up helpers see it: the browser of the ring manager
    and what only these helpers touch. [window] and [navigator] exist, as in
    any browser. *)
Record Device : Type := mkDevice {
  devWorld : World;
    (* the browser of the ring manager *)
  screenHasOrientation : bool;
    (* 'screen' in window && 'orientation' in window.screen *)
  canVibrate : bool;
    (* 'vibrate' in navigator *)
  notificationsGranted : bool;
    (* 'Notification' in window && permission 'granted' *)
  screenHasKeepAwake : bool;
    (* 'screen' in navigator && 'keepAwake' in its screen *)
  hasBody : bool;
    (* document.body *)
  visibilityEvents : nat;
    (* dispatched visibilitychange events *)
  vibrations : list (list nat);
    (* patterns passed to navigator.vibrate *)
  notifications : gmap positive bool;
    (* notifications created; true while shown *)
  keepAwake : bool;
    (* navigator.screen.keepAwake *)
  bodyFilter : string;
    (* document.body.style.filter *)
  timers : list Timer;
    (* pending setTimeout callbacks *)
  errors : list string;
    (* console.error lines *)
  awaiting : gmap nat (bool * nat);
    (* forceScreenWakeUp calls whose Promise.all is pending: whether the
       promise of wakeUpScreen() is, and how many of the other two are *)
  nextCall : nat;
    (* calls of forceScreenWakeUp so far *)
  orphans : gset nat
    (* forceScreenWakeUp calls whose Promise.all was rejected while their
       wakeUpScreen() is still running *)
}.

Definition with_devWorld (v : World) (d : Device) : Device :=
  mkDevice v (screenHasOrientation d) (canVibrate d) (notificationsGranted
    d) (screenHasKeepAwake d) (hasBody d) (visibilityEvents d) (vibrations d)
    (notifications d) (keepAwake d) (bodyFilter d) (timers d) (errors d)
    (awaiting d) (nextCall d) (orphans d).
Definition with_visibilityEvents (v : nat) (d : Device) : Device :=
  mkDevice (devWorld d) (screenHasOrientation d) (canVibrate d)
    (notificationsGranted d) (screenHasKeepAwake d) (hasBody d) v (vibrations
    d) (notifications d) (keepAwake d) (bodyFilter d) (timers d) (errors d)
    (awaiting d) (nextCall d) (orphans d).
Definition with_vibrations (v : list (list nat)) (d : Device) : Device :=
  mkDevice (devWorld d) (screenHasOrientation d) (canVibrate d)
    (notificationsGranted d) (screenHasKeepAwake d) (hasBody d)
    (visibilityEvents d) v (notifications d) (keepAwake d) (bodyFilter d)
    (timers d) (errors d) (awaiting d) (nextCall d) (orphans d).
Definition with_notifications (v : gmap positive bool) (d : Device) : Device :=
  mkDevice (devWorld d) (screenHasOrientation d) (canVibrate d)
    (notificationsGranted d) (screenHasKeepAwake d) (hasBody d)
    (visibilityEvents d) (vibrations d) v (keepAwake d) (bodyFilter d) (timers
    d) (errors d) (awaiting d) (nextCall d) (orphans d).
Definition with_keepAwake (v : bool) (d : Device) : Device :=
  mkDevice (devWorld d) (screenHasOrientation d) (canVibrate d)
    (notificationsGranted d) (screenHasKeepAwake d) (hasBody d)
    (visibilityEvents d) (vibrations d) (notifications d) v (bodyFilter d)
    (timers d) (errors d) (awaiting d) (nextCall d) (orphans d).
Definition with_bodyFilter (v : string) (d : Device) : Device :=
  mkDevice (devWorld d) (screenHasOrientation d) (canVibrate d)
    (notificationsGranted d) (screenHasKeepAwake d) (hasBody d)
    (visibilityEvents d) (vibrations d) (notifications d) (keepAwake d) v
    (timers d) (errors d) (awaiting d) (nextCall d) (orphans d).
Definition with_timers (v : list Timer) (d : Device) : Device :=
  mkDevice (devWorld d) (screenHasOrientation d) (canVibrate d)
    (notificationsGranted d) (screenHasKeepAwake d) (hasBody d)
    (visibilityEvents d) (vibrations d) (notifications d) (keepAwake d)
    (bodyFilter d) v (errors d) (awaiting d) (nextCall d) (orphans d).
Definition with_errors (v : list string) (d : Device) : Device :=
  mkDevice (devWorld d) (screenHasOrientation d) (canVibrate d)
    (notificationsGranted d) (screenHasKeepAwake d) (hasBody d)
    (visibilityEvents d) (vibrations d) (notifications d) (keepAwake d)
    (bodyFilter d) (timers d) v (awaiting d) (nextCall d) (orphans d).
Definition with_awaiting (v : gmap nat (bool * nat)) (d : Device) : Device :=
  mkDevice (devWorld d) (screenHasOrientation d) (canVibrate d)
    (notificationsGranted d) (screenHasKeepAwake d) (hasBody d)
    (visibilityEvents d) (vibrations d) (notifications d) (keepAwake d)
    (bodyFilter d) (timers d) (errors d) v (nextCall d) (orphans d).
Definition with_nextCall (v : nat) (d : Device) : Device :=
  mkDevice (devWorld d) (screenHasOrientation d) (canVibrate d)
    (notificationsGranted d) (screenHasKeepAwake d) (hasBody d)
    (visibilityEvents d) (vibrations d) (notifications d) (keepAwake d)
    (bodyFilter d) (timers d) (errors d) (awaiting d) v (orphans d).
Definition with_orphans (v : gset nat) (d : Device) : Device :=
  mkDevice (devWorld d) (screenHasOrientation d) (canVibrate d)
    (notificationsGranted d) (screenHasKeepAwake d) (hasBody d)
    (visibilityEvents d) (vibrations d) (notifications d) (keepAwake d)
    (bodyFilter d) (timers d) (errors d) (awaiting d) (nextCall d) v.

(** A page on which the helpers have not run yet. *)
Definition freshDevice (w : World) (orientation vibrate granted keep body : bool)
    (filter : string) : Device :=
  mkDevice w orientation vibrate granted keep body 0%nat [] ∅ false filter []
    [] ∅ 0%nat ∅.

(** *** Computations that may throw *)

(** A piece of JavaScript over the page: it ends by returning or by
    throwing, and leaves a page. *)
Definition Js (A : Type) : Type := Device → outcome A * Device.

Definition ret {A} (a : A) : Js A := λ d, (Returned a, d).
Definition throw {A} (err : string) : Js A := λ d, (Thrown err, d).
Definition bind {A B} (c : Js A) (k : A → Js B) : Js B :=
  λ d, match c d with
       | (Returned a, d1) => k a d1
       | (Thrown err, d1) => (Thrown err, d1)
       end.
(** [try { body } catch (e) { handler(e) }]. *)
Definition tryCatch {A} (body : Js A) (handler : string → Js A) : Js A :=
  λ d, match body d with
       | (Returned a, d1) => (Returned a, d1)
       | (Thrown err, d1) => handler err d1
       end.
Definition gets {A} (f : Device → A) : Js A := λ d, (Returned (f d), d).
Definition modify (f : Device → Device) : Js unit := λ d, (Returned tt, f d).

Notation "x <- c1 ;; c2" := (bind c1 (λ x, c2))
  (at level 100, c1 at next level, right associativity).
Notation "c1 ;;; c2" := (bind c1 (λ _, c2))
  (at level 100, right associativity).

(** A platform call that either succeeds, with the given effect, or throws
    the given error. *)
Definition platformCall (answer : option string) (effect : Device → Device)
  : Js unit :=
  match answer with
  | None => modify effect
  | Some err => throw err
  end.

(** *** The platform calls of the helpers *)

Definition onWorld {A} (f : World → outcome A * World) : Js A :=
  λ d, let '(r, w) := f (devWorld d) in (r, with_devWorld w d).

Definition consoleLog (line : string) : Js unit :=
  modify (λ d, with_devWorld (console_log line (devWorld d)) d).
Definition consoleError (line : string) : Js unit :=
  modify (λ d, with_errors (errors d ++ [line]) d).

Definition scheduleTimer (t : Timer) : Js unit :=
  modify (λ d, with_timers (timers d ++ [t]) d).

(** [window.screen.wakeUpDisplay?.()]: the method may be missing, in which
    case the optional call yields [undefined]. *)
Inductive DisplayAnswer : Type :=
| DisplayAbsent
| DisplayResolves
| DisplayRejects (err : string).

Definition wakeUpDisplay (a : DisplayAnswer) : Js unit :=
  match a with
  | DisplayAbsent | DisplayResolves => ret tt
  | DisplayRejects err => throw err
  end.

(** [new Notification(...)]. *)
Definition newNotification (answer : option string) : Js positive :=
  match answer with
  | None =>
      λ d, let '(n, w) := allocHandle (devWorld d) in
           (Returned n,
            with_notifications (<[n := true]> (notifications d))
              (with_devWorld w d))
  | Some err => throw err
  end.

(** The silent tone of method 5: the context and its nodes are created, the
    oscillator is started and stopped, and the context is closed by a timer.
    The construction of the context may throw, or a later call may. *)
Inductive ToneAnswer : Type :=
| ToneStarts
| ToneNoContext (err : string)
| ToneBreaks (err : string).

Definition newAudioContext : Js positive :=
  λ d, let '(c, w) := allocHandle (devWorld d) in
       (Returned c,
        with_devWorld
          (set_audioContexts (<[c := CtxRunning]> (audioContexts w)) w) d).

Definition silentTone (a : ToneAnswer) : Js unit :=
  match a with
  | ToneStarts => c <- newAudioContext ;; scheduleTimer (CloseContext c)
  | ToneNoContext err => throw err
  | ToneBreaks err => newAudioContext ;;; throw err
  end.

(** What the platform answers during one call of [wakeUpScreen]. *)
Record WakeAnswers : Type := mkWakeAnswers {
  lockAnswer : LockResponse;           (* navigator.wakeLock.request *)
  focusAnswer : option string;         (* window.focus() *)
  dispatchAnswer : option string;      (* document.dispatchEvent(...) *)
  displayAnswer : DisplayAnswer;       (* window.screen.wakeUpDisplay?.() *)
  vibrateAnswer : option string;       (* navigator.vibrate(...) *)
  notificationAnswer : option string;  (* new Notification(...) *)
  toneAnswer : ToneAnswer              (* the audio calls of method 5 *)
}.

(** *** [wakeUpScreen] *)

Definition wakePattern : list nat := [1000; 500; 1000; 500; 1000; 500; 1000]%nat.

(** Method 1: [await requestWakeLock()]; the reservation is dropped. *)
Definition wakeMethod1 (ans : WakeAnswers) : Js unit :=
  onWorld (requestWakeLock (lockAnswer ans)) ;;; ret tt.

(** Method 2: focus, the visibility event when the page is hidden, and the
    native wake-up under its own [try]. *)
Definition wakeMethod2 (ans : WakeAnswers) : Js unit :=
  platformCall (focusAnswer ans)
    (λ d, with_devWorld (window_focus (devWorld d)) d) ;;;
  hidden <- gets (λ d, documentHidden (devWorld d)) ;;
  (if hidden
   then platformCall (dispatchAnswer ans)
          (λ d, with_visibilityEvents (S (visibilityEvents d)) d)
   else ret tt) ;;;
  orientation <- gets screenHasOrientation ;;
  if orientation
  then tryCatch (wakeUpDisplay (displayAnswer ans))
         (λ _, consoleLog "Native wake up display not available")
  else ret tt.

(** Method 3: the vibration pattern. *)
Definition wakeMethod3 (ans : WakeAnswers) : Js unit :=
  vibrate <- gets canVibrate ;;
  if vibrate
  then platformCall (vibrateAnswer ans)
         (λ d, with_vibrations (vibrations d ++ [wakePattern]) d)
  else ret tt.

(** Method 4: the notification, closed after five seconds. *)
Definition wakeMethod4 (ans : WakeAnswers) : Js unit :=
  granted <- gets notificationsGranted ;;
  if granted
  then tryCatch
         (n <- newNotification (notificationAnswer ans) ;;
          scheduleTimer (CloseNotification n))
         (λ e, consoleLog ("Web notification wake-up failed: " +:+ e))
  else ret tt.

(** Method 5: the silent tone. *)
Definition wakeMethod5 (ans : WakeAnswers) : Js unit :=
  tryCatch (silentTone (toneAnswer ans))
    (λ e, consoleLog ("Audio wake-up trigger failed: " +:+ e)).

(** The body of the outer [try] of [wakeUpScreen]: the five methods and
    the closing log line. *)
Definition wakeBody (ans : WakeAnswers) : Js unit :=
  wakeMethod1 ans ;;;
  wakeMethod2 ans ;;;
  wakeMethod3 ans ;;;
  wakeMethod4 ans ;;;
  wakeMethod5 ans ;;;
  consoleLog "All screen wake-up methods executed".

(** [wakeUpScreen]. Its two [await]s are run through: the function is
    taken from its call to its end in one piece. *)
Definition wakeUpScreen (ans : WakeAnswers) : Js unit :=
  tryCatch (wakeBody ans)
    (λ error, consoleError ("Failed to wake up screen: " +:+ error)).

(** *** [forceScreenWakeUp] *)

(** One of the promises of call [call] has resolved and [left] are still
    pending: when none is, [Promise.all] settles and the call logs its
    completion. *)
Definition promiseResolved (call : nat) (left : bool * nat) (d : Device)
  : Device :=
  match left with
  | (false, O) =>
      with_awaiting (delete call (awaiting d))
        (with_devWorld
           (console_log "Force screen wake-up completed" (devWorld d)) d)
  | _ => with_awaiting (<[call := left]> (awaiting d)) d
  end.

(** [resolve()] from a timer of call [call]. *)
Definition resolveFor (call : nat) (d : Device) : Device :=
  match awaiting d !! call with
  | Some (wake, S n) => promiseResolved call (wake, n) d
  | _ => d
  end.

(** The promise of the [wakeUpScreen()] of call [call] resolves. *)
Definition wakeUpResolved (call : nat) (d : Device) : Device :=
  match awaiting d !! call with
  | Some (true, n) => promiseResolved call (false, n) d
  | _ => d
  end.

(** What the executor of the second promise meets. The test
    ['keepAwake' in navigator.screen] throws when [navigator.screen] is not
    an object, whatever the page otherwise offers; the assignment throws,
    the module being strict code, when the property cannot be written. *)
Inductive KeepAwakeAnswer : Type :=
| KeepAwakeWorks
| KeepAwakeTestThrows (err : string)
| KeepAwakeAssignThrows (err : string).

(** The executor of the second promise: it returns how many timers the
    promise waits for, or throws before it has written anything. *)
Definition keepAwakeExecutor (a : KeepAwakeAnswer) (call : nat) : Js nat :=
  match a with
  | KeepAwakeTestThrows err => throw err
  | _ =>
      keep <- gets screenHasKeepAwake ;;
      if keep
      then match a with
           | KeepAwakeAssignThrows err => throw err
           | _ => modify (with_keepAwake true)
           end ;;;
           scheduleTimer (KeepAwakeOff call) ;;; ret 1%nat
      else ret 0%nat
  end.

(** The executor of the third promise. *)
Definition flashExecutor (call : nat) : Js nat :=
  body <- gets hasBody ;;
  if body
  then originalFilter <- gets bodyFilter ;;
       modify (with_bodyFilter "brightness(2)") ;;;
       scheduleTimer (FlashDim call originalFilter) ;;; ret 1%nat
  else ret 0%nat.

(** [new Promise(executor)]: an executor that throws rejects the promise;
    the construction itself returns. The result is the error of the
    rejection or what the executor returned. *)
Definition newPromise {A} (executor : Js A) : Js (string + A) :=
  tryCatch (a <- executor ;; ret (inr a)) (λ err, ret (inl err)).

(** [forceScreenWakeUp] up to its [await] and, when a promise is rejected
    already, through its [catch]. The array literal calls [wakeUpScreen()]
    first, which stops at its first [await] before it has written anything;
    the two executors run next, the third also when the second threw. When
    the second promise is rejected, [Promise.all] rejects: the [catch]
    reports it, the call is over, and its [wakeUpScreen()] runs on with
    nothing waiting for it. Otherwise [Promise.all] waits. The result is
    the number of the call. *)
Definition forceScreenWakeUp_start (a : KeepAwakeAnswer) : Js nat :=
  call <- gets nextCall ;;
  modify (with_nextCall (S call)) ;;;
  r1 <- newPromise (keepAwakeExecutor a call) ;;
  n2 <- flashExecutor call ;;
  match r1 with
  | inr n1 =>
      modify (λ d, with_awaiting
                     (<[call := (true, (n1 + n2)%nat)]> (awaiting d)) d)
  | inl error =>
      modify (λ d, with_orphans ({[call]} ∪ orphans d) d) ;;;
      consoleError ("Force screen wake-up failed: " +:+ error)
  end ;;;
  ret call.

(** The rest of the [wakeUpScreen()] of a call whose [Promise.all] was
    rejected before: nothing waits for its promise. *)
Definition orphanWakeUp (call : nat) (ans : WakeAnswers) : Js unit :=
  orphan <- gets (λ d, bool_decide (call ∈ orphans d)) ;;
  if orphan
  then modify (λ d, with_orphans (orphans d ∖ {[call]}) d) ;;;
       tryCatch (wakeUpScreen ans) (λ _, ret tt)
  else ret tt.

(** What [orphanWakeUp] leaves of the page. *)
Definition orphanRan (call : nat) (ans : WakeAnswers) (d : Device) : Device :=
  if bool_decide (call ∈ orphans d)
  then (wakeUpScreen ans (with_orphans (orphans d ∖ {[call]}) d)).2
  else d.

(** The rest of the [wakeUpScreen()] of call [call], taken in one piece. Its
    promise resolves when it returns; were it to reject while [Promise.all]
    is pending, [Promise.all] would reject at once and the [catch] of
    [forceScreenWakeUp] would report it. *)
Definition forceScreenWakeUp_afterWakeUp (call : nat) (ans : WakeAnswers)
  : Js unit :=
  pending <- gets (λ d, awaiting d !! call) ;;
  match pending with
  | Some (true, _) =>
      tryCatch (wakeUpScreen ans ;;; modify (wakeUpResolved call))
        (λ error,
           modify (λ d, with_awaiting (delete call (awaiting d)) d) ;;;
           consoleError ("Force screen wake-up failed: " +:+ error))
  | _ => orphanWakeUp call ans
  end.

(** [forceScreenWakeUp] when no timer fires before its [wakeUpScreen()] has
    returned. *)
Definition forceScreenWakeUp (a : KeepAwakeAnswer) (ans : WakeAnswers)
  : Js unit :=
  call <- forceScreenWakeUp_start a ;;
  forceScreenWakeUp_afterWakeUp call ans.

(** *** Timers *)

(** [audioContext.close()] from a timer: nothing awaits or catches it, so
    closing a context that is already closed leaves an unhandled
    rejection. *)
Definition closeFromTimer (c : positive) (w : World) : World :=
  match audioContexts w !! c with
  | Some CtxClosed => reportUnhandled "InvalidStateError" w
  | Some _ => set_audioContexts (<[c := CtxClosed]> (audioContexts w)) w
  | None => w
  end.

(** The callback of a timer. *)
Definition runTimer (t : Timer) (d : Device) : Device :=
  match t with
  | CloseNotification n =>
      with_notifications (alter (λ _, false) n (notifications d)) d
  | CloseContext c => with_devWorld (closeFromTimer c (devWorld d)) d
  | KeepAwakeOff call => resolveFor call (with_keepAwake false d)
  | FlashDim call original =>
      with_timers (timers d ++ [FlashRestore call original])
        (with_bodyFilter "brightness(0.5)" d)
  | FlashRestore call original =>
      resolveFor call (with_bodyFilter original d)
  end.

(** Removal of the first occurrence of a timer. *)
Fixpoint dropTimer (t : Timer) (l : list Timer) : list Timer :=
  match l with
  | [] => []
  | t' :: l' => if decide (t = t') then l' else t' :: dropTimer t l'
  end.

(** A pending timer fires: it leaves the list and its callback runs. A timer
    that is not pending does not fire. *)
Definition fireTimer (t : Timer) (d : Device) : Device :=
  if decide (t ∈ timers d)
  then runTimer t (with_timers (dropTimer t (timers d)) d)
  else d.

Definition fireTimers (ts : list Timer) (d : Device) : Device :=
  foldl (λ d t, fireTimer t d) d ts.

(** [c] run on [d] returns, and its result and the page it leaves
    satisfy [Q]. *)
Definition returnsWith {A} (c : Js A) (d : Device) (Q : A → Device → Prop)
  : Prop :=
  ∃ a d', c d = (Returned a, d') ∧ Q a d'.

(** However [c] ends, the page it leaves is related by [R] to the page it
    started on. *)
Definition respects {A} (R : relation Device) (c : Js A) : Prop :=
  ∀ d, R d (c d).2.

(** [c] never changes the observation [f] of the page, however it ends. *)
Definition keeps {A B} (f : Device → B) (c : Js A) : Prop :=
  respects (λ d d', f d' = f d) c.

(** Pending timers stay pending. *)
Definition timersGrow (d d' : Device) : Prop :=
  ∀ t, t ∈ timers d → t ∈ timers d'.

(** The lines the methods of [wakeUpScreen] after the first write with
    [console.log]. *)
Definition wakeLine (line : string) : Prop :=
  line = "Native wake up display not available"
  ∨ (∃ e, line = "Web notification wake-up failed: " +:+ e)
  ∨ (∃ e, line = "Audio wake-up trigger failed: " +:+ e)
  ∨ line = "All screen wake-up methods executed".

(** What the methods of [wakeUpScreen] after the first write, each related
    by [R] to the page it is written on. *)
Record writesRespected (R : relation Device) : Prop := {
  w_focus : ∀ d, R d (with_devWorld (window_focus (devWorld d)) d);
  w_log :
    ∀ line d, wakeLine line →
      R d (with_devWorld (console_log line (devWorld d)) d);
  w_alloc : ∀ d, R d (with_devWorld (allocHandle (devWorld d)).2 d);
  w_context : ∀ d, R d (newAudioContext d).2;
  w_visibility : ∀ d, R d (with_visibilityEvents (S (visibilityEvents d)) d);
  w_vibrate :
    ∀ d, R d (with_vibrations (vibrations d ++ [wakePattern]) d);
  w_notify :
    ∀ d n, R d (with_notifications (<[n := true]> (notifications d)) d);
  w_closeNotification :
    ∀ d n, R d (with_timers (timers d ++ [CloseNotification n]) d);
  w_closeContext :
    ∀ d c, R d (with_timers (timers d ++ [CloseContext c]) d)
}.

(** *** The page over time *)

(** What happens to the page: a helper is called, [forceScreenWakeUp] with
    what the executor of its second promise meets, the [wakeUpScreen()] of
    a call of [forceScreenWakeUp] runs to its end, a timer fires. *)
Inductive DeviceEvent : Type :=
| WakeUpCalled (ans : WakeAnswers)               (* wakeUpScreen() *)
| ForceCalled (a : KeepAwakeAnswer)              (* forceScreenWakeUp() *)
| WakeUpSettles (call : nat) (ans : WakeAnswers)
| TimerFires (t : Timer).

Definition deviceStep (e : DeviceEvent) (d : Device) : Device :=
  match e with
  | WakeUpCalled ans => (wakeUpScreen ans d).2
  | ForceCalled a => (forceScreenWakeUp_start a d).2
  | WakeUpSettles call ans => (forceScreenWakeUp_afterWakeUp call ans d).2
  | TimerFires t => fireTimer t d
  end.

Definition deviceRun (es : list DeviceEvent) (d : Device) : Device :=
  foldl (λ d e, deviceStep e d) d es.

(** The call a timer belongs to. *)
Definition callOf (t : Timer) : option nat :=
  match t with
  | KeepAwakeOff call | FlashDim call _ | FlashRestore call _ => Some call
  | CloseNotification _ | CloseContext _ => None
  end.

(** The pending timers of a call of [forceScreenWakeUp]. *)
Definition pendingOf (call : nat) (d : Device) : nat :=
  length (filter (λ t, callOf t = Some call) (timers d)).

(** The completion lines on the console. *)
Definition completions (d : Device) : nat :=
  length (filter (λ line, line = "Force screen wake-up completed")
                 (console (devWorld d))).

(** The reports of the [catch] of [forceScreenWakeUp] on [console.error]. *)
Definition failures (d : Device) : nat :=
  length (filter (λ line,
                    String.prefix "Force screen wake-up failed: " line = true)
                 (errors d)).

(** The error the executor of the second promise throws on a page, if
    any. *)
Definition executorThrows (a : KeepAwakeAnswer) (d : Device)
  : option string :=
  match a with
  | KeepAwakeWorks => None
  | KeepAwakeTestThrows err => Some err
  | KeepAwakeAssignThrows err =>
      if screenHasKeepAwake d then Some err else None
  end.

(** The calls of [forceScreenWakeUp] among some events. *)
Definition isForceCall (e : DeviceEvent) : bool :=
  match e with ForceCalled _ => true | _ => false end.

Definition forceCalls (es : list DeviceEvent) : nat :=
  length (filter (λ e, isForceCall e = true) es).

(** The bookkeeping of [Promise.all] agrees with the timers for a call: a
    call that is awaited was made, waits for as many promises as it has
    timers pending, and for something, and is not one whose
    [wakeUpScreen()] runs on after a rejection; a call that was not made
    yet has no timer pending and is no such call either. A call that was
    rejected may have the timers of its flash pending. *)
Definition callAccounted (d : Device) (call : nat) : Prop :=
  match awaiting d !! call with
  | Some (wake, n) =>
      n = pendingOf call d ∧ (wake = true ∨ (0 < n)%nat)
      ∧ (call < nextCall d)%nat ∧ call ∉ orphans d
  | None =>
      ((nextCall d ≤ call)%nat → pendingOf call d = 0%nat ∧ call ∉ orphans d)
  end.

Definition promisesAccounted (d : Device) : Prop :=
  ∀ call, callAccounted d call.

(** Nothing of the calls of [forceScreenWakeUp] has changed between two
    pages. *)
Definition callsUntouched (d d' : Device) : Prop :=
  awaiting d' = awaiting d ∧ nextCall d' = nextCall d
  ∧ orphans d' = orphans d
  ∧ (∀ call, pendingOf call d' = pendingOf call d)
  ∧ completions d' = completions d.

(** A relation between two states of the browser, read between two pages. *)
Definition worldRelated (Rw : relation World) : relation Device :=
  λ d d', Rw (devWorld d) (devWorld d').

(** The locks a page holds stay held. *)
Definition locksKept (w w' : World) : Prop := heldLocks w ⊆ heldLocks w'.

(** [c] keeps the property [I] of the page, however it ends. *)
Definition preserves {A} (I : Device → Prop) (c : Js A) : Prop :=
  ∀ d, I d → I (c d).2.

(** Every notification that is shown has a timer pending that closes it. *)
Definition notificationsTimed (d : Device) : Prop :=
  ∀ n, notifications d !! n = Some true → CloseNotification n ∈ timers d.

(** The timers of the brightness flash, and those that close the context of
    the silent tone. *)
Definition isFlash (t : Timer) : bool :=
  match t with FlashDim _ _ | FlashRestore _ _ => true | _ => false end.

Definition closesContext (t : Timer) : bool :=
  match t with CloseContext _ => true | _ => false end.

(** Handles are never given out twice. *)
Definition handlesGrow (w w' : World) : Prop :=
  (nextHandle w ≤ nextHandle w')%positive.

(** At most one flash is in progress, and it will restore the filter [f];
    when none is, the filter is [f]. *)
Definition flashing (f : string) (d : Device) : Prop :=
  match filter (λ t, isFlash t = true) (timers d) with
  | [] => bodyFilter d = f
  | [FlashDim _ f'] | [FlashRestore _ f'] => f' = f
  | _ => False
  end.

(** Between two pages no handle was taken back and no timer that closes a
    context was set or has fired. *)
Definition contextTimersKept (d d' : Device) : Prop :=
  handlesGrow (devWorld d) (devWorld d')
  ∧ filter (λ t, closesContext t = true) (timers d')
    = filter (λ t, closesContext t = true) (timers d).

(** ** Further scenarios *)

(** Two signals with the same trigger time are saved and nothing has fired
    yet. *)
Definition twoSaved : Machine := mount [signalEUR; signalGBP] 0 true false.

(** A phone on which every wake-up method is available, visible, with no
    filter on its body. *)
Definition phone : Device :=
  freshDevice (freshWorld true false) true true true true true "none".

(** Every platform call succeeds. *)
Definition calmAnswers : WakeAnswers :=
  mkWakeAnswers Grant None None DisplayAbsent None None ToneStarts.

(** [window.focus()] throws. *)
Definition focusFails : WakeAnswers :=
  mkWakeAnswers Grant (Some "SecurityError") None DisplayAbsent None None
    ToneStarts.

(** The oscillator of the silent tone cannot be started. *)
Definition toneBreaks : WakeAnswers :=
  mkWakeAnswers Grant None None DisplayAbsent None None
    (ToneBreaks "InvalidStateError").

(** One forced wake-up whose flash runs to its end. *)
Definition oneFlash : list DeviceEvent :=
  [TimerFires (FlashDim 0 "none"); TimerFires (FlashRestore 0 "none")].

(** A call of [forceScreenWakeUp] that runs to its completion, then one
    whose second executor throws. *)
Definition twoCalls : list DeviceEvent :=
  [ForceCalled KeepAwakeWorks; WakeUpSettles 0 calmAnswers;
   TimerFires (KeepAwakeOff 0); TimerFires (FlashDim 0 "none");
   TimerFires (FlashRestore 0 "none");
   ForceCalled (KeepAwakeTestThrows "TypeError")].

(** * Properties *)

(** ** Wake-lock utilities *)

Lemma requestWakeLock_unsupported r w :
  wakeLockSupported w = false → requestWakeLock r w = (Returned None, w).
Proof. intros Hs. unfold requestWakeLock. by rewrite Hs. Qed.

Lemma requestWakeLock_denied err w :
  wakeLockSupported w = true →
  requestWakeLock (Deny err) w
  = (Returned None, console_log ("Wake lock not supported: " +:+ err) w).
Proof. intros Hs. unfold requestWakeLock. by rewrite Hs. Qed.

Lemma requestWakeLock_granted w :
  wakeLockSupported w = true →
  requestWakeLock Grant w
  = (Returned (Some (nextHandle w)),
     console_log "Screen wake lock acquired"
       (set_heldLocks ({[nextHandle w]} ∪ heldLocks w)
          (set_nextHandle (Pos.succ (nextHandle w)) w))).
Proof. intros Hs. unfold requestWakeLock. by rewrite Hs. Qed.

(** [requestWakeLock] always returns and reports no rejection. *)
Lemma requestWakeLock_returns r w :
  ∃ lock, (requestWakeLock r w).1 = Returned lock.
Proof.
  unfold requestWakeLock.
  destruct (wakeLockSupported w); [destruct r|]; simpl; eauto.
Qed.

Lemma requestWakeLock_frame r w :
  let w' := (requestWakeLock r w).2 in
  unhandled w' = unhandled w ∧ intervals w' = intervals w
  ∧ audioElements w' = audioElements w ∧ audioContexts w' = audioContexts w
  ∧ timeouts w' = timeouts w ∧ wakeLockSupported w' = wakeLockSupported w
  ∧ documentHidden w' = documentHidden w.
Proof.
  unfold requestWakeLock.
  destruct (wakeLockSupported w) eqn:Hs; [destruct r|]; simpl; by rewrite ?Hs.
Qed.

(** C6, as the code has it. For every world and every answer of the
    platform, [requestWakeLock] returns (it never throws) and leaves no
    unhandled rejection. Without platform support it returns [null] and
    changes nothing, the console included: that case is silent. A denied
    request returns [null], holds no lock and writes one console line that
    carries the error. [releaseWakeLock(null)] changes nothing. *)
Theorem requestWakeLock_never_throws (r : LockResponse) (w : World) :
  (∃ lock, (requestWakeLock r w).1 = Returned lock)
  ∧ unhandled (requestWakeLock r w).2 = unhandled w
  ∧ (wakeLockSupported w = false → requestWakeLock r w = (Returned None, w))
  ∧ (∀ err, wakeLockSupported w = true → r = Deny err →
       (requestWakeLock r w).1 = Returned None
       ∧ heldLocks (requestWakeLock r w).2 = heldLocks w
       ∧ console (requestWakeLock r w).2
         = console w ++ ["Wake lock not supported: " +:+ err])
  ∧ releaseWakeLock None w = w.
Proof.
  split; [apply requestWakeLock_returns|].
  split; [apply (requestWakeLock_frame r w)|].
  split; [apply requestWakeLock_unsupported|].
  split; [|done].
  intros err Hs ->. by rewrite requestWakeLock_denied.
Qed.

Lemma requestWakeLock_never_throws_witness :
  requestWakeLock (Deny "NotAllowedError") (freshWorld false false)
    = (Returned None, freshWorld false false)
  ∧ console (requestWakeLock (Deny "NotAllowedError") (freshWorld true false)).2
    = ["Wake lock not supported: NotAllowedError"].
Proof.
  destruct (requestWakeLock_never_throws (Deny "NotAllowedError")
              (freshWorld false false)) as (_ & _ & Hu & _).
  destruct (requestWakeLock_never_throws (Deny "NotAllowedError")
              (freshWorld true false)) as (_ & _ & _ & Hd & _).
  split.
  - apply Hu. reflexivity.
  - destruct (Hd "NotAllowedError") as (_ & _ & Hc); [reflexivity..|].
    exact Hc.
Defined.

(** C6, as the spec words it, fails on a platform without wake-lock support:
    the acquire operation returns [null] there, but nothing is logged. *)
Lemma requestWakeLock_unsupported_not_logged :
  ¬ (∃ line, line ∈ console (requestWakeLock Grant (freshWorld false false)).2).
Proof. intros [line Hin]. simpl in Hin. by apply elem_of_nil in Hin. Qed.

(** ** The background-task effect *)

Section BackgroundTaskFacts.

Context (Keeper : Type) (start stop : Keeper → Keeper)
        (schedule : list Signal → Keeper → Keeper) (status : Keeper → bool).

Local Abbreviation effect := (backgroundEffect Keeper start stop schedule status).
Local Abbreviation cleanup := (backgroundCleanup Keeper stop status).
Local Abbreviation change := (savedSignalsChange Keeper start stop schedule status).

Lemma backgroundEffect_empty hc k : effect [] hc k = (stop k, [CallStop]).
Proof. reflexivity. Qed.

Lemma backgroundEffect_inactive s l hc k :
  status k = false →
  effect (s :: l) hc k
  = (schedule (s :: l) (start k),
     CallStart :: CallSchedule (s :: l)
       :: (if hc then [CallPostMessage] else [])).
Proof. intros Hk. unfold backgroundEffect. by rewrite Hk. Qed.

Lemma backgroundEffect_active s l hc k :
  status k = true →
  effect (s :: l) hc k
  = (schedule (s :: l) k,
     CallSchedule (s :: l) :: (if hc then [CallPostMessage] else [])).
Proof. intros Hk. unfold backgroundEffect. by rewrite Hk. Qed.

Lemma backgroundCleanup_calls old k :
  cleanup old k = (stop k, [CallStop]) ∨ cleanup old k = (k, []).
Proof.
  unfold backgroundCleanup.
  destruct (status k && bool_decide (length old = 0%nat)); auto.
Qed.

(** What one run of the effect body calls. *)
Lemma backgroundEffect_calls new hc k :
  let calls := (effect new hc k).2 in
  (CallStart ∈ calls ↔ new ≠ [] ∧ status k = false)
  ∧ (length (filter (CallStart =.) calls) ≤ 1)%nat
  ∧ (new = [] ↔ calls = [CallStop])
  ∧ (new ≠ [] ↔ CallStop ∉ calls).
Proof.
  destruct new as [|s l].
  - rewrite backgroundEffect_empty. simpl. split_and!.
    + split; [set_solver | by intros [? _]].
    + vm_compute. lia.
    + done.
    + split; [done | set_solver].
  - destruct (status k) eqn:Hk.
    + rewrite backgroundEffect_active by done. simpl. split_and!.
      * split; [destruct hc; set_solver | by intros [_ ?]].
      * destruct hc; vm_compute; lia.
      * split; [done | by destruct hc].
      * split; [destruct hc; set_solver | done].
    + rewrite backgroundEffect_inactive by done. simpl. split_and!.
      * split; [done | set_solver].
      * destruct hc; vm_compute; lia.
      * split; [done | by destruct hc].
      * split; [destruct hc; set_solver | done].
Qed.

(** C7. In every run of the effect, whatever the collaborator is:
    [startBackgroundTask] is called exactly when the list is non-empty and
    the status read reports inactive, and then once, so never when the
    status reports active; [stopBackgroundTask] is the one call made when
    the list is empty, and the effect body does not call it when the list
    is non-empty. When the list changes from [old] to [new] the same holds
    over the status left by the cleanup of the previous run. *)
Theorem backgroundEffect_start_stop
    (old new : list Signal) (hc : bool) (k : Keeper) :
  let calls := (effect new hc k).2 in
  let k1 := (cleanup old k).1 in
  (CallStart ∈ calls ↔ new ≠ [] ∧ status k = false)
  ∧ (length (filter (CallStart =.) calls) ≤ 1)%nat
  ∧ (new = [] ↔ calls = [CallStop])
  ∧ (new ≠ [] ↔ CallStop ∉ calls)
  ∧ (CallStart ∈ (change old new hc k).2 ↔ new ≠ [] ∧ status k1 = false)
  ∧ (new = [] ↔ CallStop ∈ (effect new hc k1).2).
Proof.
  intros calls k1.
  destruct (backgroundEffect_calls new hc k) as (H1 & H2 & H3 & H4).
  do 4 (split; [done|]).
  destruct (backgroundEffect_calls new hc k1) as (H1' & _ & H3' & H4').
  split.
  - rewrite <- H1'. clear. unfold savedSignalsChange. subst k1.
    destruct (backgroundCleanup_calls old k) as [Hs|Hs]; rewrite Hs;
      simpl; destruct (effect new hc _) as [k2 c2]; simpl; [|done].
    rewrite elem_of_cons. split; [by intros [?|?] | auto].
  - split.
    + intros Hn. apply H3' in Hn. rewrite Hn. apply list_elem_of_here.
    + intros Hin. destruct new; [done|]. by apply H4' in Hin.
Qed.

End BackgroundTaskFacts.

(** Scenario E over the modelled collaborator: emptying the list stops an
    active collaborator; re-adding a signal starts it once; replacing a
    non-empty list by another non-empty list does not start it again. *)
Lemma trackerChange_scenario_E (s s' : Signal) (hc : bool) :
  trackerChange [s] [] hc true = (false, [CallStop])
  ∧ trackerChange [] [s] hc false
    = (true, CallStart :: CallSchedule [s]
               :: (if hc then [CallPostMessage] else []))
  ∧ trackerChange [s] [s; s'] hc true
    = (true, CallSchedule [s; s'] :: (if hc then [CallPostMessage] else [])).
Proof. by destruct hc. Qed.

(** ** The ring manager: what each operation leaves alone *)

Section RingFacts.

Context `{Evaluator}.

(** A firing of the interval is a sequence of [triggerRing] starts. *)
Lemma tick_ind (P : Machine → Prop) t now m :
  (∀ signal m', P m' → P (triggerRing_start signal m')) →
  P m → P (tick t now m).
Proof.
  intros Hstart. unfold tick.
  destruct (intervals (world m) !! t) as [c|]; [|done].
  generalize (cl_signals c) as l. intros l. revert m.
  induction l as [|s l IH]; intros m Hm; simpl; [done|].
  apply IH. unfold pollSignal. case_match; auto.
Qed.

Lemma tick_world t now m : world (tick t now m) = world m.
Proof. by apply (tick_ind (λ m', world m' = world m)). Qed.

Lemma tick_alreadyRangIds t now m :
  alreadyRangIds (tick t now m) = alreadyRangIds m.
Proof. by apply (tick_ind (λ m', alreadyRangIds m' = alreadyRangIds m)). Qed.

Lemma tick_config t now m :
  savedSignals (tick t now m) = savedSignals m
  ∧ antidelaySeconds (tick t now m) = antidelaySeconds m
  ∧ intervalRef (tick t now m) = intervalRef m
  ∧ wakeLock (tick t now m) = wakeLock m.
Proof.
  by apply (tick_ind (λ m', savedSignals m' = savedSignals m
    ∧ antidelaySeconds m' = antidelaySeconds m
    ∧ intervalRef m' = intervalRef m ∧ wakeLock m' = wakeLock m)).
Qed.

(** The calls of [triggerRing] a firing starts are the ones for the
    signals [fired] lists, parked in order behind the pending ones. *)
Lemma tick_pending t now m :
  pending (tick t now m) = pending m ++ (AwaitWakeLock <$> fired t now m).
Proof.
  unfold tick, fired.
  destruct (intervals (world m) !! t) as [c|]; [|by rewrite app_nil_r].
  generalize (cl_signals c) as l. intros l. revert m.
  induction l as [|s l IH]; intros m; simpl; [by rewrite app_nil_r|].
  rewrite IH. unfold pollSignal.
  destruct (checkSignalTime s (cl_antidelay c) now) eqn:Hc; simpl.
  - case_bool_decide as Hin; simpl.
    + rewrite filter_cons_False by (intros [_ ?]; contradiction). done.
    + rewrite filter_cons_True by (split; assumption). simpl. by rewrite <- app_assoc.
  - rewrite filter_cons_False by (intros [? _]; congruence). done.
Qed.

(** A firing raises the ringing flag as soon as it starts a call. *)
Lemma tick_isRinging t now m :
  isRinging (tick t now m) = isRinging m || bool_decide (fired t now m ≠ []).
Proof.
  unfold tick, fired.
  destruct (intervals (world m) !! t) as [c|];
    [|by rewrite orb_false_r].
  generalize (cl_signals c) as l. intros l. revert m.
  induction l as [|s l IH]; intros m; simpl; [by rewrite orb_false_r|].
  rewrite IH. unfold pollSignal.
  destruct (checkSignalTime s (cl_antidelay c) now) eqn:Hc; simpl.
  - destruct (decide (getSignalId s ∈ cl_rang c)) as [Hin|Hin].
    + rewrite (bool_decide_true _ Hin). simpl.
      rewrite filter_cons_False by (intros [_ ?]; contradiction). done.
    + rewrite (bool_decide_false _ Hin). simpl.
      rewrite filter_cons_True by (split; assumption).
      rewrite (bool_decide_true (_ :: _ ≠ [])) by done.
      by rewrite orb_true_r.
  - rewrite filter_cons_False by (intros [? _]; congruence). done.
Qed.

(** ** The polling timer *)

Lemma intervalCleanup_clears m :
  armed m →
  let m1 := intervalCleanup m in
  intervals (world m1) = ∅
  ∧ nextHandle (world m1) = nextHandle (world m)
  ∧ heldLocks (world m1) = heldLocks (world m)
  ∧ intervalRef m1 = intervalRef m
  ∧ wakeLock m1 = wakeLock m
  ∧ alreadyRangIds m1 = alreadyRangIds m.
Proof.
  unfold armed, intervalCleanup.
  destruct (savedSignals m) as [|s l]; [done|].
  intros (t & rang & Ht & Hi & _). rewrite Ht. simpl. rewrite Hi.
  by rewrite delete_singleton_eq.
Qed.

Lemma intervalEffect_arms m :
  intervals (world m) = ∅ → armed (intervalEffect m).
Proof.
  intros Hi. unfold armed, intervalEffect.
  destruct (savedSignals m) as [|s l] eqn:Hs.
  - by rewrite Hs.
  - simpl. rewrite Hs. eexists _, _. split; [done|].
    rewrite Hi. by rewrite insert_empty.
Qed.

(** The interval the effect makes reads the current set. *)
Lemma intervalEffect_flushed m :
  intervals (world m) = ∅ → flushed (intervalEffect m).
Proof.
  intros Hi t c. unfold intervalEffect.
  destruct (savedSignals m) as [|s l] eqn:Hs.
  - by rewrite Hi, lookup_empty.
  - simpl. rewrite Hi, insert_empty.
    intros [_ <-]%lookup_singleton_Some. done.
Qed.

Lemma rerender_flushed change m :
  quiet change → armed m → flushed (rerender change m).
Proof.
  intros Hq Harm. unfold rerender.
  destruct (intervalCleanup_clears m Harm) as (Hi & _).
  destruct (Hq (intervalCleanup m)) as (Hw & _).
  apply intervalEffect_flushed. by rewrite Hw.
Qed.

Lemma intervalEffect_handles m :
  handlesBelow m → handlesBelow (intervalEffect m).
Proof.
  intros (Hr & Hh & Hl). unfold intervalEffect.
  destruct (savedSignals m) as [|s l]; [done|].
  split_and!; simpl.
  - intros t [= <-]. lia.
  - intros l' Hin. specialize (Hh _ Hin). lia.
  - intros l' Hin. specialize (Hl _ Hin). lia.
Qed.

Lemma wellFormed_rerender change m :
  quiet change → wellFormed m → wellFormed (rerender change m).
Proof.
  intros Hq [Harm (Hr & Hh & Hl)]. unfold rerender.
  destruct (intervalCleanup_clears m Harm) as (Hi & Hn & Hhl & Hir & Hwl & _).
  destruct (Hq (intervalCleanup m)) as (Hw & Hcr & Hcl).
  split.
  - apply intervalEffect_arms. by rewrite Hw.
  - apply intervalEffect_handles. split_and!.
    + intros t. rewrite Hcr, Hw, Hir, Hn. apply Hr.
    + intros l. rewrite Hw, Hhl, Hn. apply Hh.
    + intros l. rewrite Hcl, Hw, Hwl, Hn. apply Hl.
Qed.

Lemma wellFormed_mount signals antidelay supported hidden :
  wellFormed (mount signals antidelay supported hidden).
Proof.
  unfold mount. split.
  - by apply intervalEffect_arms.
  - apply intervalEffect_handles. split_and!; simpl; [done| |done].
    intros l Hin. set_solver.
Qed.

(** The two invariants only look at the list, the antidelay, the
    deduplication set, the timer box, the stored lock, the live timers,
    the held locks and the allocator. *)
Lemma wellFormed_frame m m' :
  savedSignals m' = savedSignals m →
  antidelaySeconds m' = antidelaySeconds m →
  alreadyRangIds m' = alreadyRangIds m →
  intervalRef m' = intervalRef m →
  wakeLock m' = wakeLock m →
  intervals (world m') = intervals (world m) →
  heldLocks (world m') = heldLocks (world m) →
  nextHandle (world m') = nextHandle (world m) →
  wellFormed m → wellFormed m'.
Proof.
  intros Hs Ha Hg Hr Hl Hi Hh Hn [Harm Hbel].
  unfold wellFormed, armed, handlesBelow in *.
  by rewrite Hs, Ha, Hg, Hr, Hl, Hi, Hh, Hn.
Qed.

Lemma wellFormed_tick t now m : wellFormed m → wellFormed (tick t now m).
Proof.
  destruct (tick_config t now m) as (? & ? & ? & ?).
  apply wellFormed_frame; rewrite ?tick_world, ?tick_alreadyRangIds; done.
Qed.

(** The deduplication set may grow: the live interval keeps the set it
    closed over. *)
Lemma wellFormed_grow m m' :
  savedSignals m' = savedSignals m →
  antidelaySeconds m' = antidelaySeconds m →
  alreadyRangIds m ⊆ alreadyRangIds m' →
  intervalRef m' = intervalRef m →
  intervals (world m') = intervals (world m) →
  (nextHandle (world m) ≤ nextHandle (world m'))%positive →
  (∀ l, l ∈ heldLocks (world m') → (l < nextHandle (world m'))%positive) →
  (∀ l, wakeLock m' = Some l → (l < nextHandle (world m'))%positive) →
  wellFormed m → wellFormed m'.
Proof.
  intros Hs Ha Hg Hr Hi Hn Hh Hl [Harm (Hr' & _ & _)].
  split; [|split_and!; try done].
  - unfold armed in *. rewrite Hs, Ha, Hr, Hi.
    destruct (savedSignals m); [done|].
    destruct Harm as (t & rang & Ht & Hint & Hsub).
    exists t, rang. split_and!; [done..|]. by etrans.
  - intros t. rewrite Hr. intros Ht. specialize (Hr' _ Ht). lia.
Qed.

(** *** What dismissal does to the browser *)

Lemma stopTrackedAudio_world l w :
  stopTrackedAudio l w
  = set_audioElements
      (foldl (λ els a, alter stopElement a els) (audioElements w) l) w.
Proof.
  unfold stopTrackedAudio. revert w.
  induction l as [|a l IH]; intros w; simpl; [by destruct w|].
  rewrite IH. by destruct w.
Qed.

Lemma closeTrackedContexts_world l w :
  closeTrackedContexts l w
  = set_audioContexts (foldl (λ ctxs c, closeIn c ctxs) (audioContexts w) l) w.
Proof.
  unfold closeTrackedContexts. revert w.
  induction l as [|c l IH]; intros w; simpl; [by destruct w|].
  rewrite IH. unfold closeContext, closeIn.
  destruct (audioContexts w !! c) as [[]|]; by destruct w.
Qed.

Lemma handleRingOff_ringing m :
  isRinging m = true →
  handleRingOff m
  = mkMachine (savedSignals m) (antidelaySeconds m) false None None true
      (alreadyRangIds m) (intervalRef m) [] [] (pending m) (triggeredLog m)
      (releaseWakeLock (wakeLock m) (silenced m)).
Proof. intros Hr. destruct m. simpl in Hr. by subst. Qed.

Lemma handleRingOff_idle m :
  isRinging m = false →
  handleRingOff m
  = mkMachine (savedSignals m) (antidelaySeconds m) false
      (currentRingingSignal m) (wakeLock m) true
      (alreadyRangIds m) (intervalRef m) [] [] (pending m) (triggeredLog m)
      (silenced m).
Proof. intros Hr. destruct m. simpl in Hr. by subst. Qed.

Lemma silenced_frame m :
  let w := silenced m in
  intervals w = intervals (world m) ∧ heldLocks w = heldLocks (world m)
  ∧ nextHandle w = nextHandle (world m)
  ∧ wakeLockSupported w = wakeLockSupported (world m)
  ∧ documentHidden w = documentHidden (world m)
  ∧ unhandled w = unhandled (world m)
  ∧ timeouts w = S (timeouts (world m)).
Proof.
  unfold silenced.
  by rewrite closeTrackedContexts_world, stopTrackedAudio_world.
Qed.

Lemma releaseWakeLock_frame lock w :
  let w' := releaseWakeLock lock w in
  intervals w' = intervals w ∧ nextHandle w' = nextHandle w
  ∧ heldLocks w' = heldLocks w ∖ from_option singleton ∅ lock
  ∧ audioElements w' = audioElements w ∧ audioContexts w' = audioContexts w
  ∧ wakeLockSupported w' = wakeLockSupported w
  ∧ timeouts w' = timeouts w.
Proof. destruct lock; simpl; split_and!; try done. set_solver. Qed.

Lemma wellFormed_handleRingOff m :
  wellFormed m → wellFormed (handleRingOff m).
Proof.
  intros Hwf. pose proof Hwf as [_ (Hr & Hh & Hl)].
  destruct (silenced_frame m) as (Hi & Hhl & Hn & _).
  destruct (isRinging m) eqn:Hring.
  - rewrite handleRingOff_ringing by done.
    destruct (releaseWakeLock_frame (wakeLock m) (silenced m))
      as (Hi' & Hn' & Hh' & _).
    (eapply wellFormed_grow; [..|exact Hwf]); simpl; try done.
    + by rewrite Hi', Hi.
    + rewrite Hn', Hn. lia.
    + intros l. rewrite Hn', Hn, Hh', Hhl. intros Hin. apply Hh. set_solver.
  - rewrite handleRingOff_idle by done.
    by apply (wellFormed_frame m).
Qed.

Lemma wellFormed_afterWakeLock r m :
  wellFormed m → wellFormed (triggerRing_afterWakeLock r m).2.
Proof.
  intros Hwf. pose proof Hwf as [_ (_ & Hh & Hl)].
  unfold triggerRing_afterWakeLock, requestWakeLock.
  destruct (wakeLockSupported (world m)); [destruct r as [|err]|]; simpl;
    destruct (documentHidden (world m)); simpl;
    (eapply wellFormed_grow; [..|exact Hwf]); simpl; try done; try lia;
    intros l; rewrite ?elem_of_union, ?elem_of_singleton;
    try (intros [->|Hin]; [lia|specialize (Hh _ Hin); lia]);
    try (intros [= <-]; lia).
Qed.

Lemma wellFormed_afterAudio signal r m :
  wellFormed m → wellFormed (triggerRing_afterAudio signal r m).
Proof.
  intros Hwf. pose proof Hwf as [_ (_ & Hh & Hl)].
  unfold triggerRing_afterAudio.
  destruct r as [attached| |err]; simpl.
  - (eapply wellFormed_grow; [..|exact Hwf]); simpl; try done; try lia;
      [set_solver|..];
      intros l Hin; [specialize (Hh _ Hin)|specialize (Hl _ Hin)]; lia.
  - (eapply wellFormed_grow; [..|exact Hwf]); simpl; try done; try lia;
      [set_solver|..];
      intros l Hin; [specialize (Hh _ Hin)|specialize (Hl _ Hin)]; lia.
  - by apply (wellFormed_frame m).
Qed.

Lemma wellFormed_step e m : wellFormed m → wellFormed (step e m).
Proof.
  intros Hwf.
  destruct e as [t now|i r|i r| |signals|d| | |dt|hidden| ]; simpl.
  - by apply wellFormed_tick.
  - destruct (pending m !! i) as [[signal|signal]|]; try done.
    pose proof (wellFormed_afterWakeLock r m Hwf) as Hwf'.
    destruct (triggerRing_afterWakeLock r m) as [[] m1]; simpl in Hwf';
      by apply (wellFormed_frame m1).
  - destruct (pending m !! i) as [[signal|signal]|]; try done.
    apply wellFormed_afterAudio. by apply (wellFormed_frame m).
  - by apply wellFormed_handleRingOff.
  - by apply wellFormed_rerender.
  - case_decide; [done|]. by apply wellFormed_rerender.
  - by apply wellFormed_rerender.
  - destruct (timeouts (world m)); [done|]. by apply (wellFormed_frame m).
  - by apply (wellFormed_frame m).
  - by apply (wellFormed_frame m).
  - by apply wellFormed_rerender.
Qed.

Lemma Reachable_wellFormed m : Reachable m → wellFormed m.
Proof.
  induction 1; [apply wellFormed_mount | by apply wellFormed_step].
Qed.

Lemma Reachable_run es m : Reachable m → Reachable (run es m).
Proof.
  revert m. induction es as [|e es IH]; intros m Hm; simpl; [done|].
  apply IH. by constructor.
Qed.

(** ** The deduplication set only grows *)

Lemma rerender_alreadyRangIds change m :
  alreadyRangIds (rerender change m)
  = alreadyRangIds (change (intervalCleanup m)).
Proof.
  unfold rerender, intervalEffect.
  by destruct (savedSignals (change (intervalCleanup m))).
Qed.

Lemma intervalCleanup_alreadyRangIds m :
  alreadyRangIds (intervalCleanup m) = alreadyRangIds m.
Proof.
  unfold intervalCleanup.
  destruct (savedSignals m); [done|]. by destruct (intervalRef m).
Qed.

Lemma afterWakeLock_alreadyRangIds r m :
  alreadyRangIds (triggerRing_afterWakeLock r m).2 = alreadyRangIds m.
Proof.
  unfold triggerRing_afterWakeLock.
  destruct (requestWakeLock r (world m)) as [[lock|err] w1]; simpl; [|done].
  by destruct (documentHidden w1).
Qed.

Lemma handleRingOff_alreadyRangIds m :
  alreadyRangIds (handleRingOff m) = alreadyRangIds m.
Proof. unfold handleRingOff. simpl. by destruct (isRinging m). Qed.

Lemma step_alreadyRangIds_mono e m :
  alreadyRangIds m ⊆ alreadyRangIds (step e m).
Proof.
  destruct e as [t now|i r|i r| |signals|d| | |dt|hidden| ]; simpl.
  - by rewrite tick_alreadyRangIds.
  - destruct (pending m !! i) as [[signal|signal]|]; try done.
    pose proof (afterWakeLock_alreadyRangIds r m) as Hr.
    destruct (triggerRing_afterWakeLock r m) as [[] m1]; simpl in *;
      by rewrite Hr.
  - destruct (pending m !! i) as [[signal|signal]|]; try done.
    unfold triggerRing_afterAudio.
    destruct r as [attached| |err]; simpl; [| |done]; set_solver.
  - by rewrite handleRingOff_alreadyRangIds.
  - rewrite rerender_alreadyRangIds. simpl.
    by rewrite intervalCleanup_alreadyRangIds.
  - case_decide; [done|]. rewrite rerender_alreadyRangIds. simpl.
    by rewrite intervalCleanup_alreadyRangIds.
  - by rewrite rerender_alreadyRangIds, intervalCleanup_alreadyRangIds.
  - by destruct (timeouts (world m)).
  - done.
  - done.
  - by rewrite rerender_alreadyRangIds, intervalCleanup_alreadyRangIds.
Qed.

Lemma run_alreadyRangIds_mono es m :
  alreadyRangIds m ⊆ alreadyRangIds (run es m).
Proof.
  revert m. induction es as [|e es IH]; intros m; simpl; [done|].
  etrans; [apply (step_alreadyRangIds_mono e)|apply IH].
Qed.



(** What a firing rings is decided by the live intervals alone. *)
Lemma fired_intervals t now m m' :
  intervals (world m') = intervals (world m) →
  fired t now m' = fired t now m.
Proof. intros Hi. unfold fired. by rewrite Hi. Qed.

(** An identity that every live interval knows stays known: the set only
    grows and every new interval closes over it. *)
Lemma rerender_known id change m :
  quiet change → armed m →
  id ∈ alreadyRangIds (change (intervalCleanup m)) →
  knownToTimers id (rerender change m).
Proof.
  intros Hq Harm Hid t c Hc.
  rewrite (rerender_flushed change m Hq Harm t c Hc).
  by rewrite rerender_alreadyRangIds.
Qed.

Lemma known_step id e m :
  wellFormed m → id ∈ alreadyRangIds m → knownToTimers id m →
  knownToTimers id (step e m).
Proof.
  intros [Harm _] Hid Hk.
  assert (Hsame : ∀ m', intervals (world m') = intervals (world m) →
                        knownToTimers id m').
  { intros m' Hi t c. rewrite Hi. apply Hk. }
  assert (Hre : ∀ change, quiet change →
                  alreadyRangIds (change (intervalCleanup m))
                  = alreadyRangIds m →
                  knownToTimers id (rerender change m)).
  { intros change Hq Heq. apply rerender_known; [done..|].
    by rewrite Heq. }
  destruct e as [t now|i r|i r| |signals|d| | |dt|hidden| ]; simpl.
  - apply Hsame. by rewrite tick_world.
  - destruct (pending m !! i) as [[signal|signal]|]; try done.
    apply Hsame. unfold triggerRing_afterWakeLock, requestWakeLock.
    destruct (wakeLockSupported (world m)); [destruct r as [|err]|]; simpl;
      by destruct (documentHidden (world m)).
  - destruct (pending m !! i) as [[signal|signal]|]; try done.
    apply Hsame. unfold triggerRing_afterAudio.
    by destruct r as [attached| |err].
  - apply Hsame. destruct (silenced_frame m) as (Hi & _).
    destruct (isRinging m) eqn:Hring;
      rewrite ?handleRingOff_ringing, ?handleRingOff_idle by done;
      cbn [world]; [|done].
    by destruct (releaseWakeLock_frame (wakeLock m) (silenced m))
      as (-> & _).
  - apply Hre; [done|]. simpl. apply intervalCleanup_alreadyRangIds.
  - case_decide; [done|].
    apply Hre; [done|]. simpl. apply intervalCleanup_alreadyRangIds.
  - apply Hre; [done|]. apply intervalCleanup_alreadyRangIds.
  - destruct (timeouts (world m)); [done|]. by apply Hsame.
  - by apply Hsame.
  - by apply Hsame.
  - apply Hre; [done|]. apply intervalCleanup_alreadyRangIds.
Qed.

Lemma known_run id es m :
  Reachable m → id ∈ alreadyRangIds m → knownToTimers id m →
  knownToTimers id (run es m).
Proof.
  revert m. induction es as [|e es IH]; intros m Hreach Hid Hk; [done|].
  simpl. apply IH.
  - by constructor.
  - by apply (step_alreadyRangIds_mono e).
  - apply known_step; [by apply Reachable_wellFormed|done..].
Qed.
(** ** A marked identity rings until the marks are flushed *)

(** The end of [triggerRing] leaves the live intervals as they are. *)
Lemma afterAudio_intervals signal r m :
  intervals (world (triggerRing_afterAudio signal r m))
  = intervals (world m).
Proof. unfold triggerRing_afterAudio. by destruct r. Qed.

Lemma afterAudio_marks signal r m :
  (∀ err, r ≠ PlayRaise err) →
  alreadyRangIds (triggerRing_afterAudio signal r m)
  = {[getSignalId signal]} ∪ alreadyRangIds m.
Proof.
  intros Hr. unfold triggerRing_afterAudio.
  destruct r as [attached| |err]; [done..|]. by destruct (Hr err).
Qed.

(** C2 on the code. The callback of the interval tests the deduplication
    set it closed over when the polling effect made the interval. The
    mark at the end of [triggerRing] is a queued state update: it changes
    no live interval, so after the mark a firing rings exactly the
    signals it would have rung before it, the marked one among them. The
    marked identity stops ringing only once the marks are flushed and the
    effect has run again: from then on no firing of any interval rings
    it, whatever happens in between. *)
Theorem marked_identity_rings_until_flush
    (m : Machine) (i : nat) (signal : Signal) (r : AudioResponse) :
  Reachable m →
  pending m !! i = Some (AwaitAudio signal) →
  (∀ err, r ≠ PlayRaise err) →
  let m1 := step (AudioSettles i r) m in
  getSignalId signal ∈ alreadyRangIds m1
  ∧ (∀ t now, fired t now m1 = fired t now m)
  ∧ (∀ t now, pending (step (Tick t now) m1)
             = pending m1 ++ (AwaitWakeLock <$> fired t now m))
  ∧ (∀ t now, signal ∈ fired t now m →
             AwaitWakeLock signal ∈ pending (step (Tick t now) m1))
  ∧ (∀ es t now s, s ∈ fired t now (run (MarksFlushed :: es) m1) →
                   getSignalId s ≠ getSignalId signal).
Proof.
  intros Hreach Hp Hr m1.
  assert (Hreach1 : Reachable m1) by (by constructor).
  assert (Hm1 : m1 = triggerRing_afterAudio signal r
                       (set_pending (delete i (pending m)) m)).
  { subst m1. simpl. by rewrite Hp. }
  assert (Hid : getSignalId signal ∈ alreadyRangIds m1).
  { rewrite Hm1, afterAudio_marks by done. set_solver. }
  assert (Hf : ∀ t now, fired t now m1 = fired t now m).
  { intros t now. apply fired_intervals.
    by rewrite Hm1, afterAudio_intervals. }
  split; [done|]. split; [done|]. split; [|split].
  - intros t now. simpl. by rewrite tick_pending, Hf.
  - intros t now Hin. simpl. rewrite tick_pending, Hf.
    apply elem_of_app. right. by apply list_elem_of_fmap_2.
  - intros es t now s Hs Heq.
    assert (Hk : knownToTimers (getSignalId signal)
                   (run (MarksFlushed :: es) m1)).
    { change (run (MarksFlushed :: es) m1)
        with (run es (step MarksFlushed m1)).
      apply known_run.
      - by constructor.
      - by apply (step_alreadyRangIds_mono MarksFlushed).
      - simpl. apply rerender_known; [done| |].
        + by apply Reachable_wellFormed.
        + by rewrite intervalCleanup_alreadyRangIds. }
    unfold fired in Hs.
    destruct (intervals (world (run (MarksFlushed :: es) m1)) !! t)
      as [c|] eqn:Hc; [|by apply elem_of_nil in Hs].
    apply list_elem_of_filter in Hs as [[_ Hnot] _].
    apply Hnot. rewrite Heq. by apply (Hk t c).
Qed.

(** ** The polling timer is re-armed and cancelled *)

Lemma rerender_timer change m :
  quiet change → wellFormed m →
  let m' := rerender change m in
  (∀ t, intervalRef m = Some t → intervals (world m') !! t = None)
  ∧ (savedSignals m' ≠ [] →
       intervalRef m' = Some (nextHandle (world m))
       ∧ intervalRef m' ≠ intervalRef m).
Proof.
  intros Hq [Harm (Hr & _ & _)] m'. subst m'. unfold rerender.
  destruct (intervalCleanup_clears m Harm) as (Hi & Hn & _ & Hir & _ & _).
  destruct (Hq (intervalCleanup m)) as (Hw & Hcr & _).
  unfold intervalEffect.
  destruct (savedSignals (change (intervalCleanup m))) as [|s l] eqn:Hs.
  - rewrite Hs. split; [|done]. intros t _. by rewrite Hw, Hi.
  - simpl. rewrite Hs, Hw, Hi, Hn. split.
    + intros t Ht. specialize (Hr _ Ht).
      rewrite lookup_insert_ne by lia. done.
    + intros _. split; [done|]. intros Heq. symmetry in Heq.
      specialize (Hr _ Heq). lia.
Qed.

(** The interval a re-run of the effect makes, and what it closed over. *)
Lemma rerender_closure change m :
  quiet change → armed m →
  let m' := rerender change m in
  savedSignals m' ≠ [] →
  ∃ t', intervalRef m' = Some t'
        ∧ intervals (world m')
          = {[ t' := mkClosure (savedSignals m') (antidelaySeconds m')
                        (alreadyRangIds m') ]}.
Proof.
  intros Hq Harm m'. subst m'. unfold rerender.
  destruct (intervalCleanup_clears m Harm) as (Hi & _).
  destruct (Hq (intervalCleanup m)) as (Hw & _).
  unfold intervalEffect.
  destruct (savedSignals (change (intervalCleanup m))) as [|s l] eqn:Hs;
    [by rewrite Hs|].
  simpl. rewrite Hs, Hw, Hi. intros _. eexists. split; [done|].
  by rewrite insert_empty.
Qed.

(** C8. In every state the hook can be in, the live interval timers are
    none when the signal list is empty and otherwise exactly the one timer
    the polling effect created last, whose callback closed over the
    current list and antidelay and over the deduplication set of the
    moment. When the signal list is replaced, or the antidelay is set to a
    different value, the timer that was in the box is no longer live
    afterwards, and if the new list is non-empty a timer with a new id
    is, whose callback closed over the current list, antidelay and
    deduplication set. *)
Theorem polling_timer_rearmed (m : Machine) (e : Event) :
  Reachable m →
  (∃ signals, e = SaveSignals signals)
  ∨ (∃ d, e = SetAntidelay d ∧ d ≠ antidelaySeconds m) →
  let m' := step e m in
  armed m
  ∧ (size (intervals (world m)) ≤ 1)%nat
  ∧ (savedSignals m = [] → intervals (world m) = ∅)
  ∧ (∀ t, intervalRef m = Some t → intervals (world m') !! t = None)
  ∧ armed m'
  ∧ (savedSignals m' = [] → intervals (world m') = ∅)
  ∧ (savedSignals m' ≠ [] →
       ∃ t', intervalRef m' = Some t' ∧ intervalRef m' ≠ intervalRef m
             ∧ intervals (world m')
               = {[ t' := mkClosure (savedSignals m') (antidelaySeconds m')
                             (alreadyRangIds m') ]}).
Proof.
  intros Hreach He m'.
  pose proof (Reachable_wellFormed _ Hreach) as Hwf.
  assert (Hwf' : wellFormed m') by (by apply wellFormed_step).
  assert (Hempty : ∀ x, armed x → savedSignals x = [] →
                        intervals (world x) = ∅).
  { intros x Hx Hs. unfold armed in Hx. by rewrite Hs in Hx. }
  assert (Hre : (∀ t, intervalRef m = Some t →
                      intervals (world m') !! t = None)
                ∧ (savedSignals m' ≠ [] →
                     intervalRef m' = Some (nextHandle (world m))
                     ∧ intervalRef m' ≠ intervalRef m)).
  { subst m'. destruct He as [[signals ->]|(d & -> & Hd)]; simpl.
    - by apply rerender_timer.
    - rewrite decide_False by done. by apply rerender_timer. }
  destruct Hre as [Hold Hnew].
  assert (Hclosure : savedSignals m' ≠ [] →
            ∃ t', intervalRef m' = Some t'
                  ∧ intervals (world m')
                    = {[ t' := mkClosure (savedSignals m')
                                  (antidelaySeconds m')
                                  (alreadyRangIds m') ]}).
  { subst m'. destruct He as [[signals ->]|(d & -> & Hd)]; simpl.
    - apply rerender_closure; [done|apply Hwf].
    - rewrite decide_False by done.
      apply rerender_closure; [done|apply Hwf]. }
  split; [apply Hwf|].
  split.
  { destruct Hwf as [Harm _]. unfold armed in Harm.
    destruct (savedSignals m).
    - rewrite Harm, map_size_empty. lia.
    - destruct Harm as (t & rang & _ & -> & _).
      rewrite map_size_singleton. lia. }
  split; [apply Hempty, Hwf|].
  split; [exact Hold|].
  split; [apply Hwf'|].
  split; [apply Hempty, Hwf'|].
  intros Hs. destruct (Hnew Hs) as [Href Hne].
  destruct (Hclosure Hs) as (t' & Ht' & Hi'). exists t'. by rewrite Hi'.
Qed.

(** ** Changing the antidelay *)


(** ** Dismissal *)

Lemma stopElement_idemp e : stopElement (stopElement e) = stopElement e.
Proof. done. Qed.

Lemma stop_fold_lookup l (els : gmap positive AudioElement) a :
  foldl (λ els a, alter stopElement a els) els l !! a
  = if decide (a ∈ l) then stopElement <$> els !! a else els !! a.
Proof.
  revert els. induction l as [|x l IH]; intros els; simpl.
  - done.
  - rewrite IH. destruct (decide (a = x)) as [->|Hne].
    + rewrite lookup_alter_eq.
      rewrite (decide_True (P := x ∈ x :: l)) by apply list_elem_of_here.
      case_decide; [|done].
      destruct (els !! x); simpl; [|done]. by rewrite stopElement_idemp.
    + rewrite lookup_alter_ne by done.
      destruct (decide (a ∈ l)) as [Hin|Hin].
      * rewrite decide_True; [done|]. by apply list_elem_of_further.
      * rewrite decide_False; [done|].
        intros [?|?]%elem_of_cons; contradiction.
Qed.

Lemma closeIn_lookup x (ctxs : gmap positive ContextState) c :
  closeIn x ctxs !! c
  = if decide (c = x) then (λ _, CtxClosed) <$> ctxs !! c else ctxs !! c.
Proof.
  unfold closeIn. destruct (decide (c = x)) as [->|Hne].
  - destruct (ctxs !! x) as [[]|] eqn:Hx; simpl;
      rewrite ?lookup_insert_eq, ?Hx; done.
  - destruct (ctxs !! x) as [[]|] eqn:Hx; simpl;
      rewrite ?lookup_insert_ne; done.
Qed.

Lemma close_fold_lookup l (ctxs : gmap positive ContextState) c :
  foldl (λ ctxs c, closeIn c ctxs) ctxs l !! c
  = if decide (c ∈ l) then (λ _, CtxClosed) <$> ctxs !! c else ctxs !! c.
Proof.
  revert ctxs. induction l as [|x l IH]; intros ctxs; simpl.
  - done.
  - rewrite IH, closeIn_lookup. destruct (decide (c = x)) as [->|Hne].
    + rewrite (decide_True (P := x ∈ x :: l)) by apply list_elem_of_here.
      case_decide; [|done]. by destruct (ctxs !! x).
    + destruct (decide (c ∈ l)) as [Hin|Hin].
      * rewrite decide_True; [done|]. by apply list_elem_of_further.
      * rewrite decide_False; [done|].
        intros [?|?]%elem_of_cons; contradiction.
Qed.

(** Every tracked element is paused and rewound, every tracked context is
    closed. *)
Lemma silenced_tracked m :
  (∀ a, a ∈ audioInstancesRef m →
        audioElements (silenced m) !! a
        = stopElement <$> audioElements (world m) !! a)
  ∧ (∀ c, c ∈ audioContextsRef m →
          audioContexts (silenced m) !! c
          = (λ _, CtxClosed) <$> audioContexts (world m) !! c).
Proof.
  unfold silenced.
  rewrite closeTrackedContexts_world, stopTrackedAudio_world. simpl.
  split.
  - intros a Ha. rewrite lookup_fmap, stop_fold_lookup.
    rewrite decide_True by done.
    destruct (audioElements (world m) !! a) as [e|]; simpl; [|done].
    by destruct (inDocument e).
  - intros c Hc. rewrite close_fold_lookup. by rewrite decide_True.
Qed.

Lemma sweepDocumentAudio_idemp w :
  sweepDocumentAudio (sweepDocumentAudio w) = sweepDocumentAudio w.
Proof.
  unfold sweepDocumentAudio, set_audioElements. simpl. f_equal.
  rewrite <- map_fmap_compose. apply map_fmap_ext.
  intros a e _. simpl. destruct (inDocument e) eqn:He; simpl; by rewrite He.
Qed.

Lemma silenced_swept m :
  sweepDocumentAudio (silenced m) = silenced m.
Proof. apply sweepDocumentAudio_idemp. Qed.

(** A second dismissal right after a first one only arms one more 200 ms
    timer. *)
Lemma handleRingOff_twice m :
  handleRingOff (handleRingOff m)
  = set_world (setTimeout (world (handleRingOff m))) (handleRingOff m).
Proof.
  destruct (isRinging m) eqn:Hring.
  - rewrite (handleRingOff_ringing m) by done.
    rewrite handleRingOff_idle by done.
    unfold silenced at 1. simpl. unfold set_world. simpl. f_equal.
    unfold stopTrackedAudio, closeTrackedContexts. simpl.
    rewrite <- (silenced_swept m) at 2.
    by destruct (wakeLock m).
  - rewrite (handleRingOff_idle m) by done.
    rewrite handleRingOff_idle by done.
    unfold silenced at 1. simpl. unfold set_world. simpl. f_equal.
    unfold stopTrackedAudio, closeTrackedContexts. simpl.
    by rewrite <- (silenced_swept m) at 2.
Qed.

(** What dismissal does to the ringing flag and to the locks. *)
Lemma handleRingOff_locks m :
  let m' := handleRingOff m in
  isRinging m' = false
  ∧ (if isRinging m
     then wakeLock m' = None
          ∧ heldLocks (world m')
            = heldLocks (world m) ∖ from_option singleton ∅ (wakeLock m)
     else wakeLock m' = wakeLock m
          ∧ heldLocks (world m') = heldLocks (world m)).
Proof.
  destruct (silenced_frame m) as (_ & Hh & _).
  destruct (isRinging m) eqn:Hring;
    rewrite ?handleRingOff_ringing, ?handleRingOff_idle by done;
    cbn [isRinging wakeLock world]; [|done].
  destruct (releaseWakeLock_frame (wakeLock m) (silenced m))
    as (_ & _ & Hh' & _).
  by rewrite Hh', Hh.
Qed.

(** C3, as the code has it. After [handleRingOff], in whatever state it is
    called: both tracked collections are empty, every element that was
    tracked is paused and rewound, every context that was tracked is
    closed, and the ringing flag is down. If the ringing flag was up, the
    stored wake lock has been released and the cell is [null]; if it was
    down, the guard skips that part: the cell and the held locks are left
    as they were. A second dismissal in a row changes nothing but arming
    one more 200 ms timer. *)
Theorem handleRingOff_clears (m : Machine) :
  let m' := handleRingOff m in
  audioInstancesRef m' = [] ∧ audioContextsRef m' = []
  ∧ (∀ a, a ∈ audioInstancesRef m →
          audioElements (world m') !! a
          = stopElement <$> audioElements (world m) !! a)
  ∧ (∀ c, c ∈ audioContextsRef m →
          audioContexts (world m') !! c
          = (λ _, CtxClosed) <$> audioContexts (world m) !! c)
  ∧ isRinging m' = false
  ∧ (if isRinging m
     then wakeLock m' = None
          ∧ heldLocks (world m')
            = heldLocks (world m) ∖ from_option singleton ∅ (wakeLock m)
     else wakeLock m' = wakeLock m
          ∧ heldLocks (world m') = heldLocks (world m))
  ∧ handleRingOff m' = set_world (setTimeout (world m')) m'.
Proof.
  intros m'. subst m'.
  destruct (silenced_tracked m) as [Hel Hctx].
  destruct (handleRingOff_locks m) as [Hflag Hlocks].
  split_and!; try done; try apply handleRingOff_twice;
    destruct (isRinging m) eqn:Hring;
    rewrite ?handleRingOff_ringing, ?handleRingOff_idle by done;
    cbn [audioInstancesRef audioContextsRef world]; try done;
    destruct (releaseWakeLock_frame (wakeLock m) (silenced m))
      as (_ & _ & _ & He' & Hc' & _).
  - intros a Ha. rewrite He'. by apply Hel.
  - intros c Hc. rewrite Hc'. by apply Hctx.
Qed.

(** ** A wake lock that arrives late *)

Lemma handleRingOff_pending m : pending (handleRingOff m) = pending m.
Proof. unfold handleRingOff. simpl. by destruct (isRinging m). Qed.

Lemma handleRingOff_world_frame m :
  wakeLockSupported (world (handleRingOff m)) = wakeLockSupported (world m)
  ∧ nextHandle (world (handleRingOff m)) = nextHandle (world m)
  ∧ heldLocks (world (handleRingOff m)) ⊆ heldLocks (world m).
Proof.
  destruct (silenced_frame m) as (_ & Hh & Hn & Hs & _).
  destruct (isRinging m) eqn:Hring;
    rewrite ?handleRingOff_ringing, ?handleRingOff_idle by done;
    cbn [world].
  - destruct (releaseWakeLock_frame (wakeLock m) (silenced m))
      as (_ & Hn' & Hh' & _ & _ & Hs' & _).
    split_and!; [congruence..|]. rewrite Hh', Hh. set_solver.
  - by rewrite Hs, Hn, Hh.
Qed.

(** The completion of the wake-lock request does not read the ringing
    flag. *)
Lemma afterWakeLock_ignores_flag r b m :
  triggerRing_afterWakeLock r (setIsRinging b m)
  = (let '(c, x) := triggerRing_afterWakeLock r m in (c, setIsRinging b x)).
Proof.
  unfold triggerRing_afterWakeLock. simpl.
  destruct (requestWakeLock r (world m)) as [[lock|err] w1]; simpl; [|done].
  by destruct (documentHidden w1).
Qed.

Lemma afterWakeLock_granted m :
  wakeLockSupported (world m) = true →
  let m1 := (triggerRing_afterWakeLock Grant m).2 in
  (triggerRing_afterWakeLock Grant m).1 = true
  ∧ wakeLock m1 = Some (nextHandle (world m))
  ∧ heldLocks (world m1) = {[nextHandle (world m)]} ∪ heldLocks (world m)
  ∧ nextHandle (world m1) = Pos.succ (nextHandle (world m))
  ∧ isRinging m1 = isRinging m
  ∧ pending m1 = pending m.
Proof.
  intros Hs. unfold triggerRing_afterWakeLock.
  rewrite requestWakeLock_granted by done. simpl.
  by destruct (documentHidden (world m)).
Qed.

(** ** Reservations the hook loses track of *)

Lemma rerender_locks change m :
  quiet change →
  let m' := rerender change m in
  (nextHandle (world m) ≤ nextHandle (world m'))%positive
  ∧ heldLocks (world m') = heldLocks (world m)
  ∧ wakeLock m' = wakeLock m.
Proof.
  intros Hq. unfold rerender.
  destruct (Hq (intervalCleanup m)) as (Hw & _ & Hl).
  assert (Hc : nextHandle (world (intervalCleanup m)) = nextHandle (world m)
               ∧ heldLocks (world (intervalCleanup m)) = heldLocks (world m)
               ∧ wakeLock (intervalCleanup m) = wakeLock m).
  { unfold intervalCleanup. destruct (savedSignals m); [done|].
    by destruct (intervalRef m). }
  destruct Hc as (Hcn & Hch & Hcl).
  unfold intervalEffect.
  destruct (savedSignals (change (intervalCleanup m))); simpl;
    rewrite ?Hw, ?Hl, ?Hcn, ?Hch, ?Hcl; split_and!; try done; lia.
Qed.

Lemma quiet_markRang id : quiet (markRang id).
Proof. done. Qed.

Lemma afterAudio_locks signal r m :
  let m' := triggerRing_afterAudio signal r m in
  (nextHandle (world m) ≤ nextHandle (world m'))%positive
  ∧ heldLocks (world m') = heldLocks (world m)
  ∧ wakeLock m' = wakeLock m.
Proof.
  unfold triggerRing_afterAudio.
  destruct r as [attached| |err]; simpl; split_and!; try done; lia.
Qed.

(** What one event can do to the locks: the allocator only moves forward,
    a held lock other than the stored one stays held, and a lock that gets
    stored is either the one stored before or a new one. *)
Lemma step_locks e m :
  (nextHandle (world m) ≤ nextHandle (world (step e m)))%positive
  ∧ (∀ l, l ∈ heldLocks (world m) → wakeLock m ≠ Some l →
          l ∈ heldLocks (world (step e m)))
  ∧ (∀ l, wakeLock (step e m) = Some l →
          wakeLock m = Some l ∨ (nextHandle (world m) ≤ l)%positive).
Proof.
  destruct e as [t now|i r|i r| |signals|d| | |dt|hidden| ]; simpl.
  - destruct (tick_config t now m) as (_ & _ & _ & Hl).
    rewrite tick_world, Hl. split_and!; auto. lia.
  - destruct (pending m !! i) as [[signal|signal]|];
      try (split_and!; auto; lia).
    unfold triggerRing_afterWakeLock, requestWakeLock.
    destruct (wakeLockSupported (world m)); [destruct r as [|err]|]; simpl;
      destruct (documentHidden (world m)); simpl;
      split_and!; auto; try lia; try set_solver;
      intros l [= <-]; right; lia.
  - destruct (pending m !! i) as [[signal|signal]|];
      try (split_and!; auto; lia).
    destruct (afterAudio_locks signal r (set_pending (delete i (pending m)) m))
      as (Hn & Hh & Hl).
    cbn [world wakeLock set_pending] in Hn, Hh, Hl.
    rewrite Hh, Hl. split_and!; auto.
  - destruct (silenced_frame m) as (_ & Hh & Hn & _).
    destruct (isRinging m) eqn:Hring;
      rewrite ?handleRingOff_ringing, ?handleRingOff_idle by done;
      cbn [world wakeLock].
    + destruct (releaseWakeLock_frame (wakeLock m) (silenced m))
        as (_ & Hn' & Hh' & _).
      rewrite Hn', Hh', Hn, Hh. split_and!; [lia| |done].
      intros l Hin Hne. destruct (wakeLock m); simpl; set_solver.
    + rewrite Hn, Hh. split_and!; auto. lia.
  - destruct (rerender_locks (set_savedSignals signals) m)
      as (Hn & Hh & Hl); [done|].
    simpl in *. rewrite Hh, Hl. split_and!; auto.
  - case_decide; [split_and!; auto; lia|].
    destruct (rerender_locks (set_antidelaySeconds d) m)
      as (Hn & Hh & Hl); [done|].
    simpl in *. rewrite Hh, Hl. split_and!; auto.
  - destruct (rerender_locks (λ m, m) m) as (Hn & Hh & Hl); [done|].
    simpl in *. rewrite Hh, Hl. split_and!; auto.
  - destruct (timeouts (world m)); simpl; split_and!; auto; lia.
  - split_and!; auto; lia.
  - split_and!; auto; lia.
  - destruct (rerender_locks (λ m, m) m) as (Hn & Hh & Hl); [done|].
    simpl in *. rewrite Hh, Hl. split_and!; auto.
Qed.

(** While the ringing flag is down no event releases a lock: dismissal
    is the only operation that releases, and it does so behind the
    flag. *)
Lemma step_idle_locks e m :
  isRinging m = false →
  heldLocks (world m) ⊆ heldLocks (world (step e m)).
Proof.
  intros Hidle.
  destruct e as [t now|i r|i r| |signals|d| | |dt|hidden| ]; simpl.
  - by rewrite tick_world.
  - destruct (pending m !! i) as [[signal|signal]|]; try done.
    unfold triggerRing_afterWakeLock, requestWakeLock.
    destruct (wakeLockSupported (world m)); [destruct r as [|err]|]; simpl;
      destruct (documentHidden (world m)); simpl; set_solver.
  - destruct (pending m !! i) as [[signal|signal]|]; try done.
    destruct (afterAudio_locks signal r (set_pending (delete i (pending m)) m))
      as (_ & Hh & _).
    cbn [world set_pending] in Hh. by rewrite Hh.
  - destruct (handleRingOff_locks m) as (_ & Hl).
    rewrite Hidle in Hl. destruct Hl as [_ Hh]. by rewrite Hh.
  - by destruct (rerender_locks (set_savedSignals signals) m)
      as (_ & -> & _).
  - case_decide; [done|].
    by destruct (rerender_locks (set_antidelaySeconds d) m) as (_ & -> & _).
  - by destruct (rerender_locks (λ m, m) m) as (_ & -> & _).
  - by destruct (timeouts (world m)).
  - done.
  - done.
  - by destruct (rerender_locks (λ m, m) m) as (_ & -> & _).
Qed.

Lemma staysIdle_locks es m :
  staysIdle es m → heldLocks (world m) ⊆ heldLocks (world (run es m)).
Proof.
  revert m. induction es as [|e es IH]; intros m; simpl; [done|].
  intros [Hidle Hrest]. etrans; [by apply (step_idle_locks e)|by apply IH].
Qed.

(** C4, as the code has it. When the dismiss button is pressed while a
    call of [triggerRing] is suspended at the wake-lock request, and the
    platform then grants the request, the completion stores the new
    reservation although the ringing flag is down, and the reservation
    stays held: whatever happens afterwards, further dismissals
    included, it is held for as long as the ringing flag stays down. The
    completion behaves the same whatever the flag is. Only the dismiss
    handler reads the flag. *)
Theorem late_wakeLock_is_stored (m : Machine) (i : nat) (signal : Signal) :
  pending m !! i = Some (AwaitWakeLock signal) →
  wakeLockSupported (world m) = true →
  let m1 := handleRingOff m in
  let m2 := step (WakeLockSettles i Grant) m1 in
  isRinging m1 = false
  ∧ isRinging m2 = false
  ∧ wakeLock m2 = Some (nextHandle (world m))
  ∧ nextHandle (world m) ∈ heldLocks (world m2)
  ∧ (∀ r b x, triggerRing_afterWakeLock r (setIsRinging b x)
              = (let '(c, y) := triggerRing_afterWakeLock r x in
                 (c, setIsRinging b y)))
  ∧ (∀ es, staysIdle es m2 →
           nextHandle (world m) ∈ heldLocks (world (run es m2)))
  ∧ wakeLock (handleRingOff m2) = Some (nextHandle (world m)).
Proof.
  intros Hp Hs m1 m2.
  destruct (handleRingOff_locks m) as (Hring & _).
  destruct (handleRingOff_world_frame m) as (Hs1 & Hn1 & _).
  fold m1 in Hring, Hs1, Hn1.
  assert (Hp1 : pending m1 !! i = Some (AwaitWakeLock signal))
    by (subst m1; by rewrite handleRingOff_pending).
  rewrite Hs in Hs1.
  destruct (afterWakeLock_granted m1 Hs1) as (Hc & Hw & Hh & _ & Hr & _).
  assert (Hm2 : isRinging m2 = false
                ∧ wakeLock m2 = Some (nextHandle (world m))
                ∧ nextHandle (world m) ∈ heldLocks (world m2)).
  { subst m2. simpl. rewrite Hp1.
    destruct (triggerRing_afterWakeLock Grant m1) as [c x]. simpl in *.
    subst c. simpl. rewrite Hw, Hh, Hr, Hn1.
    split_and!; try done. set_solver. }
  clearbody m2. destruct Hm2 as (Hr2 & Hw2 & Hh2).
  split_and!; try done.
  - intros. apply afterWakeLock_ignores_flag.
  - intros es Hidle. by apply (staysIdle_locks es m2).
  - destruct (handleRingOff_locks m2) as (_ & Hl).
    rewrite Hr2 in Hl. destruct Hl as [-> _]. done.
Qed.

Lemma leaked_step l e m : leaked l m → leaked l (step e m).
Proof.
  intros (Hin & Hne & Hlt).
  destruct (step_locks e m) as (Hn & Hh & Hl).
  split_and!.
  - by apply Hh.
  - intros Hs. destruct (Hl _ Hs) as [?|?]; [done|lia].
  - lia.
Qed.

Lemma leaked_run l es m : leaked l m → leaked l (run es m).
Proof.
  revert m. induction es as [|e es IH]; intros m Hm; simpl; [done|].
  by apply IH, leaked_step.
Qed.

(** C10. When a call of [triggerRing] completes its wake-lock request
    while the machine is ringing and a reservation [l1] is already stored
    and held, the new reservation replaces [l1] in the cell and [l1] stays
    held. The next dismissal releases only the reservation stored last,
    and after it no sequence of events releases [l1]. *)
Theorem second_wakeLock_overwrites
    (m : Machine) (i : nat) (signal : Signal) (l1 : positive) :
  Reachable m →
  isRinging m = true →
  wakeLock m = Some l1 →
  l1 ∈ heldLocks (world m) →
  pending m !! i = Some (AwaitWakeLock signal) →
  wakeLockSupported (world m) = true →
  let m1 := step (WakeLockSettles i Grant) m in
  let m2 := handleRingOff m1 in
  ∃ l2, l2 ≠ l1
    ∧ wakeLock m1 = Some l2
    ∧ heldLocks (world m1) = {[l2]} ∪ heldLocks (world m)
    ∧ wakeLock m2 = None
    ∧ heldLocks (world m2) = heldLocks (world m1) ∖ {[l2]}
    ∧ ∀ es, l1 ∈ heldLocks (world (run es m2)).
Proof.
  intros Hreach Hring Hl1 Hheld Hp Hs m1 m2.
  destruct (Reachable_wellFormed _ Hreach) as [_ (_ & _ & Hbelow)].
  specialize (Hbelow _ Hl1).
  destruct (afterWakeLock_granted m Hs) as (Hc & Hw & Hh & Hn & Hr & _).
  assert (Hm1 : wakeLock m1 = Some (nextHandle (world m))
                ∧ heldLocks (world m1)
                  = {[nextHandle (world m)]} ∪ heldLocks (world m)
                ∧ nextHandle (world m1) = Pos.succ (nextHandle (world m))
                ∧ isRinging m1 = true).
  { subst m1. simpl. rewrite Hp.
    destruct (triggerRing_afterWakeLock Grant m) as [c x]. simpl in *.
    subst c. simpl. by rewrite Hw, Hh, Hn, Hr. }
  destruct Hm1 as (Hw1 & Hh1 & Hn1 & Hr1).
  destruct (handleRingOff_locks m1) as (_ & Hlock).
  fold m2 in Hlock. rewrite Hr1, Hw1 in Hlock. simpl in Hlock.
  destruct Hlock as [Hw2 Hh2].
  exists (nextHandle (world m)). split_and!; try done.
  - lia.
  - intros es. apply (leaked_run l1 es m2).
    destruct (handleRingOff_world_frame m1) as (_ & Hn2 & _).
    fold m2 in Hn2. split_and!.
    + rewrite Hh2, Hh1. apply elem_of_difference. split; [set_solver|].
      rewrite elem_of_singleton. lia.
    + by rewrite Hw2.
    + rewrite Hn2, Hn1. lia.
Qed.

(** ** When the identity is marked *)

Lemma mount_timer signals antidelay supported hidden s l :
  signals = s :: l →
  intervals (world (mount signals antidelay supported hidden))
  = {[ 1%positive := mkClosure signals antidelay ∅ ]}.
Proof. intros ->. unfold mount. simpl. by rewrite insert_empty. Qed.

(** C1 on the code. Neither a firing of the interval nor the completion
    of the wake-lock request changes the deduplication set: the identity
    is marked only at the end of [triggerRing], behind both [await]s. So
    with one saved signal that the evaluator accepts at two firings, the
    first firing raises the ringing flag and parks the call at the
    wake-lock request with the set still empty, and the second firing
    starts [triggerRing] for the same signal again. *)
Theorem mark_waits_for_both_awaits
    (signal : Signal) (d now1 now2 : Z) (supported hidden : bool) :
  checkSignalTime signal d now1 = true →
  checkSignalTime signal d now2 = true →
  let m0 := mount [signal] d supported hidden in
  let m1 := step (Tick 1 now1) m0 in
  let m2 := step (Tick 1 now2) m1 in
  isRinging m1 = true
  ∧ pending m1 = [AwaitWakeLock signal]
  ∧ alreadyRangIds m1 = ∅
  ∧ pending m2 = [AwaitWakeLock signal; AwaitWakeLock signal]
  ∧ ∀ m t now i r,
      alreadyRangIds (step (Tick t now) m) = alreadyRangIds m
      ∧ alreadyRangIds (step (WakeLockSettles i r) m) = alreadyRangIds m.
Proof.
  intros H1 H2 m0 m1 m2.
  assert (Hf : ∀ now m, world m = world m0 →
                 checkSignalTime signal d now = true →
                 fired 1 now m = [signal]).
  { intros now m Hw Hc. unfold fired. rewrite Hw. subst m0.
    rewrite (mount_timer _ _ _ _ signal []) by done.
    rewrite lookup_singleton_eq. simpl.
    rewrite filter_cons_True; [done|]. split; [done|]. set_solver. }
  assert (Hw1 : world m1 = world m0) by apply tick_world.
  split_and!.
  - subst m1. simpl. rewrite tick_isRinging, (Hf now1) by done. done.
  - subst m1. simpl. by rewrite tick_pending, (Hf now1).
  - subst m1. simpl. by rewrite tick_alreadyRangIds.
  - subst m2. simpl. rewrite tick_pending, (Hf now2) by done.
    subst m1. simpl. by rewrite tick_pending, (Hf now1).
  - intros m t now i r. split; [apply tick_alreadyRangIds|].
    simpl. destruct (pending m !! i) as [[s|s]|]; try done.
    pose proof (afterWakeLock_alreadyRangIds r m) as Hr.
    by destruct (triggerRing_afterWakeLock r m) as [[] x].
Qed.

(** C5 on the code. When the audio start raises, [triggerRing] ends at
    that [await]: the ringing flag stays as it is, but the identity is not
    marked, the collaborator is not told, nothing is written to the
    console, and the error is left as an unhandled rejection. *)
Theorem audio_raise_skips_the_mark
    (m : Machine) (i : nat) (signal : Signal) (err : string) :
  pending m !! i = Some (AwaitAudio signal) →
  let m' := step (AudioSettles i (PlayRaise err)) m in
  isRinging m' = isRinging m
  ∧ alreadyRangIds m' = alreadyRangIds m
  ∧ triggeredLog m' = triggeredLog m
  ∧ console (world m') = console (world m)
  ∧ unhandled (world m') = unhandled (world m) ++ [err]
  ∧ pending m' = delete i (pending m).
Proof. intros Hp. simpl. by rewrite Hp. Qed.

(** The other half of C5: a failed wake-lock request (denied, or no
    platform support) does not stop the entry. Once the audio start
    returns, the identity is marked and the collaborator told; the flag is
    untouched, no lock is stored and nothing is thrown. *)
Lemma wakeLock_failure_still_marks m i signal r a :
  pending m !! i = Some (AwaitWakeLock signal) →
  (wakeLockSupported (world m) = false ∨ ∃ err, r = Deny err) →
  (∀ err, a ≠ PlayRaise err) →
  let m1 := step (WakeLockSettles i r) m in
  let m2 := step (AudioSettles i a) m1 in
  isRinging m2 = isRinging m
  ∧ wakeLock m2 = None
  ∧ getSignalId signal ∈ alreadyRangIds m2
  ∧ triggeredLog m2 = triggeredLog m ++ [signal]
  ∧ unhandled (world m2) = unhandled (world m).
Proof.
  intros Hp Hfail Ha m1 m2.
  assert (Hm1 : pending m1 !! i = Some (AwaitAudio signal)
                ∧ isRinging m1 = isRinging m ∧ wakeLock m1 = None
                ∧ triggeredLog m1 = triggeredLog m
                ∧ unhandled (world m1) = unhandled (world m)).
  { assert (Hi : (i < length (pending m))%nat)
      by (apply lookup_lt_is_Some; eauto).
    subst m1. simpl. rewrite Hp. unfold triggerRing_afterWakeLock.
    destruct Hfail as [Hs|[err ->]].
    - rewrite requestWakeLock_unsupported by done. simpl.
      destruct (documentHidden (world m)); simpl;
        by rewrite list_lookup_insert_eq.
    - unfold requestWakeLock.
      destruct (wakeLockSupported (world m)); simpl;
        destruct (documentHidden (world m)); simpl;
        by rewrite list_lookup_insert_eq. }
  clearbody m1. destruct Hm1 as (Hp1 & Hr1 & Hw1 & Ht1 & Hu1).
  subst m2. simpl. rewrite Hp1. unfold triggerRing_afterAudio.
  destruct a as [attached| |err]; [| |by destruct (Ha err)]; simpl;
    rewrite Hr1, Hw1, Ht1, Hu1; split_and!; try done; set_solver.
Qed.

(** ** One firing of the interval, in full *)

Lemma fired_armed t now m :
  wellFormed m → intervalRef m = Some t → savedSignals m ≠ [] →
  fired t now m = eligible now m.
Proof.
  intros [Harm _] Ht Hs. unfold fired, eligible, closedOver, armed in *.
  destruct (savedSignals m) as [|s l] eqn:Hl; [done|].
  destruct Harm as (t' & rang & Ht' & Hi & _).
  rewrite Ht in Ht'. injection Ht' as <-.
  rewrite Ht. simpl. by rewrite Hi, lookup_singleton_eq.
Qed.

Lemma tick_currentRingingSignal t now m :
  currentRingingSignal (tick t now m)
  = from_option Some (currentRingingSignal m) (last (fired t now m)).
Proof.
  unfold tick, fired.
  destruct (intervals (world m) !! t) as [c|]; [|done].
  generalize (cl_signals c) as l. intros l. revert m.
  induction l as [|s l IH]; intros m; simpl; [done|].
  rewrite IH. unfold pollSignal.
  destruct (checkSignalTime s (cl_antidelay c) now) eqn:Hc; simpl.
  - destruct (decide (getSignalId s ∈ cl_rang c)) as [Hin|Hin].
    + rewrite (bool_decide_true _ Hin). simpl.
      rewrite filter_cons_False by (intros [_ ?]; contradiction). done.
    + rewrite (bool_decide_false _ Hin). simpl.
      rewrite filter_cons_True by (split; assumption).
      destruct (filter _ l) as [|s' l'] eqn:Hf; [done|].
      rewrite last_cons_cons.
      destruct (last (s' :: l')) eqn:Hlast; [done|].
      by apply last_None in Hlast.
  - rewrite filter_cons_False by (intros [? _]; congruence). done.
Qed.

Lemma flushed_closedOver (m : Machine) :
  flushed m → closedOver m = alreadyRangIds m.
Proof.
  intros Hfl. unfold closedOver.
  destruct (intervalRef m) as [t|]; simpl; [|done].
  destruct (intervals (world m) !! t) as [c|] eqn:Hc; [|done].
  by apply (Hfl t).
Qed.

(** X1. One firing of an interval starts [triggerRing] for every signal of
    the list its callback closed over that the evaluator accepts, with the
    antidelay it closed over, and whose identity is not in the set it
    closed over, once per list entry and in list order: signals that are
    eligible together ring together, none suppresses another, and two
    entries with one identity both ring. What the cells of the hook hold
    at the firing plays no part: a mark that is still queued suppresses
    nothing. The firing of a cleared interval does nothing. *)
Theorem firing_rings_every_eligible_signal
    (m : Machine) (t : positive) (now : Z) :
  pending (step (Tick t now) m)
  = pending m ++ (AwaitWakeLock <$> fired t now m)
  ∧ (∀ c, intervals (world m) !! t = Some c →
          fired t now m
          = filter (λ signal,
                      checkSignalTime signal (cl_antidelay c) now = true
                      ∧ getSignalId signal ∉ cl_rang c)
                   (cl_signals c))
  ∧ (intervals (world m) !! t = None → step (Tick t now) m = m).
Proof.
  split_and!.
  - simpl. apply tick_pending.
  - intros c Hc. unfold fired. by rewrite Hc.
  - intros Hc. simpl. unfold tick. by rewrite Hc.
Qed.

(** X27. In a state the hook can be in, the timer in the box rings the
    saved signals that the evaluator accepts at the current antidelay and
    whose identity is not in the set its callback closed over; once the
    marks are flushed, that set is the deduplication set of the hook. *)
Theorem box_timer_rings_the_saved_signals
    (m : Machine) (t : positive) (now : Z) :
  Reachable m →
  intervalRef m = Some t →
  savedSignals m ≠ [] →
  pending (step (Tick t now) m)
  = pending m ++ (AwaitWakeLock <$> eligible now m)
  ∧ (flushed m →
     eligible now m
     = filter (λ signal,
                 checkSignalTime signal (antidelaySeconds m) now = true
                 ∧ getSignalId signal ∉ alreadyRangIds m)
              (savedSignals m)).
Proof.
  intros Hreach Ht Hs. split.
  - simpl. rewrite tick_pending.
    by rewrite fired_armed by (try apply Reachable_wellFormed; done).
  - intros Hfl. unfold eligible. by rewrite flushed_closedOver.
Qed.

(** X2. A firing that rings at least one signal raises the ringing flag
    and displays the last signal it rang; a firing that rings none leaves
    the flag and the displayed signal as they were. *)
Theorem firing_displays_last_signal
    (m : Machine) (t : positive) (now : Z) :
  Reachable m →
  intervalRef m = Some t →
  savedSignals m ≠ [] →
  let m' := step (Tick t now) m in
  isRinging m' = isRinging m || bool_decide (eligible now m ≠ [])
  ∧ currentRingingSignal m'
    = from_option Some (currentRingingSignal m) (last (eligible now m)).
Proof.
  intros Hreach Ht Hs. simpl.
  rewrite tick_isRinging, tick_currentRingingSignal.
  by rewrite fired_armed by (try apply Reachable_wellFormed; done).
Qed.

(** ** Invariants that do not look at the timers *)

Lemma sansTimers_intervalEffect m :
  sansTimers (intervalEffect m) = sansTimers m.
Proof. unfold intervalEffect. by destruct (savedSignals m). Qed.

Lemma sansTimers_intervalCleanup m :
  sansTimers (intervalCleanup m) = sansTimers m.
Proof.
  unfold intervalCleanup. destruct (savedSignals m); [done|].
  by destruct (intervalRef m).
Qed.

(** A property that reads neither the timers nor the allocator is kept by
    the re-run of the polling effect. *)
Lemma blind_rerender (I : Machine → Prop) change m :
  (∀ x, I x ↔ I (sansTimers x)) →
  (∀ x, sansTimers (change x) = change (sansTimers x)) →
  I (change m) → I (rerender change m).
Proof.
  intros Hblind Hcomm Hm. unfold rerender.
  apply (proj2 (Hblind _)). rewrite sansTimers_intervalEffect, Hcomm.
  rewrite sansTimers_intervalCleanup, <- Hcomm.
  by apply (proj1 (Hblind (change m))).
Qed.

Lemma blind_step (I : Machine → Prop) :
  (∀ x, I x ↔ I (sansTimers x)) →
  (∀ signal m, I m → I (triggerRing_start signal m)) →
  (∀ i r signal m, I m → pending m !! i = Some (AwaitWakeLock signal) →
     I (step (WakeLockSettles i r) m)) →
  (∀ i signal err m, I m → pending m !! i = Some (AwaitAudio signal) →
     I (step (AudioSettles i (PlayRaise err)) m)) →
  (∀ i signal r m (w1 : World) contexts audio,
     I m → pending m !! i = Some (AwaitAudio signal) →
     playCustomRingtone r (audioContextsRef m) (world m)
     = (Returned audio, contexts, w1) →
     I (markRang (getSignalId signal)
          (onSignalTriggered signal
             (from_option
                (λ a x, set_audioInstancesRef (audioInstancesRef x ++ [a]) x)
                (λ x, x) audio
                (set_audioContextsRef contexts
                   (set_world w1 (set_pending (delete i (pending m)) m))))))) →
  (∀ m, I m → I (handleRingOff m)) →
  (∀ signals m, I m → I (set_savedSignals signals m)) →
  (∀ d m, I m → I (set_antidelaySeconds d m)) →
  (∀ e m, match e with
          | PressedTimeout | Elapse _ | Visibility _ => I m → I (step e m)
          | _ => True
          end) →
  ∀ e m, I m → I (step e m).
Proof.
  intros Hblind Hstart Hlock Hraise Haudio Hoff Hsave Hdelay Hrest e m Hm.
  destruct e as [t now|i r|i r| |signals|d| | |dt|hidden| ].
  - simpl. by apply tick_ind.
  - destruct (pending m !! i) as [[signal|signal]|] eqn:Hp;
      [by eapply Hlock| |]; simpl; by rewrite Hp.
  - destruct (pending m !! i) as [[signal|signal]|] eqn:Hp;
      [| |]; try (simpl; by rewrite Hp).
    destruct r as [attached| |err]; [| |by eapply Hraise].
    + simpl. rewrite Hp. unfold triggerRing_afterAudio.
      destruct (playCustomRingtone (PlayElement attached) _ _)
        as [[[audio|err] contexts] w1] eqn:Hplay; [|done].
      specialize (Haudio i signal (PlayElement attached) m w1 contexts audio
                    Hm Hp Hplay).
      by destruct audio.
    + simpl. rewrite Hp. unfold triggerRing_afterAudio.
      destruct (playCustomRingtone PlayTone _ _)
        as [[[audio|err] contexts] w1] eqn:Hplay; [|done].
      specialize (Haudio i signal PlayTone m w1 contexts audio
                    Hm Hp Hplay).
      by destruct audio.
  - by apply Hoff.
  - simpl. apply blind_rerender; [done..|]. by apply Hsave.
  - simpl. case_decide; [done|].
    apply blind_rerender; [done..|]. by apply Hdelay.
  - simpl. by apply blind_rerender.
  - by apply (Hrest PressedTimeout).
  - by apply (Hrest (Elapse dt)).
  - by apply (Hrest (Visibility hidden)).
  - simpl. by apply blind_rerender.
Qed.

Lemma blind_reachable (I : Machine → Prop) :
  (∀ x, I x ↔ I (sansTimers x)) →
  (∀ signals antidelay supported hidden,
     I (mkMachine signals antidelay false None None false ∅ None [] [] [] []
          (freshWorld supported hidden))) →
  (∀ e m, I m → I (step e m)) →
  ∀ m, Reachable m → I m.
Proof.
  intros Hblind Hinit Hstep m Hreach.
  induction Hreach as [signals antidelay supported hidden|e m _ IH];
    [|by apply Hstep].
  unfold mount. apply (proj2 (Hblind _)).
  rewrite sansTimers_intervalEffect. apply (proj1 (Hblind _)), Hinit.
Qed.

(** The completion of the wake-lock request, field by field. *)
Lemma step_wakeLockSettles_fields i r signal m :
  pending m !! i = Some (AwaitWakeLock signal) →
  let m' := step (WakeLockSettles i r) m in
  isRinging m' = isRinging m
  ∧ currentRingingSignal m' = currentRingingSignal m
  ∧ ringOffButtonPressed m' = ringOffButtonPressed m
  ∧ alreadyRangIds m' = alreadyRangIds m
  ∧ triggeredLog m' = triggeredLog m
  ∧ audioInstancesRef m' = audioInstancesRef m
  ∧ audioContextsRef m' = audioContextsRef m
  ∧ timeouts (world m') = timeouts (world m)
  ∧ audioElements (world m') = audioElements (world m)
  ∧ audioContexts (world m') = audioContexts (world m).
Proof.
  intros Hp. simpl. rewrite Hp.
  unfold triggerRing_afterWakeLock, requestWakeLock.
  destruct (wakeLockSupported (world m)); [destruct r as [|err]|]; simpl;
    by destruct (documentHidden (world m)).
Qed.

(** X4. In every state the hook can be in, the ringing flag is up exactly
    when a ringing signal is displayed. *)
Theorem ringing_flag_matches_displayed_signal (m : Machine) :
  Reachable m →
  isRinging m = true ↔ is_Some (currentRingingSignal m).
Proof.
  revert m.
  apply (blind_reachable
           (λ m, isRinging m = true ↔ is_Some (currentRingingSignal m))).
  - done.
  - intros. simpl. split; [done|]. by intros [? ?].
  - apply blind_step; [done| | | | | |done|done|].
    + intros signal m _. simpl. split; eauto.
    + intros i r signal m Hm Hp.
      destruct (step_wakeLockSettles_fields i r signal m Hp)
        as (-> & -> & _). done.
    + intros i signal err m Hm Hp. simpl. by rewrite Hp.
    + intros i signal r m w1 contexts audio Hm _ _. by destruct audio.
    + intros m Hm. destruct (isRinging m) eqn:Hring.
      * rewrite handleRingOff_ringing by done. simpl.
        split; [done|]. by intros [? ?].
      * rewrite handleRingOff_idle by done. simpl.
        split; [done|]. intros Hs. by apply Hm in Hs.
    + intros [] m; try done; simpl; try done.
      by destruct (timeouts (world m)).
Qed.

(** X5. In every state the hook can be in, the marked identities are
    exactly the identities of the signals reported through
    [onSignalTriggered]: every mark comes with its report. *)
Theorem marks_match_reports (m : Machine) :
  Reachable m →
  alreadyRangIds m = list_to_set (getSignalId <$> triggeredLog m).
Proof.
  revert m.
  apply (blind_reachable
           (λ m, alreadyRangIds m
                 = list_to_set (getSignalId <$> triggeredLog m))).
  - done.
  - done.
  - apply blind_step; [done|done| | | | |done|done|].
    + intros i r signal m Hm Hp.
      destruct (step_wakeLockSettles_fields i r signal m Hp)
        as (_ & _ & _ & -> & -> & _). done.
    + intros i signal err m Hm Hp. simpl. by rewrite Hp.
    + intros i signal r m w1 contexts audio Hm _ _.
      assert (Hgoal : {[getSignalId signal]} ∪ alreadyRangIds m
                      = list_to_set (getSignalId <$> triggeredLog m ++ [signal])).
      { rewrite fmap_app, list_to_set_app_L, Hm. simpl. set_solver. }
      by destruct audio.
    + intros m Hm. destruct (isRinging m) eqn:Hring;
        by rewrite ?handleRingOff_ringing, ?handleRingOff_idle by done.
    + intros [] m; try done; simpl; try done.
      by destruct (timeouts (world m)).
Qed.

(** X6. In every state the hook can be in, while the pressed flag of the
    dismiss button is up a 200 ms timer is pending, and when a pending
    timer fires the flag goes down: the flag is never stuck. *)
Theorem pressed_flag_is_never_stuck (m : Machine) :
  Reachable m →
  (ringOffButtonPressed m = true → (0 < timeouts (world m))%nat)
  ∧ ((0 < timeouts (world m))%nat →
     ringOffButtonPressed (step PressedTimeout m) = false).
Proof.
  intros Hreach. split.
  - revert m Hreach.
    apply (blind_reachable
             (λ m, ringOffButtonPressed m = true →
                   (0 < timeouts (world m))%nat)).
    + done.
    + done.
    + apply (blind_step
               (λ m, ringOffButtonPressed m = true →
                     (0 < timeouts (world m))%nat));
        [done|done| | | | |done|done|].
      * intros i r signal m Hm Hp.
        destruct (step_wakeLockSettles_fields i r signal m Hp)
          as (_ & _ & -> & _ & _ & _ & _ & -> & _). done.
      * intros i signal err m Hm Hp. simpl. by rewrite Hp.
      * intros i signal r m w1 contexts audio Hm _ Hplay.
        assert (Ht : timeouts w1 = timeouts (world m)).
        { destruct r; simpl in Hplay; by injection Hplay as _ _ <-. }
        rewrite <- Ht in Hm. by destruct audio.
      * intros m _ _. destruct (silenced_frame m) as (_ & _ & _ & _ & _ & _ & Ht).
        destruct (isRinging m) eqn:Hring;
          rewrite ?handleRingOff_ringing, ?handleRingOff_idle by done;
          cbn [world].
        -- destruct (releaseWakeLock_frame (wakeLock m) (silenced m))
             as (_ & _ & _ & _ & _ & _ & ->). lia.
        -- lia.
      * intros [] m; try done; simpl; try done.
        destruct (timeouts (world m)) eqn:Ht; simpl; rewrite ?Ht; done.
  - simpl. destruct (timeouts (world m)); [lia|done].
Qed.

(** ** Silence after dismissal *)

Lemma silenced_audioElements m a :
  audioElements (silenced m) !! a
  = (λ e, if inDocument e then stopElement e else e)
      <$> (if decide (a ∈ audioInstancesRef m)
           then stopElement <$> audioElements (world m) !! a
           else audioElements (world m) !! a).
Proof.
  unfold silenced.
  rewrite closeTrackedContexts_world, stopTrackedAudio_world. simpl.
  by rewrite lookup_fmap, stop_fold_lookup.
Qed.

Lemma silenced_audioContexts m c :
  audioContexts (silenced m) !! c
  = if decide (c ∈ audioContextsRef m)
    then (λ _, CtxClosed) <$> audioContexts (world m) !! c
    else audioContexts (world m) !! c.
Proof.
  unfold silenced.
  rewrite closeTrackedContexts_world, stopTrackedAudio_world. simpl.
  by rewrite close_fold_lookup.
Qed.

Lemma handleRingOff_audio m :
  audioElements (world (handleRingOff m)) = audioElements (silenced m)
  ∧ audioContexts (world (handleRingOff m)) = audioContexts (silenced m)
  ∧ audioInstancesRef (handleRingOff m) = []
  ∧ audioContextsRef (handleRingOff m) = [].
Proof.
  destruct (isRinging m) eqn:Hring;
    rewrite ?handleRingOff_ringing, ?handleRingOff_idle by done;
    cbn [world audioInstancesRef audioContextsRef]; [|done].
  by destruct (releaseWakeLock_frame (wakeLock m) (silenced m))
    as (_ & _ & _ & -> & -> & _).
Qed.

Lemma silenced_stops m a e e' :
  audioAccounted m →
  audioElements (world m) !! a = Some e →
  audioElements (silenced m) !! a = Some e' →
  (paused e = false → e' = stopElement e) ∧ paused e' = true.
Proof.
  intros [Hel _] He. rewrite silenced_audioElements, He.
  case_decide as Hin; simpl.
  - intros [= <-]. by destruct (inDocument e).
  - destruct (inDocument e) eqn:Hdoc; intros [= <-]; [done|].
    destruct (paused e) eqn:Hp; [done|].
    destruct (Hel a e He Hp) as [?|?]; [done|congruence].
Qed.

Lemma dismissal_silences_core m :
  audioAccounted m →
  (∀ a e', audioElements (world (handleRingOff m)) !! a = Some e' →
           paused e' = true)
  ∧ (∀ c st, audioContexts (world (handleRingOff m)) !! c = Some st →
             st = CtxClosed).
Proof.
  intros Hacc. pose proof Hacc as [_ Hctx].
  destruct (handleRingOff_audio m) as (-> & -> & _).
  split.
  - intros a e' He'.
    destruct (audioElements (world m) !! a) as [e|] eqn:He.
    + by apply (silenced_stops m a e e').
    + rewrite silenced_audioElements, He in He'. by case_decide.
  - intros c st. rewrite silenced_audioContexts.
    case_decide as Hin.
    + destruct (audioContexts (world m) !! c); simpl; by intros [= <-].
    + intros Hc. destruct st; [| |done];
        destruct Hin; by apply (Hctx c _ Hc).
Qed.

(** X7. If every playing element is tracked or attached to the document
    and every context that is not closed is tracked, then right after
    [handleRingOff] every audio element of the page is paused, the ones
    that were playing are rewound, and every audio context is closed. *)
Theorem dismissal_silences_the_page (m : Machine) :
  audioAccounted m →
  let m' := handleRingOff m in
  (∀ a e', audioElements (world m') !! a = Some e' → paused e' = true)
  ∧ (∀ a e e', audioElements (world m) !! a = Some e → paused e = false →
               audioElements (world m') !! a = Some e' →
               currentTime e' = 0%N)
  ∧ (∀ c st, audioContexts (world m') !! c = Some st → st = CtxClosed).
Proof.
  intros Hacc m'. subst m'.
  destruct (dismissal_silences_core m Hacc) as [Hp Hc].
  split; [exact Hp|]. split; [|exact Hc].
  intros a e e' He Hpl He'.
  destruct (handleRingOff_audio m) as (Heq & _). rewrite Heq in He'.
  destruct (silenced_stops m a e e' Hacc He He') as [Hs _].
  by rewrite (Hs Hpl).
Qed.

(** Sounds started through [triggerRing] are always within reach of the
    dismiss button. *)
Lemma Reachable_audioAccounted m : Reachable m → audioAccounted m.
Proof.
  revert m. apply (blind_reachable audioAccounted).
  - done.
  - intros. split; intros ? ?; simpl; by rewrite lookup_empty.
  - apply (blind_step audioAccounted); [done|done| | | | |done|done|].
    + intros i r signal m Hm Hp. unfold audioAccounted.
      destruct (step_wakeLockSettles_fields i r signal m Hp)
        as (_ & _ & _ & _ & _ & -> & -> & _ & -> & ->). done.
    + intros i signal err m Hm Hp. simpl. by rewrite Hp.
    + intros i signal r m w1 contexts audio [Hel Hctx] _ Hplay.
      destruct r as [attached| |err]; simpl in Hplay; [| |done].
      * injection Hplay as <- <- <-. split; simpl.
        -- intros a e. destruct (decide (a = nextHandle (world m))) as [->|Hne].
           ++ intros _ _. left. set_solver.
           ++ rewrite lookup_insert_ne by done. intros He Hp.
              destruct (Hel a e He Hp); [left; set_solver|by right].
        -- done.
      * injection Hplay as <- <- <-. split; simpl.
        -- done.
        -- intros c st. destruct (decide (c = nextHandle (world m))) as [->|Hne].
           ++ intros _ _. set_solver.
           ++ rewrite lookup_insert_ne by done. intros Hc Hst.
              specialize (Hctx c st Hc Hst). set_solver.
    + intros m Hm.
      destruct (dismissal_silences_core m Hm) as (Hp & Hc).
      destruct (handleRingOff_audio m) as (_ & _ & Hi & Hx).
      split.
      * intros a e He Hpl. rewrite (Hp a e He) in Hpl. done.
      * intros c st Hst Hne. by destruct Hne; apply (Hc c st Hst).
    + intros [] m; try done; simpl; try done.
      * destruct (timeouts (world m)); done.
      * intros [Hel Hctx]. split; simpl; [|done].
        intros a e'. rewrite lookup_fmap.
        destruct (audioElements (world m) !! a) as [e|] eqn:He; [|done].
        simpl. destruct (paused e) eqn:Hp; intros [= <-]; simpl;
          [congruence|]. intros _. by apply (Hel a e).
Qed.

(** ** Calls of [triggerRing] that outlive a dismissal *)

(** What the end of [triggerRing] does when the audio start returns a
    media element. *)
Lemma afterAudio_element signal attached m :
  let m' := triggerRing_afterAudio signal (PlayElement attached) m in
  let a := nextHandle (world m) in
  isRinging m' = isRinging m
  ∧ audioInstancesRef m' = audioInstancesRef m ++ [a]
  ∧ audioElements (world m')
    = <[a := mkAudio false 0%N attached]> (audioElements (world m))
  ∧ alreadyRangIds m' = {[getSignalId signal]} ∪ alreadyRangIds m
  ∧ triggeredLog m' = triggeredLog m ++ [signal].
Proof. done. Qed.

Lemma step_audioSettles_eq i r signal m :
  pending m !! i = Some (AwaitAudio signal) →
  step (AudioSettles i r) m
  = triggerRing_afterAudio signal r (set_pending (delete i (pending m)) m).
Proof. intros Hp. simpl. by rewrite Hp. Qed.

Lemma late_audio_plays m1 i signal attached :
  pending m1 !! i = Some (AwaitAudio signal) →
  isRinging m1 = false →
  audioInstancesRef m1 = [] →
  let m2 := step (AudioSettles i (PlayElement attached)) m1 in
  let a := nextHandle (world m1) in
  isRinging m2 = false
  ∧ audioInstancesRef m2 = [a]
  ∧ audioElements (world m2) !! a = Some (mkAudio false 0%N attached)
  ∧ getSignalId signal ∈ alreadyRangIds m2
  ∧ audioElements (world (handleRingOff m2)) !! a
    = Some (mkAudio true 0%N attached).
Proof.
  intros Hp Hring Hinst. cbv zeta.
  rewrite (step_audioSettles_eq i _ signal m1 Hp).
  set (x := set_pending (delete i (pending m1)) m1).
  assert (Hx : isRinging x = false ∧ audioInstancesRef x = []
               ∧ world x = world m1) by done.
  clearbody x. destruct Hx as (Hrx & Hix & Hwx). rewrite <- Hwx.
  pose proof (afterAudio_element signal attached x) as Hel.
  cbv zeta in Hel. destruct Hel as (Hr2 & Hi2 & He2 & Ha2 & _).
  set (m2 := triggerRing_afterAudio signal (PlayElement attached) x) in *.
  clearbody m2. rewrite Hix in Hi2. rewrite Hrx in Hr2.
  assert (Hlook : audioElements (world m2) !! nextHandle (world x)
                  = Some (mkAudio false 0%N attached))
    by (rewrite He2; apply lookup_insert_eq).
  split_and!; try done.
  - rewrite Ha2. by apply elem_of_union_l, elem_of_singleton.
  - destruct (silenced_tracked m2) as [Htr _].
    destruct (handleRingOff_audio m2) as (-> & _).
    rewrite (Htr (nextHandle (world x)))
      by (rewrite Hi2; apply list_elem_of_here).
    by rewrite Hlook.
Qed.

(** X8. Dismissal does not cancel a call of [triggerRing] that is
    waiting for its audio start. When the audio start returns a media
    element afterwards, the element plays and is tracked although the
    ringing flag is down, and the identity is marked; the next dismissal
    pauses and rewinds it. *)
Theorem audio_started_after_dismissal_plays
    (m : Machine) (i : nat) (signal : Signal) (attached : bool) :
  pending m !! i = Some (AwaitAudio signal) →
  let m1 := handleRingOff m in
  let m2 := step (AudioSettles i (PlayElement attached)) m1 in
  let a := nextHandle (world m) in
  isRinging m2 = false
  ∧ audioInstancesRef m2 = [a]
  ∧ audioElements (world m2) !! a = Some (mkAudio false 0%N attached)
  ∧ getSignalId signal ∈ alreadyRangIds m2
  ∧ audioElements (world (handleRingOff m2)) !! a
    = Some (mkAudio true 0%N attached).
Proof.
  intros Hp. cbv zeta.
  destruct (handleRingOff_locks m) as [Hring _].
  destruct (handleRingOff_audio m) as (_ & _ & Hinst & _).
  destruct (handleRingOff_world_frame m) as (_ & Hn & _).
  rewrite <- Hn.
  apply (late_audio_plays (handleRingOff m) i signal attached);
    [by rewrite handleRingOff_pending|done..].
Qed.

(** ** One ring cycle and its wake lock *)






(** ** Identities *)

Lemma hasDash_head c s : hasDash (String c s) = false → c ≠ "-"%char.
Proof.
  simpl. destruct (Ascii.eqb c "-") eqn:Hc; [done|].
  intros _. by apply Ascii.eqb_neq.
Qed.

Lemma hasDash_tail c s : hasDash (String c s) = false → hasDash s = false.
Proof. simpl. by destruct (Ascii.eqb c "-"). Qed.

(** A dash-free prefix is determined by the string it is followed by a
    dash in. *)
Lemma append_dash_inj a a' r r' :
  hasDash a = false → hasDash a' = false →
  a +:+ "-" +:+ r = a' +:+ "-" +:+ r' → a = a' ∧ r = r'.
Proof.
  revert a'. induction a as [|c a IH]; intros [|c' a'] Ha Ha' Heq;
    simpl in Heq.
  - by simplify_eq.
  - injection Heq as Hc _. subst c'. by destruct (hasDash_head _ a' Ha').
  - injection Heq as Hc _. subst c. by destruct (hasDash_head _ a Ha).
  - injection Heq as Hc Hrest. subst c'.
    destruct (IH a' (hasDash_tail _ _ Ha) (hasDash_tail _ _ Ha') Hrest)
      as [-> ->]. done.
Qed.

(** X10. Two signals whose asset and direction contain no dash have the
    same identity only if they are the same signal: distinct alarms are
    never merged by the deduplication key. *)
Theorem getSignalId_inj (s1 s2 : Signal) :
  hasDash (asset s1) = false → hasDash (direction s1) = false →
  hasDash (asset s2) = false → hasDash (direction s2) = false →
  getSignalId s1 = getSignalId s2 → s1 = s2.
Proof.
  intros Ha1 Hd1 Ha2 Hd2 Heq. unfold getSignalId in Heq.
  destruct (append_dash_inj _ _ _ _ Ha1 Ha2 Heq) as [Ha Hrest].
  destruct (append_dash_inj _ _ _ _ Hd1 Hd2 Hrest) as [Hd Hts].
  apply (inj pretty) in Hts.
  destruct s1, s2. simpl in *. by subst.
Qed.

End RingFacts.

(** * The scenarios, evaluated *)

(** A decidable fact about closed terms, by running its decision. *)
Ltac by_evaluation := apply (bool_decide_unpack _); vm_compute; exact I.

Lemma mark_waits_for_both_awaits_witness :
  @checkSignalTime specEvaluator signalEUR 0 instantT = true
  ∧ @checkSignalTime specEvaluator signalEUR 0 (instantT + 999) = true
  ∧ pending (@step specEvaluator (Tick 1 (instantT + 999))
               (@step specEvaluator (Tick 1 instantT)
                  (mount [signalEUR] 0 true false)))
    = [AwaitWakeLock signalEUR; AwaitWakeLock signalEUR].
Proof.
  assert (H1 : @checkSignalTime specEvaluator signalEUR 0 instantT = true)
    by (vm_compute; reflexivity).
  assert (H2 : @checkSignalTime specEvaluator signalEUR 0 (instantT + 999)
               = true) by (vm_compute; reflexivity).
  pose proof (@mark_waits_for_both_awaits specEvaluator signalEUR 0 instantT
                (instantT + 999) true false H1 H2) as Hthm.
  cbv zeta in Hthm. destruct Hthm as (_ & _ & _ & Hp & _).
  split; [exact H1|]. split; [exact H2|]. exact Hp.
Defined.

Lemma marked_identity_rings_until_flush_witness :
  pending granted !! 0%nat = Some (AwaitAudio signalEUR)
  ∧ signalEUR ∈ @fired specEvaluator 1 (instantT + 500) granted
  ∧ getSignalId signalEUR
    ∈ alreadyRangIds
        (@step specEvaluator (AudioSettles 0 (PlayElement false)) granted)
  ∧ AwaitWakeLock signalEUR
    ∈ pending
        (@step specEvaluator (Tick 1 (instantT + 500))
           (@step specEvaluator (AudioSettles 0 (PlayElement false))
              granted)).
Proof.
  assert (Hreach : @Reachable specEvaluator granted)
    by apply Reachable_run, Reachable_mount.
  assert (Hp : pending granted !! 0%nat = Some (AwaitAudio signalEUR))
    by (vm_compute; reflexivity).
  assert (Hr : ∀ err, PlayElement false ≠ PlayRaise err)
    by (intros err; discriminate).
  assert (Hf : signalEUR ∈ @fired specEvaluator 1 (instantT + 500) granted)
    by by_evaluation.
  pose proof (@marked_identity_rings_until_flush specEvaluator granted 0%nat
                signalEUR (PlayElement false) Hreach Hp Hr) as Hthm.
  cbv zeta in Hthm. destruct Hthm as (Hid & _ & _ & Hagain & _).
  split; [exact Hp|]. split; [exact Hf|]. split; [exact Hid|].
  exact (Hagain 1%positive (instantT + 500) Hf).
Defined.

(** The scenario in full: after the call of [triggerRing] has run to its end
    the identity is marked, the evaluator still accepts the signal half a
    second later, and the interval of the mount, which is still live, rings
    it again; once the marks are flushed no interval does. *)
Lemma rungOnce_rings_again :
  shouldFire signalEUR 0 (instantT + 500) = true
  ∧ elements (alreadyRangIds rungOnce) = [getSignalId signalEUR]
  ∧ @fired specEvaluator 1 (instantT + 500) rungOnce = [signalEUR]
  ∧ intervalRef (@step specEvaluator MarksFlushed rungOnce) = Some 4%positive
  ∧ @fired specEvaluator 4 (instantT + 500)
      (@step specEvaluator MarksFlushed rungOnce) = [].
Proof. split_and!; vm_compute; reflexivity. Qed.

(** C3, as the spec words it, fails in a state the hook reaches: the
    dismiss button is pressed while the wake-lock request is in flight and
    the request is granted afterwards. The ringing flag is down there, so a
    dismissal skips the release: the cell still holds the reservation and the
    page still holds the lock. *)
Lemma dismiss_keeps_wakeLock_when_idle :
  ¬ (wakeLock (handleRingOff lateGrant) = None)
  ∧ ¬ (heldLocks (world (handleRingOff lateGrant)) = ∅).
Proof.
  split.
  - vm_compute. discriminate.
  - intros He.
    assert (Hin : 2%positive ∈ heldLocks (world (handleRingOff lateGrant)))
      by by_evaluation.
    rewrite He in Hin. by apply not_elem_of_empty in Hin.
Qed.

(** C4, as the spec words it, fails: the reservation granted after the
    dismissal is not released. The ringing flag is down and the lock is
    held. *)
Lemma late_wakeLock_not_released :
  isRinging lateGrant = false
  ∧ wakeLock lateGrant = Some 2%positive
  ∧ ¬ (2%positive ∉ heldLocks (world lateGrant)).
Proof.
  split; [vm_compute; reflexivity|]. split; [vm_compute; reflexivity|].
  intros Hn. apply Hn. by_evaluation.
Qed.

Lemma late_wakeLock_is_stored_witness :
  pending ringing !! 0%nat = Some (AwaitWakeLock signalEUR)
  ∧ wakeLockSupported (world ringing) = true
  ∧ isRinging (@step specEvaluator (WakeLockSettles 0 Grant)
                 (handleRingOff ringing)) = false
  ∧ wakeLock (@step specEvaluator (WakeLockSettles 0 Grant)
                (handleRingOff ringing))
    = Some (nextHandle (world ringing)).
Proof.
  assert (Hp : pending ringing !! 0%nat = Some (AwaitWakeLock signalEUR))
    by (vm_compute; reflexivity).
  assert (Hs : wakeLockSupported (world ringing) = true)
    by (vm_compute; reflexivity).
  pose proof (@late_wakeLock_is_stored specEvaluator ringing 0%nat signalEUR
                Hp Hs) as Hthm.
  cbv zeta in Hthm. destruct Hthm as (_ & Hr & Hw & _).
  split; [exact Hp|]. split; [exact Hs|]. split; [exact Hr | exact Hw].
Defined.

Lemma audio_raise_skips_the_mark_witness :
  pending granted !! 0%nat = Some (AwaitAudio signalEUR)
  ∧ alreadyRangIds
      (@step specEvaluator (AudioSettles 0 (PlayRaise "NotSupportedError"))
         granted)
    = alreadyRangIds granted
  ∧ unhandled
      (world (@step specEvaluator
                (AudioSettles 0 (PlayRaise "NotSupportedError")) granted))
    = unhandled (world granted) ++ ["NotSupportedError"].
Proof.
  assert (Hp : pending granted !! 0%nat = Some (AwaitAudio signalEUR))
    by (vm_compute; reflexivity).
  pose proof (@audio_raise_skips_the_mark specEvaluator granted 0%nat
                signalEUR "NotSupportedError" Hp) as Hthm.
  cbv zeta in Hthm. destruct Hthm as (_ & Ha & _ & _ & Hu & _).
  split; [exact Hp|]. split; [exact Ha | exact Hu].
Defined.

(** After the raise the ringing flag is up, the deduplication set is still
    empty and the evaluator still accepts the signal: the next firing rings
    it again. *)
Lemma audio_raise_rings_again :
  let m := @step specEvaluator
             (AudioSettles 0 (PlayRaise "NotSupportedError")) granted in
  isRinging m = true
  ∧ elements (alreadyRangIds m) = []
  ∧ @fired specEvaluator 1 (instantT + 999) m = [signalEUR].
Proof. split_and!; vm_compute; reflexivity. Qed.

Lemma polling_timer_rearmed_witness :
  @Reachable specEvaluator (mount [signalEUR] 0 true false)
  ∧ intervals (world (@step specEvaluator (SaveSignals [])
                        (mount [signalEUR] 0 true false))) = ∅
  ∧ intervals (world (@step specEvaluator (SaveSignals [])
                        (mount [signalEUR] 0 true false))) !! 1%positive
    = None.
Proof.
  assert (Hreach : @Reachable specEvaluator (mount [signalEUR] 0 true false))
    by apply Reachable_mount.
  pose proof (@polling_timer_rearmed specEvaluator
                (mount [signalEUR] 0 true false) (SaveSignals []) Hreach
                (or_introl (ex_intro _ [] eq_refl))) as Hthm.
  cbv zeta in Hthm. destruct Hthm as (_ & _ & _ & Hold & _ & Hempty & _).
  split; [exact Hreach|]. split.
  - apply Hempty. vm_compute. reflexivity.
  - apply Hold. vm_compute. reflexivity.
Defined.


Lemma second_wakeLock_overwrites_witness :
  isRinging twoTriggers = true
  ∧ wakeLock twoTriggers = Some 2%positive
  ∧ pending twoTriggers !! 1%nat = Some (AwaitWakeLock signalGBP)
  ∧ ∃ l2, l2 ≠ 2%positive
      ∧ wakeLock (@step specEvaluator (WakeLockSettles 1 Grant) twoTriggers)
        = Some l2
      ∧ ∀ es, 2%positive
              ∈ heldLocks
                  (world (@run specEvaluator es
                            (handleRingOff
                               (@step specEvaluator (WakeLockSettles 1 Grant)
                                  twoTriggers)))).
Proof.
  assert (Hreach : @Reachable specEvaluator twoTriggers)
    by apply Reachable_run, Reachable_mount.
  assert (Hr : isRinging twoTriggers = true) by (vm_compute; reflexivity).
  assert (Hw : wakeLock twoTriggers = Some 2%positive)
    by (vm_compute; reflexivity).
  assert (Hh : 2%positive ∈ heldLocks (world twoTriggers)) by by_evaluation.
  assert (Hp : pending twoTriggers !! 1%nat = Some (AwaitWakeLock signalGBP))
    by (vm_compute; reflexivity).
  assert (Hs : wakeLockSupported (world twoTriggers) = true)
    by (vm_compute; reflexivity).
  pose proof (@second_wakeLock_overwrites specEvaluator twoTriggers 1%nat
                signalGBP 2%positive Hreach Hr Hw Hh Hp Hs) as Hthm.
  cbv zeta in Hthm. destruct Hthm as (l2 & Hne & Hw2 & _ & _ & _ & Hleak).
  split; [exact Hr|]. split; [exact Hw|]. split; [exact Hp|].
  exists l2. split; [exact Hne|]. split; [exact Hw2 | exact Hleak].
Defined.

(** * The wake-lock utilities, continued *)

(** X11. Releasing what [requestWakeLock] returned undoes the request:
    whatever the platform answered, the page holds the same locks as before
    the request, provided the locks it held came from the allocator. *)
Theorem release_undoes_request (r : LockResponse) (w : World) :
  (∀ l, l ∈ heldLocks w → (l < nextHandle w)%positive) →
  ∃ lock w', requestWakeLock r w = (Returned lock, w')
    ∧ heldLocks (releaseWakeLock lock w') = heldLocks w
    ∧ (lock = None → heldLocks w' = heldLocks w)
    ∧ (∀ l, lock = Some l → (l ∉ heldLocks w) ∧ (l ∈ heldLocks w')).
Proof.
  intros Hbelow. unfold requestWakeLock.
  assert (Hfresh : nextHandle w ∉ heldLocks w).
  { intros Hin. specialize (Hbelow _ Hin). lia. }
  destruct (wakeLockSupported w); [destruct r as [|err]|]; simpl;
    eexists _, _; (split; [reflexivity|]); simpl;
    split_and!; try done; try set_solver.
Qed.

(** ** The wake-up helpers *)

Section WakeUpFacts.

(** *** Rules for computations that may throw *)

Lemma returnsWith_ret {A} (a : A) d (Q : A → Device → Prop) :
  Q a d → returnsWith (ret a) d Q.
Proof. intros HQ. by exists a, d. Qed.

Lemma returnsWith_bind {A B} (c : Js A) (k : A → Js B) d
    (Q1 : A → Device → Prop) (Q : B → Device → Prop) :
  returnsWith c d Q1 →
  (∀ a d1, Q1 a d1 → returnsWith (k a) d1 Q) →
  returnsWith (bind c k) d Q.
Proof.
  intros (a & d1 & Hc & H1) Hk. unfold returnsWith, bind. rewrite Hc.
  by apply Hk.
Qed.

Lemma returnsWith_wand {A} (c : Js A) d (Q1 Q : A → Device → Prop) :
  returnsWith c d Q1 → (∀ a d1, Q1 a d1 → Q a d1) → returnsWith c d Q.
Proof. intros (a & d1 & Hc & H1) HQ. exists a, d1. auto. Qed.

Lemma returnsWith_gets {A} (f : Device → A) d (Q : A → Device → Prop) :
  Q (f d) d → returnsWith (gets f) d Q.
Proof. intros HQ. by exists (f d), d. Qed.

Lemma returnsWith_modify f d (Q : unit → Device → Prop) :
  Q tt (f d) → returnsWith (modify f) d Q.
Proof. intros HQ. by exists tt, (f d). Qed.

(** A [try] whose handler returns, returns: either the body did, or the
    handler took over from the page the body left. *)
Lemma returnsWith_tryCatch {A} (body : Js A) handler d
    (Q : A → Device → Prop) :
  (∀ a d1, body d = (Returned a, d1) → Q a d1) →
  (∀ err d1, body d = (Thrown err, d1) → returnsWith (handler err) d1 Q) →
  returnsWith (tryCatch body handler) d Q.
Proof.
  intros Hret Hthrow. unfold returnsWith, tryCatch.
  destruct (body d) as [[a|err] d1] eqn:Hb.
  - exists a, d1. split; [done|]. by apply Hret.
  - by apply Hthrow.
Qed.

End WakeUpFacts.

Section RespectsFacts.

(** *** What a computation respects, however it ends *)

Local Set Default Proof Using "Type*".

Context (R : relation Device) `{!PreOrder R}.

Lemma respects_ret {A} (a : A) : respects R (ret a).
Proof. intros d. simpl. reflexivity. Qed.

Lemma respects_throw {A} err : respects R (@throw A err).
Proof. intros d. simpl. reflexivity. Qed.

Lemma respects_gets {A} (g : Device → A) : respects R (gets g).
Proof. intros d. simpl. reflexivity. Qed.

Lemma respects_modify g : (∀ d, R d (g d)) → respects R (modify g).
Proof. intros Hg d. apply Hg. Qed.

Lemma respects_bind {A B} (c : Js A) (k : A → Js B) :
  respects R c → (∀ a, respects R (k a)) → respects R (bind c k).
Proof.
  intros Hc Hk d. unfold bind. specialize (Hc d).
  destruct (c d) as [[a|err] d1]; simpl in *; [|done].
  etrans; [exact Hc|apply Hk].
Qed.

Lemma respects_tryCatch {A} (body : Js A) handler :
  respects R body → (∀ err, respects R (handler err)) →
  respects R (tryCatch body handler).
Proof.
  intros Hb Hh d. unfold tryCatch. specialize (Hb d).
  destruct (body d) as [[a|err] d1]; simpl in *; [done|].
  etrans; [exact Hb|apply Hh].
Qed.

Lemma respects_platformCall answer effect :
  (∀ d, R d (effect d)) → respects R (platformCall answer effect).
Proof.
  intros He. destruct answer; [apply respects_throw|].
  by apply respects_modify.
Qed.

Lemma respects_onWorld {A} (g : World → outcome A * World) :
  (∀ d, R d (with_devWorld (g (devWorld d)).2 d)) → respects R (onWorld g).
Proof.
  intros Hf d. unfold onWorld. specialize (Hf d).
  by destruct (g (devWorld d)) as [r w].
Qed.

Implicit Types (ans : WakeAnswers) (d : Device).

Lemma wakeMethod1_respects ans :
  (∀ r d, R d (with_devWorld (requestWakeLock r (devWorld d)).2 d)) →
  respects R (wakeMethod1 ans).
Proof.
  intros Hw. unfold wakeMethod1.
  apply respects_bind; [by apply respects_onWorld|].
  intros ?. apply respects_ret.
Qed.

Lemma wakeMethod2_respects ans :
  (∀ d, R d (with_devWorld (window_focus (devWorld d)) d)) →
  (∀ d, R d (with_visibilityEvents (S (visibilityEvents d)) d)) →
  (∀ line d, wakeLine line →
     R d (with_devWorld (console_log line (devWorld d)) d)) →
  respects R (wakeMethod2 ans).
Proof.
  intros Hfocus Hvis Hlog. unfold wakeMethod2.
  apply respects_bind; [by apply respects_platformCall|intros _].
  apply respects_bind; [apply respects_gets|intros hidden].
  apply respects_bind.
  { destruct hidden; [|apply respects_ret].
    by apply respects_platformCall. }
  intros _. apply respects_bind; [apply respects_gets|intros orientation].
  destruct orientation; [|apply respects_ret].
  apply respects_tryCatch.
  - destruct (displayAnswer ans); simpl;
      [apply respects_ret..|apply respects_throw].
  - intros _. apply respects_modify. intros. apply Hlog. by left.
Qed.

Lemma wakeMethod3_respects ans :
  (∀ d, R d (with_vibrations (vibrations d ++ [wakePattern]) d)) →
  respects R (wakeMethod3 ans).
Proof.
  intros Hvib. unfold wakeMethod3.
  apply respects_bind; [apply respects_gets|intros vibrate].
  destruct vibrate; [|apply respects_ret].
  by apply respects_platformCall.
Qed.

Lemma wakeMethod4_respects ans :
  (∀ d, R d (with_devWorld (allocHandle (devWorld d)).2 d)) →
  (∀ d n, R d (with_notifications (<[n := true]> (notifications d)) d)) →
  (∀ d n, R d (with_timers (timers d ++ [CloseNotification n]) d)) →
  (∀ line d, wakeLine line →
     R d (with_devWorld (console_log line (devWorld d)) d)) →
  respects R (wakeMethod4 ans).
Proof.
  intros Halloc Hnotify Htimer Hlog. unfold wakeMethod4.
  apply respects_bind; [apply respects_gets|intros granted].
  destruct granted; [|apply respects_ret].
  apply respects_tryCatch.
  - apply respects_bind.
    + intros d. destruct (notificationAnswer ans); simpl; [reflexivity|].
      etrans; [apply (Halloc d)|].
      apply (Hnotify (with_devWorld _ d)).
    + intros n. apply respects_modify. intros. apply Htimer.
  - intros e. apply respects_modify. intros. apply Hlog.
    right. left. by exists e.
Qed.

Lemma wakeMethod5_respects ans :
  (∀ d, R d (newAudioContext d).2) →
  (∀ d c, R d (with_timers (timers d ++ [CloseContext c]) d)) →
  (∀ line d, wakeLine line →
     R d (with_devWorld (console_log line (devWorld d)) d)) →
  respects R (wakeMethod5 ans).
Proof.
  intros Hctx Htimer Hlog. unfold wakeMethod5.
  apply respects_tryCatch.
  - destruct (toneAnswer ans); unfold silentTone.
    + apply respects_bind; [intros d; apply Hctx|]. intros c.
      apply respects_modify. intros. apply Htimer.
    + apply respects_throw.
    + apply respects_bind; [intros d; apply Hctx|]. intros _.
      apply respects_throw.
  - intros e. apply respects_modify. intros. apply Hlog.
    right. right. left. by exists e.
Qed.

(** Everything after the wake-lock request. *)
Lemma wakeRest_respects ans :
  writesRespected R →
  respects R (wakeMethod2 ans ;;; wakeMethod3 ans ;;; wakeMethod4 ans ;;;
              wakeMethod5 ans ;;;
              consoleLog "All screen wake-up methods executed").
Proof.
  intros [].
  apply respects_bind; [by apply wakeMethod2_respects|intros _].
  apply respects_bind; [by apply wakeMethod3_respects|intros _].
  apply respects_bind; [by apply wakeMethod4_respects|intros _].
  apply respects_bind; [by apply wakeMethod5_respects|intros _].
  apply respects_modify. intros. apply w_log0. by do 3 right.
Qed.

Lemma wakeBody_respects ans :
  writesRespected R →
  (∀ r d, R d (with_devWorld (requestWakeLock r (devWorld d)).2 d)) →
  respects R (wakeBody ans).
Proof.
  intros HW Hw. unfold wakeBody.
  apply respects_bind; [by apply wakeMethod1_respects|intros _].
  by apply wakeRest_respects.
Qed.

Lemma wakeUpScreen_respects ans :
  writesRespected R →
  (∀ r d, R d (with_devWorld (requestWakeLock r (devWorld d)).2 d)) →
  (∀ line d, R d (with_errors (errors d ++ [line]) d)) →
  respects R (wakeUpScreen ans).
Proof.
  intros HW Hw He. unfold wakeUpScreen.
  apply respects_tryCatch; [by apply wakeBody_respects|].
  intros err. apply respects_modify. intros. apply He.
Qed.

End RespectsFacts.

Global Instance keeps_preorder {B} (f : Device → B) :
  PreOrder (λ d d' : Device, f d' = f d).
Proof.
  split; [by intros d|]. intros d1 d2 d3 H1 H2. simpl in *. by rewrite H2.
Qed.

Global Instance timersGrow_preorder : PreOrder timersGrow.
Proof.
  split; [by intros d t|]. intros d1 d2 d3 H1 H2 t Ht. by apply H2, H1.
Qed.

Section WakeUpScreenFacts.

Implicit Types (ans : WakeAnswers) (d : Device).

(** An observation that reads none of what the helpers write. *)
Lemma blind_writes {B} (f : Device → B) :
  (∀ w d, f (with_devWorld w d) = f d) →
  (∀ v d, f (with_visibilityEvents v d) = f d) →
  (∀ v d, f (with_vibrations v d) = f d) →
  (∀ v d, f (with_notifications v d) = f d) →
  (∀ v d, f (with_timers v d) = f d) →
  writesRespected (λ d d', f d' = f d).
Proof.
  intros Hw Hvis Hvib Hn Ht. split; intros; simpl; by rewrite ?Hn, ?Hw.
Qed.

Lemma wakeBody_keeps {B} (f : Device → B) ans :
  (∀ w d, f (with_devWorld w d) = f d) →
  (∀ v d, f (with_visibilityEvents v d) = f d) →
  (∀ v d, f (with_vibrations v d) = f d) →
  (∀ v d, f (with_notifications v d) = f d) →
  (∀ v d, f (with_timers v d) = f d) →
  keeps f (wakeBody ans).
Proof.
  intros. apply wakeBody_respects; [apply _|by apply blind_writes|done].
Qed.

Lemma wakeUpScreen_keeps {B} (f : Device → B) ans :
  (∀ w d, f (with_devWorld w d) = f d) →
  (∀ v d, f (with_visibilityEvents v d) = f d) →
  (∀ v d, f (with_vibrations v d) = f d) →
  (∀ v d, f (with_notifications v d) = f d) →
  (∀ v d, f (with_timers v d) = f d) →
  (∀ v d, f (with_errors v d) = f d) →
  keeps f (wakeUpScreen ans).
Proof.
  intros. apply wakeUpScreen_respects;
    [apply _|by apply blind_writes|done..].
Qed.

(** X12. [wakeUpScreen] never rejects, whatever the platform calls do,
    and it writes at most one [console.error] line: the report of its
    outer [catch]. *)
Theorem wakeUpScreen_never_rejects ans d :
  ∃ d', wakeUpScreen ans d = (Returned tt, d')
    ∧ (errors d' = errors d
       ∨ ∃ err, errors d'
                = errors d ++ ["Failed to wake up screen: " +:+ err]).
Proof.
  assert (Hkeep : keeps errors (wakeBody ans)) by by apply wakeBody_keeps.
  specialize (Hkeep d). simpl in Hkeep.
  unfold wakeUpScreen, tryCatch.
  destruct (wakeBody ans d) as [[[]|err] d1]; simpl in Hkeep.
  - exists d1. split; [done|]. by left.
  - eexists. split; [done|]. right. exists err. simpl. by rewrite Hkeep.
Qed.

(** *** The methods one by one *)

Lemma returnsWith_keeps {A C} (f : Device → C) (c : Js A) d
    (Q : A → Device → Prop) :
  returnsWith c d Q → keeps f c →
  returnsWith c d (λ a d', Q a d' ∧ f d' = f d).
Proof.
  intros (a & d1 & Hc & HQ) Hk. exists a, d1. split_and!; try done.
  specialize (Hk d). by rewrite Hc in Hk.
Qed.

Lemma wakeMethod1_runs ans d :
  wakeMethod1 ans d
  = (Returned tt,
     with_devWorld (requestWakeLock (lockAnswer ans) (devWorld d)).2 d).
Proof.
  unfold wakeMethod1, bind, onWorld.
  destruct (requestWakeLock_returns (lockAnswer ans) (devWorld d))
    as [lock Hl].
  destruct (requestWakeLock (lockAnswer ans) (devWorld d)) as [r w].
  simpl in *. by subst r.
Qed.

Lemma requestWakeLock_focus r w :
  focusCalls (requestWakeLock r w).2 = focusCalls w
  ∧ documentHidden (requestWakeLock r w).2 = documentHidden w.
Proof.
  unfold requestWakeLock.
  by destruct (wakeLockSupported w); [destruct r|].
Qed.

Lemma wakeMethod2_runs ans d :
  focusAnswer ans = None → dispatchAnswer ans = None →
  returnsWith (wakeMethod2 ans) d
    (λ _ d', focusCalls (devWorld d') = S (focusCalls (devWorld d))).
Proof.
  intros Hf Hd. unfold wakeMethod2, returnsWith, bind. rewrite Hf, Hd.
  simpl.
  destruct (documentHidden (devWorld d)); simpl;
    destruct (screenHasOrientation d); simpl; eauto;
    unfold tryCatch; destruct (displayAnswer ans); simpl; eauto.
Qed.

Lemma wakeMethod3_runs ans d :
  vibrateAnswer ans = None →
  wakeMethod3 ans d
  = (Returned tt,
     if canVibrate d
     then with_vibrations (vibrations d ++ [wakePattern]) d else d).
Proof.
  intros Hv. unfold wakeMethod3, bind. simpl. rewrite Hv.
  by destruct (canVibrate d).
Qed.

Lemma wakeMethod4_returns ans d :
  returnsWith (wakeMethod4 ans) d (λ _ _, True).
Proof.
  unfold returnsWith, wakeMethod4, bind, gets, tryCatch.
  destruct (notificationsGranted d); [|by eexists _, _].
  destruct (notificationAnswer ans); simpl; by eexists _, _.
Qed.

Lemma wakeMethod5_returns ans d :
  returnsWith (wakeMethod5 ans) d (λ _ _, True).
Proof.
  unfold returnsWith, wakeMethod5, tryCatch.
  destruct (toneAnswer ans); simpl; by eexists _, _.
Qed.

(** X13. When [window.focus], the visibility event and
    [navigator.vibrate] do not throw, every method of [wakeUpScreen] is
    attempted whatever the wake-lock request, the native wake-up, the
    notification and the audio calls do: the window is focused once, the
    long vibration pattern is requested exactly when the platform
    vibrates, nothing goes to [console.error], and the last console line
    says that all methods were executed. *)
Theorem wakeUpScreen_best_effort ans d :
  focusAnswer ans = None →
  dispatchAnswer ans = None →
  vibrateAnswer ans = None →
  ∃ d', wakeUpScreen ans d = (Returned tt, d')
    ∧ errors d' = errors d
    ∧ focusCalls (devWorld d') = S (focusCalls (devWorld d))
    ∧ vibrations d'
      = vibrations d ++ (if canVibrate d then [wakePattern] else [])
    ∧ last (console (devWorld d'))
      = Some "All screen wake-up methods executed".
Proof.
  intros Hf Hd Hv.
  set (obs := λ d : Device,
                (errors d, focusCalls (devWorld d), vibrations d,
                 canVibrate d)).
  assert (Hbody : returnsWith (wakeBody ans) d
    (λ _ d', errors d' = errors d
             ∧ focusCalls (devWorld d') = S (focusCalls (devWorld d))
             ∧ vibrations d'
               = vibrations d ++ (if canVibrate d then [wakePattern] else [])
             ∧ last (console (devWorld d'))
               = Some "All screen wake-up methods executed")).
  { unfold wakeBody.
    apply (returnsWith_bind _ _ d (λ _ d1, obs d1 = obs d)).
    { eexists tt, _. split; [apply wakeMethod1_runs|]. subst obs. simpl.
      by destruct (requestWakeLock_focus (lockAnswer ans) (devWorld d))
        as [-> _]. }
    intros _ d1 H1.
    apply (returnsWith_bind _ _ d1
             (λ _ d2, focusCalls (devWorld d2) = S (focusCalls (devWorld d1))
                      ∧ (errors d2, vibrations d2, canVibrate d2)
                        = (errors d1, vibrations d1, canVibrate d1))).
    { apply (returnsWith_keeps
               (λ d, (errors d, vibrations d, canVibrate d)));
        [by apply wakeMethod2_runs|].
      apply wakeMethod2_respects; [apply _|by intros..]. }
    intros _ d2 [Hfocus H2].
    apply (returnsWith_bind _ _ d2
             (λ _ d3, d3 = if canVibrate d2
                           then with_vibrations
                                  (vibrations d2 ++ [wakePattern]) d2
                           else d2)).
    { eexists tt, _. split; [by apply wakeMethod3_runs|done]. }
    intros _ d3 Hd3.
    apply (returnsWith_bind _ _ d3 (λ _ d4, True ∧ obs d4 = obs d3)).
    { apply (returnsWith_keeps obs); [apply wakeMethod4_returns|].
      apply wakeMethod4_respects; [apply _|by intros..]. }
    intros _ d4 [_ H4].
    apply (returnsWith_bind _ _ d4 (λ _ d5, True ∧ obs d5 = obs d4)).
    { apply (returnsWith_keeps obs); [apply wakeMethod5_returns|].
      apply wakeMethod5_respects; [apply _|by intros..]. }
    intros _ d5 [_ H5].
    apply returnsWith_modify. simpl.
    rewrite last_snoc.
    assert (Hall : obs d5
                   = (errors d, S (focusCalls (devWorld d)),
                      vibrations d
                      ++ (if canVibrate d then [wakePattern] else []),
                      canVibrate d)).
    { rewrite H5, H4, Hd3. subst obs. simpl in *.
      injection H1 as He Hfo Hvi Hcv. injection H2 as He2 Hvi2 Hcv2.
      rewrite Hcv2, Hcv.
      destruct (canVibrate d); simpl;
        rewrite ?He2, ?He, ?Hfocus, ?Hfo, ?Hvi2, ?Hvi, ?Hcv2, ?Hcv,
          ?app_nil_r; done. }
    subst obs. simpl in Hall. by injection Hall as -> -> -> _. }
  destruct Hbody as ([] & d' & Hrun & He & Hfo & Hvi & Hlast).
  exists d'. unfold wakeUpScreen, tryCatch. by rewrite Hrun.
Qed.

End WakeUpScreenFacts.

(** ** The page over time *)

Section DeviceFacts.

Implicit Types (ans : WakeAnswers) (d : Device) (t : Timer).

Lemma wakeUpScreen_returns ans d :
  ∃ d', wakeUpScreen ans d = (Returned tt, d').
Proof.
  unfold wakeUpScreen, tryCatch.
  destruct (wakeBody ans d) as [[[]|err] d1]; simpl; eauto.
Qed.

Lemma orphanWakeUp_runs call ans d :
  orphanWakeUp call ans d = (Returned tt, orphanRan call ans d).
Proof.
  unfold orphanWakeUp, orphanRan, bind, gets, modify.
  case_bool_decide; [|done]. simpl. unfold tryCatch.
  by destruct (wakeUpScreen_returns ans
                 (with_orphans (orphans d ∖ {[call]}) d)) as [d' ->].
Qed.

(** What holds of the page and of what [wakeUpScreen] leaves of the page
    with one orphan less, holds of what [orphanWakeUp] leaves. *)
Lemma orphanRan_cases (P : Device → Prop) call ans d :
  P d →
  P (wakeUpScreen ans (with_orphans (orphans d ∖ {[call]}) d)).2 →
  P (orphanRan call ans d).
Proof. intros Hd Hw. unfold orphanRan. by case_bool_decide. Qed.

Lemma afterWakeUp_runs call ans d :
  forceScreenWakeUp_afterWakeUp call ans d
  = (Returned tt,
     match awaiting d !! call with
     | Some (true, _) => wakeUpResolved call (wakeUpScreen ans d).2
     | _ => orphanRan call ans d
     end).
Proof.
  unfold forceScreenWakeUp_afterWakeUp, bind, gets.
  destruct (awaiting d !! call) as [[[] n]|];
    try apply orphanWakeUp_runs.
  unfold tryCatch, bind.
  by destruct (wakeUpScreen_returns ans d) as [d' ->].
Qed.

(** [forceScreenWakeUp] up to its [await], written out. *)
Lemma start_runs a d :
  forceScreenWakeUp_start a d
  = let call := nextCall d in
    let d0 := with_nextCall (S call) d in
    let d1 := match executorThrows a d with
              | Some _ => d0
              | None =>
                  if screenHasKeepAwake d
                  then with_timers (timers d ++ [KeepAwakeOff call])
                         (with_keepAwake true d0)
                  else d0
              end in
    let d2 := if hasBody d
              then with_timers (timers d1 ++ [FlashDim call (bodyFilter d)])
                     (with_bodyFilter "brightness(2)" d1)
              else d1 in
    (Returned call,
     match executorThrows a d with
     | Some err =>
         with_errors (errors d ++ ["Force screen wake-up failed: " +:+ err])
           (with_orphans ({[call]} ∪ orphans d) d2)
     | None =>
         with_awaiting
           (<[call := (true,
                       ((if screenHasKeepAwake d then 1 else 0)
                        + (if hasBody d then 1 else 0))%nat)]> (awaiting d))
           d2
     end).
Proof.
  unfold forceScreenWakeUp_start, newPromise, tryCatch, bind, gets, modify,
    keepAwakeExecutor, flashExecutor, scheduleTimer, consoleError, throw,
    ret, executorThrows, bind, gets, modify.
  destruct a as [|err|err]; simpl;
    destruct (screenHasKeepAwake d) eqn:Hk; simpl;
    destruct (hasBody d) eqn:Hb; simpl; rewrite ?Hb; reflexivity.
Qed.

(** X14. When [window.focus()] throws, [wakeUpScreen] stops there: the
    page is the one the wake-lock request left, with the report of the
    outer [catch] on [console.error]; nothing vibrates, no notification is
    raised, no tone is played and the closing line is not logged. *)
Theorem focus_failure_skips_the_rest ans d err :
  focusAnswer ans = Some err →
  wakeUpScreen ans d
  = (Returned tt,
     with_errors (errors d ++ ["Failed to wake up screen: " +:+ err])
       (with_devWorld (requestWakeLock (lockAnswer ans) (devWorld d)).2 d)).
Proof.
  intros Hf. unfold wakeUpScreen, tryCatch, wakeBody, bind.
  rewrite wakeMethod1_runs. unfold wakeMethod2, bind. by rewrite Hf.
Qed.

(** What the helpers leave of the page the wake-lock request left. *)
Lemma wakeUpScreen_after_request (R : relation Device) `{!PreOrder R}
    ans d :
  writesRespected R →
  (∀ line d, R d (with_errors (errors d ++ [line]) d)) →
  R (with_devWorld (requestWakeLock (lockAnswer ans) (devWorld d)).2 d)
    (wakeUpScreen ans d).2.
Proof.
  intros HW He. unfold wakeUpScreen, tryCatch, wakeBody. unfold bind at 1.
  rewrite wakeMethod1_runs.
  set (d1 := with_devWorld _ d).
  pose proof (wakeRest_respects R ans HW d1) as Hrest.
  destruct (bind (wakeMethod2 ans) _ d1) as [[[]|err] d2]; simpl in *;
    [done|].
  etrans; [exact Hrest|apply He].
Qed.

End DeviceFacts.

Global Instance worldRelated_preorder (Rw : relation World) `{!PreOrder Rw} :
  PreOrder (worldRelated Rw).
Proof.
  split; [by intros d; unfold worldRelated|].
  intros d1 d2 d3 H1 H2. unfold worldRelated in *. by etrans.
Qed.

Section WorldOrder.

(** *** What no helper undoes in the browser *)

Local Set Default Proof Using "Type*".

Context (Rw : relation World) `{!PreOrder Rw}.
Context (Hfocus : ∀ w, Rw w (window_focus w))
        (Hlog : ∀ line w, Rw w (console_log line w))
        (Halloc : ∀ w, Rw w (allocHandle w).2)
        (Hctx : ∀ c st w,
           Rw w (set_audioContexts (<[c := st]> (audioContexts w)) w))
        (Hlock : ∀ r w, Rw w (requestWakeLock r w).2)
        (Hunhandled : ∀ err w, Rw w (reportUnhandled err w)).

Implicit Types (ans : WakeAnswers) (d : Device).

Lemma worldRelated_writes : writesRespected (worldRelated Rw).
Proof.
  split; unfold worldRelated; intros; simpl; try done.
  etrans; [apply (Halloc (devWorld d))|].
  apply (Hctx (nextHandle (devWorld d)) CtxRunning
           (allocHandle (devWorld d)).2).
Qed.

Lemma wakeUpScreen_world ans : respects (worldRelated Rw) (wakeUpScreen ans).
Proof.
  apply wakeUpScreen_respects; [apply _|apply worldRelated_writes|..];
    unfold worldRelated; intros; simpl; done.
Qed.

Lemma promiseResolved_world call left d :
  Rw (devWorld d) (devWorld (promiseResolved call left d)).
Proof.
  unfold promiseResolved. by destruct left as [[] []]; simpl.
Qed.

Lemma deviceStep_world e d : Rw (devWorld d) (devWorld (deviceStep e d)).
Proof.
  destruct e as [ans|a|call ans|t]; simpl.
  - apply wakeUpScreen_world.
  - rewrite start_runs. cbv zeta. unfold executorThrows.
    destruct a, (screenHasKeepAwake d), (hasBody d); simpl; done.
  - rewrite afterWakeUp_runs. simpl.
    destruct (awaiting d !! call) as [[[] n]|];
      try (apply orphanRan_cases; [done|];
           apply (wakeUpScreen_world ans (with_orphans _ d))).
    etrans; [apply (wakeUpScreen_world ans d)|].
    unfold wakeUpResolved.
    destruct (awaiting _ !! call) as [[[] n']|]; try done.
    apply promiseResolved_world.
  - unfold fireTimer. case_decide; [|done].
    destruct t as [n|c|call|call f|call f]; simpl; try done.
    + unfold closeFromTimer.
      destruct (audioContexts _ !! c) as [[]|]; simpl; done.
    + unfold resolveFor. simpl.
      destruct (awaiting d !! call) as [[wake [|n]]|]; try done.
      destruct wake, n; simpl; done.
    + unfold resolveFor. simpl.
      destruct (awaiting d !! call) as [[wake [|n]]|]; try done.
      destruct wake, n; simpl; done.
Qed.

Lemma deviceRun_world es d : Rw (devWorld d) (devWorld (deviceRun es d)).
Proof.
  revert d. induction es as [|e es IH]; intros d; [done|].
  simpl. etrans; [apply (deviceStep_world e d)|apply IH].
Qed.

End WorldOrder.

Global Instance locksKept_preorder : PreOrder locksKept.
Proof. split; unfold locksKept; [by intros w|intros w1 w2 w3; set_solver]. Qed.

Lemma requestWakeLock_locksKept r w : locksKept w (requestWakeLock r w).2.
Proof.
  unfold locksKept, requestWakeLock.
  destruct (wakeLockSupported w); [destruct r|]; simpl; set_solver.
Qed.

Lemma deviceRun_locksKept es d :
  locksKept (devWorld d) (devWorld (deviceRun es d)).
Proof.
  apply deviceRun_world; [apply _|..];
    try (intros; unfold locksKept; simpl; reflexivity).
  apply requestWakeLock_locksKept.
Qed.

Lemma locksKept_writes : writesRespected (worldRelated locksKept).
Proof.
  apply worldRelated_writes; [apply _|..];
    try (intros; unfold locksKept; simpl; reflexivity).
  apply requestWakeLock_locksKept.
Qed.

(** X15. [wakeUpScreen] drops the sentinel of the wake lock it requests, and
    no helper releases a lock: once granted, the lock stays held whatever
    the helpers and their timers do afterwards. *)
Theorem wakeUpScreen_lock_is_never_released ans d es :
  wakeLockSupported (devWorld d) = true →
  lockAnswer ans = Grant →
  nextHandle (devWorld d)
  ∈ heldLocks (devWorld (deviceRun es (wakeUpScreen ans d).2)).
Proof.
  intros Hs Hg.
  apply deviceRun_locksKept.
  assert (Hrest : worldRelated locksKept
            (with_devWorld (requestWakeLock (lockAnswer ans) (devWorld d)).2 d)
            (wakeUpScreen ans d).2).
  { apply wakeUpScreen_after_request; [apply _|apply locksKept_writes|].
    intros line d0. unfold worldRelated, locksKept. simpl. reflexivity. }
  apply Hrest. simpl. rewrite Hg, requestWakeLock_granted by done. simpl.
  set_solver.
Qed.

(** *** Timers *)

Section TimerFacts.

Implicit Types (ans : WakeAnswers) (d : Device) (t : Timer)
  (l : list Timer).

Lemma dropTimer_elem t t' l : t' ∈ l → t' ≠ t → t' ∈ dropTimer t l.
Proof.
  induction l as [|t0 l IH]; simpl; [done|]. intros Hin Hne.
  case_decide as Heq.
  - subst t0. apply elem_of_cons in Hin as [->|Hin]; done.
  - apply elem_of_cons in Hin as [->|Hin]; [by left|].
    right. by apply IH.
Qed.

Lemma dropTimer_subset t t' l : t' ∈ dropTimer t l → t' ∈ l.
Proof.
  induction l as [|t0 l IH]; simpl; [done|].
  case_decide as Heq; [by right|].
  intros [->|Hin]%elem_of_cons; [by left|]. right. by apply IH.
Qed.

Lemma filter_dropTimer (P : Timer → Prop) `{!∀ t, Decision (P t)} t l :
  filter P (dropTimer t l)
  = if decide (P t) then dropTimer t (filter P l) else filter P l.
Proof.
  induction l as [|t0 l IH]; simpl; [by case_decide|].
  destruct (decide (t = t0)) as [<-|Hne].
  - rewrite filter_cons. destruct (decide (P t)); [|done].
    simpl. by rewrite decide_True.
  - rewrite !filter_cons. destruct (decide (P t0)) as [H0|H0].
    + rewrite IH. destruct (decide (P t)); [|done].
      simpl. by rewrite decide_False.
    + rewrite IH. by destruct (decide (P t)).
Qed.

Lemma dropTimer_length t l :
  t ∈ l → S (length (dropTimer t l)) = length l.
Proof.
  induction l as [|t0 l IH]; simpl; [by intros ?%elem_of_nil|].
  intros Hin. case_decide as Heq; [done|]. simpl. f_equal. apply IH.
  apply elem_of_cons in Hin as [->|Hin]; done.
Qed.

Lemma respects_and {A} (R1 R2 : relation Device) (c : Js A) :
  respects R1 c → respects R2 c → respects (λ d d', R1 d d' ∧ R2 d d') c.
Proof. intros H1 H2 d. split; [apply H1|apply H2]. Qed.

Lemma timersGrow_writes : writesRespected timersGrow.
Proof.
  split; intros; intros t Ht; simpl; try done;
    apply elem_of_app; by left.
Qed.

Lemma wakeUpScreen_timersGrow ans : respects timersGrow (wakeUpScreen ans).
Proof.
  apply wakeUpScreen_respects; [apply _|apply timersGrow_writes|..];
    by intros ? d t Ht.
Qed.

Lemma promiseResolved_timers call left d :
  timers (promiseResolved call left d) = timers d.
Proof. unfold promiseResolved. by destruct left as [[] []]. Qed.

Lemma wakeUpResolved_timers call d :
  timers (wakeUpResolved call d) = timers d.
Proof.
  unfold wakeUpResolved. destruct (awaiting d !! call) as [[[] n]|]; try done.
  apply promiseResolved_timers.
Qed.

Lemma resolveFor_timers call d : timers (resolveFor call d) = timers d.
Proof.
  unfold resolveFor.
  destruct (awaiting d !! call) as [[wake [|n]]|]; try done.
  apply promiseResolved_timers.
Qed.

(** A timer that fires takes no other timer along. *)
Lemma fireTimer_others t t' d :
  t' ∈ timers d → t' ≠ t → t' ∈ timers (fireTimer t d).
Proof.
  intros Hin Hne. unfold fireTimer. case_decide as Ht; [|done].
  assert (Hd : t' ∈ dropTimer t (timers d)) by by apply dropTimer_elem.
  destruct t as [n|c|call|call f|call f]; simpl; try done.
  - by rewrite resolveFor_timers.
  - apply elem_of_app. by left.
  - by rewrite resolveFor_timers.
Qed.

End TimerFacts.

Section PageInvariants.

Implicit Types (ans : WakeAnswers) (d : Device) (t : Timer).

(** A resolution writes the bookkeeping of [Promise.all] and the console,
    nothing else. *)
Lemma promiseResolved_rest call left d :
  ∃ a w, promiseResolved call left d = with_awaiting a (with_devWorld w d).
Proof.
  unfold promiseResolved. destruct left as [[] []]; try by eexists _, _.
  all: exists (<[call := _]> (awaiting d)), (devWorld d); by destruct d.
Qed.

Lemma wakeUpResolved_rest call d :
  ∃ a w, wakeUpResolved call d = with_awaiting a (with_devWorld w d).
Proof.
  unfold wakeUpResolved.
  destruct (awaiting d !! call) as [[[] n]|];
    try apply promiseResolved_rest;
    exists (awaiting d), (devWorld d); by destruct d.
Qed.

Lemma resolveFor_rest call d :
  ∃ a w, resolveFor call d = with_awaiting a (with_devWorld w d).
Proof.
  unfold resolveFor.
  destruct (awaiting d !! call) as [[wake [|n]]|];
    try apply promiseResolved_rest;
    exists (awaiting d), (devWorld d); by destruct d.
Qed.

Lemma keepAwake_step e d :
  (keepAwake d = true → ∃ call, KeepAwakeOff call ∈ timers d) →
  keepAwake (deviceStep e d) = true →
  ∃ call, KeepAwakeOff call ∈ timers (deviceStep e d).
Proof.
  intros Hinv.
  assert (Hwake : ∀ ans d0,
            keepAwake d0 = keepAwake d → timers d0 = timers d →
            keepAwake (wakeUpScreen ans d0).2 = true →
            ∃ call, KeepAwakeOff call ∈ timers (wakeUpScreen ans d0).2).
  { intros ans d0 Hk0 Ht0.
    pose proof (wakeUpScreen_timersGrow ans d0) as Hg.
    assert (Hk : keeps keepAwake (wakeUpScreen ans))
      by by apply wakeUpScreen_keeps.
    rewrite (Hk d0), Hk0. intros [call Hc]%Hinv. exists call.
    apply Hg. by rewrite Ht0. }
  destruct e as [ans|a|call ans|t]; simpl.
  - by apply Hwake.
  - rewrite start_runs. cbv zeta. unfold executorThrows.
    destruct a, (screenHasKeepAwake d), (hasBody d); simpl;
      lazymatch goal with
      | |- true = true → _ => intros _; exists (nextCall d); set_solver
      | |- _ => intros [call Hc]%Hinv; exists call; set_solver
      end.
  - rewrite afterWakeUp_runs. simpl.
    destruct (awaiting d !! call) as [[[] n]|];
      try (apply orphanRan_cases; [done|by apply Hwake]).
    destruct (wakeUpResolved_rest call (wakeUpScreen ans d).2)
      as (a & w & ->). simpl. by apply Hwake.
  - unfold fireTimer. case_decide as Ht; [|done].
    destruct t as [n|c|call|call f|call f]; simpl.
    + intros [c Hc]%Hinv. exists c. by apply dropTimer_elem.
    + intros [c' Hc]%Hinv. exists c'. by apply dropTimer_elem.
    + destruct (resolveFor_rest call
                  (with_keepAwake false
                     (with_timers (dropTimer (KeepAwakeOff call) (timers d))
                        d))) as (a & w & ->). done.
    + intros [c Hc]%Hinv. exists c. apply elem_of_app. left.
      by apply dropTimer_elem.
    + destruct (resolveFor_rest call
                  (with_bodyFilter f
                     (with_timers (dropTimer (FlashRestore call f) (timers d))
                        d))) as (a & w & ->). simpl.
      intros [c Hc]%Hinv. exists c. by apply dropTimer_elem.
Qed.

(** X16. The screen is never left kept awake: on a page where
    [navigator.screen.keepAwake] is set only while a timer that clears it
    is pending, it stays so whatever the helpers and their timers do. *)
Theorem keepAwake_always_has_its_timer es d :
  (keepAwake d = true → ∃ call, KeepAwakeOff call ∈ timers d) →
  keepAwake (deviceRun es d) = true →
  ∃ call, KeepAwakeOff call ∈ timers (deviceRun es d).
Proof.
  revert d. induction es as [|e es IH]; intros d Hinv; [done|].
  simpl. apply IH. by apply keepAwake_step.
Qed.

End PageInvariants.

Section NotificationFacts.

Implicit Types (ans : WakeAnswers) (d : Device) (t : Timer).

Lemma preserves_bind {A B} (I : Device → Prop) (c : Js A) (k : A → Js B) :
  preserves I c → (∀ a, preserves I (k a)) → preserves I (bind c k).
Proof.
  intros Hc Hk d Hd. unfold bind. specialize (Hc d Hd).
  destruct (c d) as [[a|err] d1]; simpl in *; [|done]. by apply Hk.
Qed.

Lemma preserves_tryCatch {A} (I : Device → Prop) (body : Js A) handler :
  preserves I body → (∀ err, preserves I (handler err)) →
  preserves I (tryCatch body handler).
Proof.
  intros Hb Hh d Hd. unfold tryCatch. specialize (Hb d Hd).
  destruct (body d) as [[a|err] d1]; simpl in *; [done|]. by apply Hh.
Qed.

Lemma preserves_respects {A} (I : Device → Prop) (R : relation Device)
    (c : Js A) :
  respects R c → (∀ d d', R d d' → I d → I d') → preserves I c.
Proof. intros Hc HR d Hd. by apply (HR d), Hd. Qed.

Local Ltac leaf :=
  intros; simpl; first [done | intros t Ht; simpl; try done;
                               apply elem_of_app; by left].

Lemma quietly_timed d d' :
  notifications d' = notifications d ∧ timersGrow d d' →
  notificationsTimed d → notificationsTimed d'.
Proof. intros [Hn Hg] Hd n. rewrite Hn. intros ?%Hd. by apply Hg. Qed.

Lemma wakeMethod4_timed ans : preserves notificationsTimed (wakeMethod4 ans).
Proof.
  intros d Hd. unfold wakeMethod4, bind, gets, tryCatch, newNotification,
    scheduleTimer, modify, consoleLog, modify.
  destruct (notificationsGranted d); [|done].
  destruct (notificationAnswer ans) as [err|]; simpl; [done|].
  intros n. simpl. destruct (decide (n = nextHandle (devWorld d))) as [->|Hne].
  - intros _. apply elem_of_app. right. by apply list_elem_of_here.
  - rewrite lookup_insert_ne by done. intros ?%Hd.
    apply elem_of_app. by left.
Qed.

Lemma wakeUpScreen_timed ans : preserves notificationsTimed (wakeUpScreen ans).
Proof.
  unfold wakeUpScreen, wakeBody.
  apply preserves_tryCatch.
  - apply preserves_bind; [|intros _].
    { eapply preserves_respects; [|apply quietly_timed].
      apply respects_and; apply wakeMethod1_respects; try apply _; leaf. }
    apply preserves_bind; [|intros _].
    { eapply preserves_respects; [|apply quietly_timed].
      apply respects_and; apply wakeMethod2_respects; try apply _; leaf. }
    apply preserves_bind; [|intros _].
    { eapply preserves_respects; [|apply quietly_timed].
      apply respects_and; apply wakeMethod3_respects; try apply _; leaf. }
    apply preserves_bind; [apply wakeMethod4_timed|intros _].
    apply preserves_bind; [|intros _].
    { eapply preserves_respects; [|apply quietly_timed].
      apply respects_and; apply wakeMethod5_respects; try apply _; leaf. }
    intros d Hd n. simpl. apply Hd.
  - intros err d Hd n. simpl. apply Hd.
Qed.

Lemma timed_step e d :
  notificationsTimed d → notificationsTimed (deviceStep e d).
Proof.
  unfold notificationsTimed. intros Hinv.
  destruct e as [ans|a|call ans|t]; simpl.
  - by apply (wakeUpScreen_timed ans d).
  - rewrite start_runs. cbv zeta. unfold executorThrows.
    destruct a, (screenHasKeepAwake d), (hasBody d); simpl;
      intros n ?%Hinv; set_solver.
  - rewrite afterWakeUp_runs. simpl.
    destruct (awaiting d !! call) as [[[] n]|];
      try (apply (orphanRan_cases
                    (λ d', ∀ n, notifications d' !! n = Some true
                                → CloseNotification n ∈ timers d'));
           [done|by apply (wakeUpScreen_timed ans (with_orphans _ d))]).
    destruct (wakeUpResolved_rest call (wakeUpScreen ans d).2)
      as (a & w & ->). simpl.
    by apply (wakeUpScreen_timed ans d).
  - unfold fireTimer. case_decide as Ht; [|done].
    destruct t as [n|c|call|call f|call f]; simpl.
    + intros n'. destruct (decide (n' = n)) as [->|Hne].
      * rewrite lookup_alter, decide_True by done.
        destruct (notifications d !! n); simpl; intros; congruence.
      * rewrite lookup_alter_ne by done. intros ?%Hinv.
        apply dropTimer_elem; [done|congruence].
    + intros n ?%Hinv. by apply dropTimer_elem.
    + destruct (resolveFor_rest call
                  (with_keepAwake false
                     (with_timers (dropTimer (KeepAwakeOff call) (timers d))
                        d))) as (a & w & ->). simpl.
      intros n ?%Hinv. by apply dropTimer_elem.
    + intros n ?%Hinv. apply elem_of_app. left. by apply dropTimer_elem.
    + destruct (resolveFor_rest call
                  (with_bodyFilter f
                     (with_timers (dropTimer (FlashRestore call f) (timers d))
                        d))) as (a & w & ->). simpl.
      intros n ?%Hinv. by apply dropTimer_elem.
Qed.

(** X17. No notification outlives its timer: on a page where every
    notification that is shown has a timer pending that closes it, this
    stays so whatever the helpers and their timers do. The notification of
    [wakeUpScreen] is therefore always closed by a timer, never left to
    the user alone. *)
Theorem shown_notification_has_its_timer es d :
  (∀ n, notifications d !! n = Some true → CloseNotification n ∈ timers d) →
  ∀ n, notifications (deviceRun es d) !! n = Some true →
       CloseNotification n ∈ timers (deviceRun es d).
Proof.
  revert d. induction es as [|e es IH]; intros d Hinv; [done|].
  simpl. apply IH. by apply timed_step.
Qed.

End NotificationFacts.

(** *** The calls of [forceScreenWakeUp] *)

Global Instance callsUntouched_preorder : PreOrder callsUntouched.
Proof.
  split; [by intros d|].
  intros d1 d2 d3 (Ha1 & Hn1 & Ho1 & Hp1 & Hc1) (Ha2 & Hn2 & Ho2 & Hp2 & Hc2).
  split_and!; [congruence..| |congruence].
  intros call. by rewrite Hp2.
Qed.

Section CallFacts.

Implicit Types (ans : WakeAnswers) (d : Device) (t : Timer)
  (l : list Timer) (call : nat).

Lemma completions_log line d :
  completions (with_devWorld (console_log line (devWorld d)) d)
  = (completions d
     + if decide (line = "Force screen wake-up completed") then 1 else 0)%nat.
Proof.
  unfold completions. simpl. rewrite filter_app, length_app. f_equal.
  rewrite filter_cons. by case_decide.
Qed.

Lemma wakeLine_not_completion line :
  wakeLine line → line ≠ "Force screen wake-up completed".
Proof. by intros [->|[[e ->]|[[e ->]| ->]]]. Qed.

Lemma pending_snoc call l t :
  length (filter (λ t, callOf t = Some call) (l ++ [t]))
  = (length (filter (λ t, callOf t = Some call) l)
     + if decide (callOf t = Some call) then 1 else 0)%nat.
Proof.
  rewrite filter_app, length_app. f_equal.
  rewrite filter_cons. by case_decide.
Qed.

Lemma pending_drop call l t :
  t ∈ l →
  (length (filter (λ t, callOf t = Some call) (dropTimer t l))
   + if decide (callOf t = Some call) then 1 else 0)%nat
  = length (filter (λ t, callOf t = Some call) l).
Proof.
  intros Hin. rewrite filter_dropTimer. case_decide as Hc; [|lia].
  rewrite <-(dropTimer_length t (filter _ l)); [lia|].
  by apply list_elem_of_filter.
Qed.

Lemma callsUntouched_writes : writesRespected callsUntouched.
Proof.
  split; intros; (split_and!; [done..| |]); try done.
  - rewrite completions_log, decide_False; [lia|].
    by apply wakeLine_not_completion.
  - intros call. unfold pendingOf. simpl. rewrite pending_snoc.
    rewrite decide_False by done. lia.
  - intros call. unfold pendingOf. simpl. rewrite pending_snoc.
    rewrite decide_False by done. lia.
Qed.

Lemma requestWakeLock_completions r d :
  completions (with_devWorld (requestWakeLock r (devWorld d)).2 d)
  = completions d.
Proof.
  unfold requestWakeLock.
  destruct (wakeLockSupported (devWorld d)); [|done].
  destruct r as [|err]; simpl; unfold completions; simpl;
    rewrite filter_app, filter_cons, decide_False, filter_nil, app_nil_r;
    done.
Qed.

Lemma wakeUpScreen_callsUntouched ans :
  respects callsUntouched (wakeUpScreen ans).
Proof.
  apply wakeUpScreen_respects; [apply _|apply callsUntouched_writes|..].
  - intros r d. split_and!; try done. apply requestWakeLock_completions.
  - intros line d. by split_and!.
Qed.

End CallFacts.

Section Accounting.

Local Open Scope nat_scope.

Implicit Types (ans : WakeAnswers) (d : Device) (t : Timer) (call : nat).

Lemma awaited_size (m : gmap nat (bool * nat)) call :
  is_Some (m !! call) → size (delete call m) + 1 = size m.
Proof.
  intros Hs. rewrite map_size_delete_Some by done.
  destruct (size m) eqn:Hsz; simpl; [|lia].
  apply map_size_empty_inv in Hsz. subst m.
  rewrite lookup_empty in Hs. by destruct Hs.
Qed.

Lemma wakeUpScreen_errors ans d :
  errors (wakeUpScreen ans d).2 = errors d
  ∨ ∃ err, errors (wakeUpScreen ans d).2
           = errors d ++ ["Failed to wake up screen: " +:+ err].
Proof.
  assert (Hkeep : keeps errors (wakeBody ans)) by by apply wakeBody_keeps.
  specialize (Hkeep d). simpl in Hkeep.
  unfold wakeUpScreen, tryCatch.
  destruct (wakeBody ans d) as [[[]|err] d1]; simpl in *; [by left|].
  right. exists err. by rewrite Hkeep.
Qed.

Lemma failures_snoc line l :
  length (filter (λ line,
                    String.prefix "Force screen wake-up failed: " line = true)
                 (l ++ [line]))
  = length (filter (λ line,
                      String.prefix "Force screen wake-up failed: " line
                      = true) l)
    + if String.prefix "Force screen wake-up failed: " line then 1 else 0.
Proof.
  rewrite filter_app, length_app. f_equal. rewrite filter_cons.
  destruct (String.prefix _ line); by case_decide.
Qed.

Lemma failure_line err :
  String.prefix "Force screen wake-up failed: "
    ("Force screen wake-up failed: " +:+ err) = true.
Proof. by destruct err. Qed.

Lemma wakeUp_report_line err :
  String.prefix "Force screen wake-up failed: "
    ("Failed to wake up screen: " +:+ err) = false.
Proof. reflexivity. Qed.

(** The report of [wakeUpScreen] is not one of [forceScreenWakeUp]. *)
Lemma wakeUpScreen_failures ans d :
  failures (wakeUpScreen ans d).2 = failures d.
Proof.
  unfold failures.
  destruct (wakeUpScreen_errors ans d) as [->|[err ->]]; [done|].
  rewrite failures_snoc, wakeUp_report_line. lia.
Qed.

Lemma promiseResolved_failures call left d :
  failures (promiseResolved call left d) = failures d.
Proof. unfold promiseResolved. by destruct left as [[] []]. Qed.

(** One of the promises of an awaited call resolves. *)
Lemma promiseResolved_accounted call wake n d :
  is_Some (awaiting d !! call) →
  (∀ c, c ≠ call → callAccounted d c) →
  n = pendingOf call d → (wake = true ∨ 0 < n ∨ (wake, n) = (false, 0)) →
  call < nextCall d → call ∉ orphans d →
  promisesAccounted (promiseResolved call (wake, n) d)
  ∧ completions (promiseResolved call (wake, n) d)
    + size (awaiting (promiseResolved call (wake, n) d))
    = completions d + size (awaiting d).
Proof.
  intros Hs Hothers Hn Hleft Hlt Hno. unfold promiseResolved.
  assert (Hcase : (wake, n) = (false, 0) ∨ (wake = true ∨ 0 < n)).
  { destruct Hleft as [?|[?|?]]; auto. }
  destruct Hcase as [[= -> ->]|Hpos].
  - split.
    + intros c. unfold callAccounted, pendingOf. simpl.
      destruct (decide (c = call)) as [->|Hne].
      * rewrite lookup_delete_eq. intros. lia.
      * rewrite lookup_delete_ne by done. apply (Hothers c Hne).
    + change (completions (with_awaiting ?a ?d')) with (completions d').
      rewrite completions_log, decide_True by done.
      pose proof (awaited_size _ _ Hs). simpl. lia.
  - assert (Heq : (match (wake, n) with
                   | (false, 0) =>
                       with_awaiting (delete call (awaiting d))
                         (with_devWorld
                            (console_log "Force screen wake-up completed"
                               (devWorld d)) d)
                   | _ => with_awaiting (<[call := (wake, n)]> (awaiting d)) d
                   end)
                  = with_awaiting (<[call := (wake, n)]> (awaiting d)) d).
    { destruct wake, n; try done. destruct Hpos; [done|lia]. }
    rewrite Heq. split.
    + intros c. unfold callAccounted, pendingOf. simpl.
      destruct (decide (c = call)) as [->|Hne].
      * rewrite lookup_insert_eq. done.
      * rewrite lookup_insert_ne by done. apply (Hothers c Hne).
    + simpl. rewrite map_size_insert_Some by done.
      unfold completions. done.
Qed.

Lemma callsUntouched_accounted d d' call :
  callsUntouched d d' → callAccounted d call → callAccounted d' call.
Proof.
  intros (Ha & Hn & Ho & Hp & _). unfold callAccounted.
  by rewrite Ha, Hn, Ho, Hp.
Qed.

(** A timer fires: the calls it does not belong to are as before. *)
Lemma dropped_accounted d0 d t ts c :
  callAccounted d0 c → t ∈ timers d0 →
  awaiting d = awaiting d0 → nextCall d = nextCall d0 →
  orphans d = orphans d0 →
  timers d = dropTimer t (timers d0) ++ ts →
  length (filter (λ t, callOf t = Some c) ts)
  = (if decide (callOf t = Some c) then 1 else 0) →
  callAccounted d c.
Proof.
  intros Hacc Hin Ha Hn Ho Ht Hts.
  unfold callAccounted, pendingOf in *. rewrite Ha, Hn, Ho, Ht.
  rewrite filter_app, length_app, Hts.
  pose proof (pending_drop c _ _ Hin) as Hd. by rewrite Hd.
Qed.

(** A timer of a call resolves its promise when the call is awaited. *)
Lemma resolveFor_accounted call d0 d t :
  promisesAccounted d0 → t ∈ timers d0 → callOf t = Some call →
  awaiting d = awaiting d0 → nextCall d = nextCall d0 →
  orphans d = orphans d0 →
  timers d = dropTimer t (timers d0) → completions d = completions d0 →
  failures d = failures d0 →
  promisesAccounted (resolveFor call d)
  ∧ completions (resolveFor call d) + failures (resolveFor call d)
    + size (awaiting (resolveFor call d))
    = completions d0 + failures d0 + size (awaiting d0).
Proof.
  intros Hacc Hin Hc Ha Hn Ho Ht Hcompl Hfail.
  pose proof (pending_drop call _ _ Hin) as Hd.
  rewrite decide_True in Hd by done.
  assert (Hothers : ∀ c, c ≠ call → callAccounted d c).
  { intros c Hne. specialize (Hacc c). unfold callAccounted in *.
    rewrite Ha, Hn, Ho. unfold pendingOf in *. rewrite Ht.
    pose proof (pending_drop c _ _ Hin) as Hdc.
    rewrite decide_False in Hdc by congruence.
    by replace (length (filter (λ t, callOf t = Some c)
                          (dropTimer t (timers d0))))
      with (length (filter (λ t, callOf t = Some c) (timers d0))) by lia. }
  pose proof (Hacc call) as Hcall. unfold callAccounted in Hcall.
  unfold resolveFor. rewrite Ha.
  destruct (awaiting d0 !! call) as [[wake n]|] eqn:Hl.
  - destruct Hcall as (Hpn & Hw & Hlt & Hno).
    unfold pendingOf in Hpn.
    destruct n as [|n]; [lia|].
    rewrite promiseResolved_failures.
    destruct (promiseResolved_accounted call wake n d) as [Hacc' Hsum].
    + rewrite Ha, Hl. by eexists.
    + done.
    + unfold pendingOf. rewrite Ht. lia.
    + destruct wake, n; auto; right; left; lia.
    + by rewrite Hn.
    + by rewrite Ho.
    + split; [done|]. rewrite Ha, Hcompl in Hsum. lia.
  - split; [|rewrite Ha, Hcompl, Hfail; lia].
    intros c. destruct (decide (c = call)) as [->|Hne]; [|by apply Hothers].
    unfold callAccounted. rewrite Ha, Hl, Hn. intros Hle.
    destruct (Hcall Hle) as [Hz _]. unfold pendingOf in Hz. lia.
Qed.

(** A timer fires that resolves nothing. *)
Lemma unresolved_accounted d0 d t ts :
  promisesAccounted d0 → t ∈ timers d0 →
  awaiting d = awaiting d0 → nextCall d = nextCall d0 →
  orphans d = orphans d0 →
  timers d = dropTimer t (timers d0) ++ ts →
  (∀ c, length (filter (λ t, callOf t = Some c) ts)
        = if decide (callOf t = Some c) then 1 else 0) →
  promisesAccounted d.
Proof.
  intros Hacc Hin Ha Hn Ho Ht Hts c.
  by apply (dropped_accounted d0 d t ts).
Qed.

Lemma closeFromTimer_console c w :
  console (closeFromTimer c w) = console w.
Proof.
  unfold closeFromTimer. by destruct (audioContexts w !! c) as [[]|].
Qed.

(** What a call of [forceScreenWakeUp] has written when it stops at its
    [await] or has gone through its [catch]. *)
Lemma start_accounts a d :
  nextCall (forceScreenWakeUp_start a d).2 = S (nextCall d)
  ∧ completions (forceScreenWakeUp_start a d).2 = completions d
  ∧ (∀ c, c ≠ nextCall d →
          pendingOf c (forceScreenWakeUp_start a d).2 = pendingOf c d)
  ∧ match executorThrows a d with
    | Some err =>
        awaiting (forceScreenWakeUp_start a d).2 = awaiting d
        ∧ orphans (forceScreenWakeUp_start a d).2
          = {[nextCall d]} ∪ orphans d
        ∧ failures (forceScreenWakeUp_start a d).2 = S (failures d)
    | None =>
        ∃ n, awaiting (forceScreenWakeUp_start a d).2
             = <[nextCall d := (true, n)]> (awaiting d)
             ∧ pendingOf (nextCall d) (forceScreenWakeUp_start a d).2
               = pendingOf (nextCall d) d + n
             ∧ orphans (forceScreenWakeUp_start a d).2 = orphans d
             ∧ failures (forceScreenWakeUp_start a d).2 = failures d
    end.
Proof.
  rewrite start_runs. cbv zeta.
  assert (Hfail : ∀ err l,
            length (filter (λ line,
                              String.prefix "Force screen wake-up failed: "
                                line = true)
                           (l ++ ["Force screen wake-up failed: " +:+ err]))
            = S (length (filter (λ line,
                                   String.prefix
                                     "Force screen wake-up failed: " line
                                   = true) l))).
  { intros err l. rewrite failures_snoc, failure_line. lia. }
  split_and!.
  - by destruct (executorThrows a d), (screenHasKeepAwake d), (hasBody d).
  - by destruct (executorThrows a d), (screenHasKeepAwake d), (hasBody d).
  - intros c Hne. unfold pendingOf.
    destruct (executorThrows a d), (screenHasKeepAwake d), (hasBody d);
      simpl; rewrite ?pending_snoc; simpl;
      rewrite ?decide_False by congruence; lia.
  - unfold failures, pendingOf.
    destruct (executorThrows a d) as [err|]; simpl.
    + destruct (hasBody d); simpl; split_and!; try done; apply Hfail.
    + eexists. split; [reflexivity|].
      destruct (screenHasKeepAwake d), (hasBody d); simpl;
        rewrite ?pending_snoc; simpl; rewrite ?decide_True by done;
        split_and!; try done; lia.
Qed.

Lemma orphanRan_accounted call ans d :
  promisesAccounted d →
  promisesAccounted (orphanRan call ans d)
  ∧ completions (orphanRan call ans d) + failures (orphanRan call ans d)
    + size (awaiting (orphanRan call ans d))
    = completions d + failures d + size (awaiting d).
Proof.
  intros Hacc. unfold orphanRan. case_bool_decide as Hin; [|done].
  set (d0 := with_orphans (orphans d ∖ {[call]}) d).
  destruct (wakeUpScreen_callsUntouched ans d0) as (Ha & Hn & Ho & Hp & Hc).
  rewrite wakeUpScreen_failures, Ha, Hc. split; [|done].
  intros c. specialize (Hacc c). unfold callAccounted in *.
  rewrite Ha, Hn, Ho, Hp. simpl.
  change (pendingOf c d0) with (pendingOf c d).
  destruct (awaiting d !! c) as [[wake n]|].
  - destruct Hacc as (? & ? & ? & ?). split_and!; [done..|set_solver].
  - intros Hle. destruct (Hacc Hle). split; [done|set_solver].
Qed.

Lemma accounted_step e d :
  promisesAccounted d →
  promisesAccounted (deviceStep e d)
  ∧ completions (deviceStep e d) + failures (deviceStep e d)
    + size (awaiting (deviceStep e d))
    = completions d + failures d + size (awaiting d)
      + (if isForceCall e then 1 else 0).
Proof.
  intros Hacc. destruct e as [ans|a|call ans|t]; simpl.
  - destruct (wakeUpScreen_callsUntouched ans d) as (Ha & Hn & Ho & Hp & Hc).
    split.
    + intros c. by apply (callsUntouched_accounted d).
    + rewrite Ha, Hc, wakeUpScreen_failures. lia.
  - destruct (start_accounts a d) as (Hn & Hc & Hp & Hcase).
    pose proof (Hacc (nextCall d)) as Hnew. unfold callAccounted in Hnew.
    destruct (awaiting d !! nextCall d) as [[wake n]|] eqn:Hl; [lia|].
    destruct (Hnew (le_n _)) as [Hzero Hfresh].
    destruct (executorThrows a d) as [err|].
    + destruct Hcase as (Ha & Ho & Hf). split; [|rewrite Ha, Hc, Hf; lia].
      intros c. specialize (Hacc c). unfold callAccounted in *.
      rewrite Ha, Hn, Ho.
      destruct (decide (c = nextCall d)) as [->|Hne].
      * rewrite Hl. intros. lia.
      * rewrite Hp by done.
        destruct (awaiting d !! c) as [[wake n]|].
        -- destruct Hacc as (? & ? & ? & ?).
           split_and!; [done|done|lia|set_solver].
        -- intros Hle. destruct Hacc as [? ?]; [lia|].
           split; [done|set_solver].
    + destruct Hcase as (n & Ha & Hpn & Ho & Hf).
      split; [|rewrite Ha, Hc, Hf, map_size_insert_None by done; lia].
      intros c. specialize (Hacc c). unfold callAccounted in *.
      rewrite Ha, Hn, Ho.
      destruct (decide (c = nextCall d)) as [->|Hne].
      * rewrite lookup_insert_eq. split_and!; [lia|by left|lia|done].
      * rewrite lookup_insert_ne, Hp by done.
        destruct (awaiting d !! c) as [[wake n']|].
        -- destruct Hacc as (? & ? & ? & ?). split_and!; [done|done|lia|done].
        -- intros Hle. apply Hacc. lia.
  - rewrite afterWakeUp_runs. simpl. rewrite Nat.add_0_r.
    destruct (awaiting d !! call) as [[[] n]|] eqn:Hl;
      try by apply orphanRan_accounted.
    pose proof (wakeUpScreen_callsUntouched ans d) as Hu.
    destruct Hu as (Ha & Hn & Ho & Hp & Hc).
    pose proof (wakeUpScreen_failures ans d) as Hf.
    set (d1 := (wakeUpScreen ans d).2) in *.
    pose proof (Hacc call) as Hcall. unfold callAccounted in Hcall.
    rewrite Hl in Hcall. destruct Hcall as (Hpn & _ & Hlt & Hno).
    unfold wakeUpResolved. rewrite Ha, Hl, promiseResolved_failures.
    destruct (promiseResolved_accounted call false n d1) as [Hacc' Hsum].
    + rewrite Ha, Hl. by eexists.
    + intros c _. apply (callsUntouched_accounted d); [done|apply Hacc].
    + by rewrite Hp.
    + destruct n; [auto|right; left; lia].
    + by rewrite Hn.
    + by rewrite Ho.
    + split; [done|]. rewrite Ha, Hc in Hsum. lia.
  - unfold fireTimer. case_decide as Ht; [|split; [done|lia]].
    rewrite Nat.add_0_r.
    destruct t as [n|c|call|call f|call f]; simpl.
    + split; [|done].
      apply (unresolved_accounted d _ (CloseNotification n) []);
        [done|done|done|done|done|simpl; by rewrite app_nil_r|].
      intros c. by rewrite decide_False.
    + split.
      * apply (unresolved_accounted d _ (CloseContext c) []);
          [done|done|done|done|done|simpl; by rewrite app_nil_r|].
        intros c'. by rewrite decide_False.
      * unfold completions. simpl. by rewrite closeFromTimer_console.
    + by apply (resolveFor_accounted call d _ (KeepAwakeOff call)).
    + split; [|done].
      apply (unresolved_accounted d _ (FlashDim call f)
               [FlashRestore call f]); [done..|].
      intros c. rewrite filter_cons. simpl.
      destruct (decide (Some call = Some c)); done.
    + by apply (resolveFor_accounted call d _ (FlashRestore call f)).
Qed.

Lemma accounted_run es d :
  promisesAccounted d →
  promisesAccounted (deviceRun es d)
  ∧ completions (deviceRun es d) + failures (deviceRun es d)
    + size (awaiting (deviceRun es d))
    = completions d + failures d + size (awaiting d) + forceCalls es.
Proof.
  revert d. induction es as [|e es IH]; intros d Hacc.
  { split; [done|]. unfold forceCalls. simpl. lia. }
  destruct (accounted_step e d Hacc) as [Hacc1 Hc1].
  destruct (IH _ Hacc1) as [Hacc2 Hc2].
  split; [done|]. simpl. rewrite Hc2, Hc1.
  unfold forceCalls. rewrite filter_cons.
  destruct (isForceCall e); simpl; lia.
Qed.


(** X19. A call of [forceScreenWakeUp] is not awaited for nothing: after
    any sequence of events, a call whose [Promise.all] is pending waits
    for each of its pending timers, and either for its [wakeUpScreen()]
    or for a timer; its [wakeUpScreen()] is not one that runs on after a
    rejection. *)
Theorem awaited_call_waits_for_pending_work es d call wake n :
  promisesAccounted d →
  awaiting (deviceRun es d) !! call = Some (wake, n) →
  n = pendingOf call (deviceRun es d)
  ∧ (wake = true
     ∨ ∃ t, t ∈ timers (deviceRun es d) ∧ callOf t = Some call)
  ∧ call ∉ orphans (deviceRun es d).
Proof.
  intros Hacc Hl. destruct (accounted_run es d Hacc) as [Hrun _].
  specialize (Hrun call). unfold callAccounted, pendingOf in Hrun.
  rewrite Hl in Hrun. destruct Hrun as (Hn & Hw & _ & Hno).
  split_and!; [done| |done].
  destruct Hw as [?|Hpos]; [by left|]. right.
  rewrite Hn in Hpos.
  destruct (filter (λ t, callOf t = Some call) (timers (deviceRun es d)))
    as [|t l] eqn:Hf; [simpl in Hpos; lia|].
  assert (Hin : t ∈ filter (λ t, callOf t = Some call)
                      (timers (deviceRun es d))).
  { rewrite Hf. by left. }
  apply list_elem_of_filter in Hin as [? ?]. by exists t.
Qed.

End Accounting.

Section ErrorFacts.

Implicit Types (ans : WakeAnswers) (d : Device) (t : Timer).

Lemma executorThrows_answer a d err :
  executorThrows a d = Some err →
  a = KeepAwakeTestThrows err ∨ a = KeepAwakeAssignThrows err.
Proof.
  destruct a as [|e|e]; simpl; [done|intros [= ->]; by left|].
  destruct (screenHasKeepAwake d); [intros [= ->]; by right|done].
Qed.

Lemma errors_step e d :
  errors (deviceStep e d) = errors d
  ∨ (∃ err, errors (deviceStep e d)
            = errors d ++ ["Failed to wake up screen: " +:+ err])
  ∨ (∃ a err, e = ForceCalled a ∧ executorThrows a d = Some err
              ∧ errors (deviceStep e d)
                = errors d ++ ["Force screen wake-up failed: " +:+ err]).
Proof.
  set (P := λ d', errors d' = errors d
              ∨ (∃ err, errors d'
                        = errors d ++ ["Failed to wake up screen: " +:+ err])
              ∨ (∃ a err, e = ForceCalled a ∧ executorThrows a d = Some err
                          ∧ errors d'
                            = errors d
                              ++ ["Force screen wake-up failed: " +:+ err])).
  change (P (deviceStep e d)).
  assert (Hsame : ∀ d', errors d' = errors d → P d') by (intros; by left).
  assert (Hwake : ∀ ans d0, errors d0 = errors d → P (wakeUpScreen ans d0).2).
  { intros ans d0 He0. unfold P. rewrite <-He0.
    destruct (wakeUpScreen_errors ans d0) as [?|?]; [by left|right; by left]. }
  destruct e as [ans|a|call ans|t]; simpl.
  - by apply Hwake.
  - rewrite start_runs. cbv zeta.
    destruct (executorThrows a d) as [err|] eqn:Hthrow.
    + right. right. exists a, err. split_and!; [done|done|].
      by destruct (hasBody d).
    + apply Hsame. by destruct (screenHasKeepAwake d), (hasBody d).
  - rewrite afterWakeUp_runs. simpl.
    destruct (awaiting d !! call) as [[[] n]|];
      try (apply orphanRan_cases; [by apply Hsame|by apply Hwake]).
    destruct (wakeUpResolved_rest call (wakeUpScreen ans d).2)
      as (a & w & Heq).
    assert (He : errors (wakeUpResolved call (wakeUpScreen ans d).2)
                 = errors (wakeUpScreen ans d).2) by by rewrite Heq.
    pose proof (Hwake ans d eq_refl) as Hw. unfold P in *.
    by rewrite He.
  - apply Hsame. unfold fireTimer. case_decide as Ht; [|done].
    destruct t as [n|c|call|call f|call f]; simpl; try done.
    + by destruct (resolveFor_rest call
                     (with_keepAwake false
                        (with_timers
                           (dropTimer (KeepAwakeOff call) (timers d)) d)))
        as (a & w & ->).
    + by destruct (resolveFor_rest call
                     (with_bodyFilter f
                        (with_timers
                           (dropTimer (FlashRestore call f) (timers d)) d)))
        as (a & w & ->).
Qed.

(** X20. The [catch] of [forceScreenWakeUp] runs only for an executor that
    throws: [wakeUpScreen] swallows its own errors, so whatever the helpers
    and their timers do, a line they add to [console.error] is a report of
    [wakeUpScreen], or it says that the forced wake-up failed with the
    error that the executor of the second promise of one of the calls
    threw. *)
Theorem force_catch_reports_executor_throw es d line :
  line ∈ errors (deviceRun es d) →
  line ∈ errors d
  ∨ (∃ err, line = "Failed to wake up screen: " +:+ err)
  ∨ (∃ a err, ForceCalled a ∈ es
              ∧ (a = KeepAwakeTestThrows err ∨ a = KeepAwakeAssignThrows err)
              ∧ line = "Force screen wake-up failed: " +:+ err).
Proof.
  revert d. induction es as [|e es IH]; intros d; [by left|].
  simpl. intros [Hin|[Hnew|(a & err & Ha & Hthrow & ->)]]%IH.
  - destruct (errors_step e d)
      as [Heq|[[err Heq]|(a & err & -> & Hthrow & Heq)]];
      rewrite Heq in Hin; [by left| |].
    + apply elem_of_app in Hin as [Hin|Hin]; [by left|].
      right. left. exists err. by apply list_elem_of_singleton in Hin.
    + apply elem_of_app in Hin as [Hin|Hin]; [by left|].
      right. right. exists a, err. split_and!.
      * by left.
      * by apply (executorThrows_answer a d).
      * by apply list_elem_of_singleton in Hin.
  - right. by left.
  - right. right. exists a, err. split_and!; [by right|done|done].
Qed.

End ErrorFacts.

Section FlashFacts.

Implicit Types (ans : WakeAnswers) (d : Device) (t : Timer)
  (l : list Timer).

Local Open Scope nat_scope.

Lemma fireTimer_pending t d :
  t ∈ timers d →
  fireTimer t d = runTimer t (with_timers (dropTimer t (timers d)) d).
Proof. intros Hin. unfold fireTimer. by rewrite decide_True. Qed.

Lemma no_flash_filter l :
  (∀ t, t ∈ l → isFlash t = false) ↔ filter (λ t, isFlash t = true) l = [].
Proof.
  split.
  - induction l as [|t l IH]; [done|]. intros Hall.
    rewrite filter_cons_False.
    + apply IH. intros t' Hin. apply Hall. by right.
    + rewrite (Hall t); [done|by left].
  - intros Hf t Hin. destruct (isFlash t) eqn:Hfl; [|done].
    assert (Ht : t ∈ filter (λ t, isFlash t = true) l)
      by by apply list_elem_of_filter.
    rewrite Hf in Ht. by apply elem_of_nil in Ht.
Qed.

Lemma flashing_frame f d d' :
  bodyFilter d' = bodyFilter d →
  filter (λ t, isFlash t = true) (timers d')
  = filter (λ t, isFlash t = true) (timers d) →
  flashing f d → flashing f d'.
Proof. unfold flashing. by intros -> ->. Qed.

Lemma wakeUpScreen_flashing ans d :
  bodyFilter (wakeUpScreen ans d).2 = bodyFilter d
  ∧ filter (λ t, isFlash t = true) (timers (wakeUpScreen ans d).2)
    = filter (λ t, isFlash t = true) (timers d).
Proof.
  assert (Hk : keeps (λ d, (bodyFilter d,
                            filter (λ t, isFlash t = true) (timers d)))
                 (wakeUpScreen ans)).
  { apply wakeUpScreen_respects; [apply _| |done..].
    split; intros; simpl; try done;
      by rewrite filter_app, filter_cons_False, filter_nil, app_nil_r. }
  specialize (Hk d). simpl in Hk. by injection Hk as -> ->.
Qed.

Lemma flashing_step f e d :
  isForceCall e = false → flashing f d → flashing f (deviceStep e d).
Proof.
  intros He Hfl. destruct e as [ans|a|call ans|t]; simpl; [|done| |].
  - destruct (wakeUpScreen_flashing ans d) as [Hb Ht].
    by apply (flashing_frame f d).
  - rewrite afterWakeUp_runs. simpl.
    destruct (awaiting d !! call) as [[[] n]|];
      try (apply orphanRan_cases; [done|];
           destruct (wakeUpScreen_flashing ans
                       (with_orphans (orphans d ∖ {[call]}) d)) as [Hb Ht];
           by apply (flashing_frame f d)).
    destruct (wakeUpResolved_rest call (wakeUpScreen ans d).2)
      as (a & w & ->).
    destruct (wakeUpScreen_flashing ans d) as [Hb Ht].
    by apply (flashing_frame f d).
  - unfold fireTimer. case_decide as Hin; [|done].
    unfold flashing in *.
    destruct t as [n|c|call|call f'|call f']; simpl.
    + by rewrite filter_dropTimer, decide_False.
    + by rewrite filter_dropTimer, decide_False.
    + destruct (resolveFor_rest call
                  (with_keepAwake false
                     (with_timers (dropTimer (KeepAwakeOff call) (timers d))
                        d))) as (a & w & ->). simpl.
      by rewrite filter_dropTimer, decide_False.
    + rewrite filter_app, filter_dropTimer, decide_True by done.
      rewrite filter_cons_True, filter_nil by done.
      assert (Ht : FlashDim call f'
                   ∈ filter (λ t, isFlash t = true) (timers d))
        by by apply list_elem_of_filter.
      destruct (filter (λ t, isFlash t = true) (timers d))
        as [|t0 [|t1 l]]; [by apply elem_of_nil in Ht| |by destruct t0].
      apply list_elem_of_singleton in Ht. subst t0. simpl.
      by rewrite decide_True.
    + destruct (resolveFor_rest call
                  (with_bodyFilter f'
                     (with_timers
                        (dropTimer (FlashRestore call f') (timers d)) d)))
        as (a & w & ->). simpl.
      rewrite filter_dropTimer, decide_True by done.
      assert (Ht : FlashRestore call f'
                   ∈ filter (λ t, isFlash t = true) (timers d))
        by by apply list_elem_of_filter.
      destruct (filter (λ t, isFlash t = true) (timers d))
        as [|t0 [|t1 l]]; [by apply elem_of_nil in Ht| |by destruct t0].
      apply list_elem_of_singleton in Ht. subst t0. simpl.
      by rewrite decide_True.
Qed.

Lemma flashing_run f es d :
  forceCalls es = 0 → flashing f d → flashing f (deviceRun es d).
Proof.
  revert d. induction es as [|e es IH]; intros d Hes Hfl; [done|].
  unfold forceCalls in Hes. rewrite filter_cons in Hes.
  destruct (isForceCall e) eqn:He; [done|].
  simpl. apply IH; [done|]. by apply flashing_step.
Qed.

(** X21. The brightness flash is a round trip: when [forceScreenWakeUp]
    is called on a page with a body and no flash in progress, and is not
    called again, then once the timers of the flash have fired the filter
    of the body is what it was before the call, whatever else the helpers
    and their timers did in between. *)
Theorem flash_restores_the_filter a es d :
  hasBody d = true →
  (∀ t, t ∈ timers d → isFlash t = false) →
  forceCalls es = 0 →
  (∀ t, t ∈ timers (deviceRun (ForceCalled a :: es) d) →
        isFlash t = false) →
  bodyFilter (deviceRun (ForceCalled a :: es) d) = bodyFilter d.
Proof.
  intros Hb Hnone Hes Hdone. simpl in *.
  assert (Hstart : flashing (bodyFilter d) (forceScreenWakeUp_start a d).2).
  { apply no_flash_filter in Hnone. unfold flashing.
    rewrite start_runs. cbv zeta. rewrite Hb.
    destruct (executorThrows a d), (screenHasKeepAwake d); simpl;
      rewrite !filter_app, Hnone, !filter_cons; simpl; done. }
  pose proof (flashing_run _ es _ Hes Hstart) as Hend.
  apply no_flash_filter in Hdone. unfold flashing in Hend.
  by rewrite Hdone in Hend.
Qed.

End FlashFacts.

Section OverlapFacts.

Implicit Types (d : Device) (t : Timer).

Lemma start_flash a d :
  hasBody d = true →
  FlashDim (nextCall d) (bodyFilter d)
  ∈ timers (forceScreenWakeUp_start a d).2
  ∧ bodyFilter (forceScreenWakeUp_start a d).2 = "brightness(2)"
  ∧ nextCall (forceScreenWakeUp_start a d).2 = S (nextCall d)
  ∧ hasBody (forceScreenWakeUp_start a d).2 = true
  ∧ timersGrow d (forceScreenWakeUp_start a d).2.
Proof.
  intros Hb. rewrite start_runs. cbv zeta. rewrite Hb.
  destruct (executorThrows a d), (screenHasKeepAwake d); simpl;
    split_and!; try done; try (intros t Ht; simpl); set_solver.
Qed.

Lemma fire_dim call f d :
  FlashDim call f ∈ timers d →
  FlashRestore call f ∈ timers (fireTimer (FlashDim call f) d).
Proof.
  intros Hin. rewrite fireTimer_pending by done. simpl.
  apply elem_of_app. right. by apply list_elem_of_here.
Qed.

Lemma fire_restore call f d :
  FlashRestore call f ∈ timers d →
  bodyFilter (fireTimer (FlashRestore call f) d) = f.
Proof.
  intros Hin. rewrite fireTimer_pending by done. simpl.
  by destruct (resolveFor_rest call
                 (with_bodyFilter f
                    (with_timers
                       (dropTimer (FlashRestore call f) (timers d)) d)))
    as (a & w & ->).
Qed.

(** X22. Two calls of [forceScreenWakeUp] in quick succession leave the
    page too bright: the second call takes the [brightness(2)] of the
    first for the original filter, and once all four timers of the two
    flashes have fired in the order they were set, the filter of the body
    is [brightness(2)], whatever it was before. *)
Theorem overlapping_flashes_stay_bright a1 a2 d :
  hasBody d = true →
  bodyFilter
    (deviceRun
       [ForceCalled a1; ForceCalled a2;
        TimerFires (FlashDim (nextCall d) (bodyFilter d));
        TimerFires (FlashDim (S (nextCall d)) "brightness(2)");
        TimerFires (FlashRestore (nextCall d) (bodyFilter d));
        TimerFires (FlashRestore (S (nextCall d)) "brightness(2)")] d)
  = "brightness(2)".
Proof.
  intros Hb. simpl.
  destruct (start_flash a1 d Hb) as (Hdim1 & Hf1 & Hn1 & Hb1 & Hg1).
  set (d1 := (forceScreenWakeUp_start a1 d).2) in *.
  destruct (start_flash a2 d1 Hb1) as (Hdim2 & _ & _ & _ & Hg2).
  rewrite Hf1, Hn1 in Hdim2.
  set (d2 := (forceScreenWakeUp_start a2 d1).2) in *.
  apply Hg2 in Hdim1.
  pose proof (fire_dim _ _ _ Hdim1) as Hr1.
  assert (Hdim2' : FlashDim (S (nextCall d)) "brightness(2)"
                   ∈ timers (fireTimer (FlashDim (nextCall d) (bodyFilter d))
                               d2)).
  { apply fireTimer_others; [done|]. intros [= ? _]. lia. }
  set (d3 := fireTimer (FlashDim (nextCall d) (bodyFilter d)) d2) in *.
  pose proof (fire_dim _ _ _ Hdim2') as Hr2.
  set (d4 := fireTimer (FlashDim (S (nextCall d)) "brightness(2)") d3) in *.
  assert (Hr2' : FlashRestore (S (nextCall d)) "brightness(2)"
                 ∈ timers (fireTimer
                             (FlashRestore (nextCall d) (bodyFilter d)) d4)).
  { apply fireTimer_others; [done|]. intros [= ? _]. lia. }
  by apply fire_restore.
Qed.

End OverlapFacts.

(** *** The silent tone *)

Global Instance contextTimersKept_preorder : PreOrder contextTimersKept.
Proof.
  split; [by intros d; split; unfold handlesGrow|].
  intros d1 d2 d3 [Hh1 Ht1] [Hh2 Ht2]. split; [|congruence].
  unfold handlesGrow in *. lia.
Qed.

Section ToneFacts.

Implicit Types (ans : WakeAnswers) (d : Device) (t : Timer).

Lemma returnsWith_frame {A} (R : relation Device) (c : Js A) d :
  returnsWith c d (λ _ _, True) → respects R c →
  returnsWith c d (λ _ d', R d d').
Proof.
  intros (a & d1 & Hc & _) HR. exists a, d1. split; [done|].
  specialize (HR d). by rewrite Hc in HR.
Qed.

Lemma requestWakeLock_handlesGrow r w :
  handlesGrow w (requestWakeLock r w).2.
Proof.
  unfold handlesGrow, requestWakeLock.
  destruct (wakeLockSupported w); [destruct r|]; simpl; lia.
Qed.

Local Ltac kept :=
  intros; split; unfold handlesGrow; simpl;
  rewrite ?filter_app, ?filter_cons_False, ?filter_nil, ?app_nil_r by done;
  first [done | lia].

(** The methods before the tone, when none of them throws. *)
Lemma methods_before_tone ans d (Q : unit → Device → Prop) :
  focusAnswer ans = None → dispatchAnswer ans = None →
  vibrateAnswer ans = None →
  (∀ d4, contextTimersKept d d4 →
         returnsWith
           (wakeMethod5 ans ;;;
            consoleLog "All screen wake-up methods executed") d4 Q) →
  returnsWith (wakeBody ans) d Q.
Proof.
  intros Hf Hd Hv Htone. unfold wakeBody.
  apply (returnsWith_bind _ _ d (λ _ d1, contextTimersKept d d1)).
  { apply returnsWith_frame.
    - eexists tt, _. split; [apply wakeMethod1_runs|done].
    - apply wakeMethod1_respects; [apply _|]. intros r d0. split; [|done].
      apply requestWakeLock_handlesGrow. }
  intros _ d1 H1.
  apply (returnsWith_bind _ _ d1 (λ _ d2, contextTimersKept d1 d2)).
  { apply returnsWith_frame.
    - eapply returnsWith_wand; [by apply wakeMethod2_runs|done].
    - apply wakeMethod2_respects; [apply _|kept..]. }
  intros _ d2 H2.
  apply (returnsWith_bind _ _ d2 (λ _ d3, contextTimersKept d2 d3)).
  { apply returnsWith_frame.
    - eexists tt, _. split; [by apply wakeMethod3_runs|done].
    - apply wakeMethod3_respects; [apply _|kept]. }
  intros _ d3 H3.
  apply (returnsWith_bind _ _ d3 (λ _ d4, contextTimersKept d3 d4)).
  { apply returnsWith_frame; [apply wakeMethod4_returns|].
    apply wakeMethod4_respects; [apply _|kept..]. }
  intros _ d4 H4. apply Htone.
  etrans; [exact H1|]. etrans; [exact H2|]. by etrans.
Qed.

(** X23. When the calls that follow the construction of the audio context
    throw, [wakeUpScreen] leaves the context open: the timer that closes
    it is set at the end of the [try], so the context keeps running and
    no timer is pending for it. *)
Theorem broken_tone_leaves_context_open ans d err :
  focusAnswer ans = None → dispatchAnswer ans = None →
  vibrateAnswer ans = None →
  toneAnswer ans = ToneBreaks err →
  (∀ c, CloseContext c ∈ timers d → (c < nextHandle (devWorld d))%positive) →
  ∃ c d', wakeUpScreen ans d = (Returned tt, d')
    ∧ audioContexts (devWorld d') !! c = Some CtxRunning
    ∧ CloseContext c ∉ timers d'.
Proof.
  intros Hf Hd Hv Htone Hbelow.
  assert (Hbody : returnsWith (wakeBody ans) d
            (λ _ d', ∃ c, audioContexts (devWorld d') !! c = Some CtxRunning
                          ∧ CloseContext c ∉ timers d')).
  { apply methods_before_tone; try done. intros d4 [Hh Ht].
    unfold returnsWith, bind, wakeMethod5, tryCatch. rewrite Htone. simpl.
    eexists tt, _. split; [done|].
    exists (nextHandle (devWorld d4)). simpl.
    split; [by rewrite lookup_insert_eq|].
    intros Hin.
    assert (Hin' : CloseContext (nextHandle (devWorld d4))
                   ∈ filter (λ t, closesContext t = true) (timers d4))
      by by apply list_elem_of_filter.
    rewrite Ht in Hin'. apply list_elem_of_filter in Hin' as [_ Hin'].
    apply Hbelow in Hin'. unfold handlesGrow in Hh. lia. }
  destruct Hbody as ([] & d' & Hrun & c & Hc & Hno).
  exists c, d'. unfold wakeUpScreen, tryCatch. by rewrite Hrun.
Qed.

(** X24. When the silent tone starts, its context is closed by its timer:
    [wakeUpScreen] leaves the context running with the timer pending, and
    when the timer fires the context is closed and nothing is left
    unhandled. *)
Theorem tone_context_is_closed_by_its_timer ans d :
  focusAnswer ans = None → dispatchAnswer ans = None →
  vibrateAnswer ans = None →
  toneAnswer ans = ToneStarts →
  ∃ c d', wakeUpScreen ans d = (Returned tt, d')
    ∧ audioContexts (devWorld d') !! c = Some CtxRunning
    ∧ CloseContext c ∈ timers d'
    ∧ audioContexts (devWorld (fireTimer (CloseContext c) d')) !! c
      = Some CtxClosed
    ∧ unhandled (devWorld (fireTimer (CloseContext c) d'))
      = unhandled (devWorld d').
Proof.
  intros Hf Hd Hv Htone.
  assert (Hbody : returnsWith (wakeBody ans) d
            (λ _ d', ∃ c, audioContexts (devWorld d') !! c = Some CtxRunning
                          ∧ CloseContext c ∈ timers d')).
  { apply methods_before_tone; try done. intros d4 _.
    unfold returnsWith, bind, wakeMethod5, tryCatch. rewrite Htone. simpl.
    eexists tt, _. split; [done|].
    exists (nextHandle (devWorld d4)). simpl.
    split; [by rewrite lookup_insert_eq|].
    apply elem_of_app. right. by apply list_elem_of_here. }
  destruct Hbody as ([] & d' & Hrun & c & Hc & Hin).
  exists c, d'. unfold wakeUpScreen, tryCatch. rewrite Hrun.
  split_and!; try done.
  - rewrite fireTimer_pending by done. simpl. unfold closeFromTimer.
    rewrite Hc. simpl. by rewrite lookup_insert_eq.
  - rewrite fireTimer_pending by done. simpl. unfold closeFromTimer.
    by rewrite Hc.
Qed.

End ToneFacts.

(** * The tracker's effect, continued *)

Section TrackerFacts.

Variable Keeper : Type.
Variables (start stop : Keeper → Keeper).
Variable schedule : list Signal → Keeper → Keeper.
Variable status : Keeper → bool.

(** X25. The cleanup of the tracker's effect has nothing to do after its
    own effect: when [stopBackgroundTask] leaves the task inactive, the
    cleanup that runs on the state the effect left makes no call. *)
Theorem cleanup_after_effect_does_nothing
    (signals : list Signal) (hc : bool) (k : Keeper) :
  (∀ k, status (stop k) = false) →
  backgroundCleanup Keeper stop status signals
    (backgroundEffect Keeper start stop schedule status signals hc k).1
  = ((backgroundEffect Keeper start stop schedule status signals hc k).1,
     []).
Proof.
  intros Hstop. unfold backgroundCleanup, backgroundEffect.
  destruct signals as [|s l]; simpl.
  - by rewrite Hstop.
  - destruct (negb (status k)); simpl; by rewrite andb_false_r.
Qed.

(** X26. With a collaborator whose [start] activates the task, whose
    [stop] deactivates it and whose scheduling leaves the status alone,
    the task is active after the effect exactly when signals are saved. *)
Theorem effect_leaves_task_active_iff_signals
    (signals : list Signal) (hc : bool) (k : Keeper) :
  (∀ k, status (start k) = true) →
  (∀ k, status (stop k) = false) →
  (∀ l k, status (schedule l k) = status k) →
  status (backgroundEffect Keeper start stop schedule status signals hc k).1
  = bool_decide (signals ≠ []).
Proof.
  intros Hstart Hstop Hsched. unfold backgroundEffect.
  destruct signals as [|s l]; simpl; [by rewrite Hstop|].
  destruct (status k) eqn:Hk; simpl; rewrite Hsched; [done|].
  by rewrite Hstart.
Qed.

End TrackerFacts.

(** * Further scenarios, evaluated *)

Lemma firing_rings_every_eligible_signal_witness :
  pending (@step specEvaluator (Tick 1 instantT) twoSaved)
  = pending twoSaved
    ++ (AwaitWakeLock <$> @fired specEvaluator 1 instantT twoSaved).
Proof.
  exact (proj1 (@firing_rings_every_eligible_signal specEvaluator twoSaved 1
                  instantT)).
Defined.

(** Both signals are accepted at their instant, and both ring. *)
Lemma twoSaved_both_fired :
  @fired specEvaluator 1 instantT twoSaved = [signalEUR; signalGBP].
Proof. vm_compute. reflexivity. Qed.

Lemma box_timer_rings_the_saved_signals_witness :
  @Reachable specEvaluator twoSaved
  ∧ intervalRef twoSaved = Some 1%positive
  ∧ savedSignals twoSaved ≠ []
  ∧ pending (@step specEvaluator (Tick 1 instantT) twoSaved)
    = pending twoSaved
      ++ (AwaitWakeLock <$> @eligible specEvaluator instantT twoSaved).
Proof.
  assert (Hreach : @Reachable specEvaluator twoSaved) by apply Reachable_mount.
  assert (Ht : intervalRef twoSaved = Some 1%positive)
    by (vm_compute; reflexivity).
  assert (Hs : savedSignals twoSaved ≠ []) by (vm_compute; discriminate).
  pose proof (@box_timer_rings_the_saved_signals specEvaluator twoSaved 1
                instantT Hreach Ht Hs) as Hthm.
  split; [exact Hreach|]. split; [exact Ht|].
  split; [exact Hs|exact (proj1 Hthm)].
Defined.

(** Both signals are eligible at their instant, and both ring. *)
Lemma twoSaved_both_ring :
  @eligible specEvaluator instantT twoSaved = [signalEUR; signalGBP].
Proof. vm_compute. reflexivity. Qed.

Lemma firing_displays_last_signal_witness :
  @Reachable specEvaluator twoSaved
  ∧ intervalRef twoSaved = Some 1%positive
  ∧ savedSignals twoSaved ≠ []
  ∧ currentRingingSignal (@step specEvaluator (Tick 1 instantT) twoSaved)
    = from_option Some (currentRingingSignal twoSaved)
        (last (@eligible specEvaluator instantT twoSaved)).
Proof.
  assert (Hreach : @Reachable specEvaluator twoSaved) by apply Reachable_mount.
  assert (Ht : intervalRef twoSaved = Some 1%positive)
    by (vm_compute; reflexivity).
  assert (Hs : savedSignals twoSaved ≠ []) by (vm_compute; discriminate).
  pose proof (@firing_displays_last_signal specEvaluator twoSaved 1
                instantT Hreach Ht Hs) as Hthm.
  cbv zeta in Hthm. destruct Hthm as [_ Hc].
  split; [exact Hreach|]. split; [exact Ht|]. split; [exact Hs|exact Hc].
Defined.

Lemma ringing_flag_matches_displayed_signal_witness :
  @Reachable specEvaluator ringing
  ∧ (isRinging ringing = true ↔ is_Some (currentRingingSignal ringing)).
Proof.
  assert (Hreach : @Reachable specEvaluator ringing)
    by apply Reachable_run, Reachable_mount.
  pose proof (@ringing_flag_matches_displayed_signal specEvaluator ringing
                Hreach) as Hthm.
  split; [exact Hreach|exact Hthm].
Defined.

Lemma marks_match_reports_witness :
  @Reachable specEvaluator rungOnce
  ∧ alreadyRangIds rungOnce
    = list_to_set (getSignalId <$> triggeredLog rungOnce).
Proof.
  assert (Hreach : @Reachable specEvaluator rungOnce)
    by apply Reachable_run, Reachable_mount.
  pose proof (@marks_match_reports specEvaluator rungOnce Hreach) as Hthm.
  split; [exact Hreach|exact Hthm].
Defined.

Lemma pressed_flag_is_never_stuck_witness :
  @Reachable specEvaluator lateGrant
  ∧ (ringOffButtonPressed lateGrant = true
     → (0 < timeouts (world lateGrant))%nat)
  ∧ ((0 < timeouts (world lateGrant))%nat
     → ringOffButtonPressed (@step specEvaluator PressedTimeout lateGrant)
       = false).
Proof.
  assert (Hreach : @Reachable specEvaluator lateGrant)
    by apply Reachable_run, Reachable_mount.
  pose proof (@pressed_flag_is_never_stuck specEvaluator lateGrant Hreach)
    as Hthm.
  split; [exact Hreach|exact Hthm].
Defined.

Lemma dismissal_silences_the_page_witness :
  audioAccounted rungOnce
  ∧ ∀ a e', audioElements (world (handleRingOff rungOnce)) !! a = Some e'
            → paused e' = true.
Proof.
  assert (Hacc : audioAccounted rungOnce)
    by apply (@Reachable_audioAccounted specEvaluator), Reachable_run,
         Reachable_mount.
  pose proof (dismissal_silences_the_page rungOnce Hacc) as Hthm.
  cbv zeta in Hthm. destruct Hthm as [Hp _].
  split; [exact Hacc|exact Hp].
Defined.

Lemma audio_started_after_dismissal_plays_witness :
  pending granted !! 0%nat = Some (AwaitAudio signalEUR)
  ∧ isRinging (@step specEvaluator (AudioSettles 0 (PlayElement false))
                 (handleRingOff granted)) = false
  ∧ audioInstancesRef (@step specEvaluator
                         (AudioSettles 0 (PlayElement false))
                         (handleRingOff granted))
    = [nextHandle (world granted)].
Proof.
  assert (Hp : pending granted !! 0%nat = Some (AwaitAudio signalEUR))
    by (vm_compute; reflexivity).
  pose proof (@audio_started_after_dismissal_plays specEvaluator granted
                0%nat signalEUR false Hp) as Hthm.
  cbv zeta in Hthm. destruct Hthm as (Hr & Hi & _).
  split; [exact Hp|]. split; [exact Hr|exact Hi].
Defined.


Lemma getSignalId_inj_witness :
  hasDash (asset signalEUR) = false
  ∧ hasDash (direction signalEUR) = false
  ∧ signalEUR = signalEUR.
Proof.
  assert (Ha : hasDash (asset signalEUR) = false) by (vm_compute; reflexivity).
  assert (Hd : hasDash (direction signalEUR) = false)
    by (vm_compute; reflexivity).
  pose proof (getSignalId_inj signalEUR signalEUR Ha Hd Ha Hd eq_refl)
    as Hthm.
  split; [exact Ha|]. split; [exact Hd|exact Hthm].
Defined.

Lemma release_undoes_request_witness :
  (∀ l, l ∈ heldLocks (world granted)
        → (l < nextHandle (world granted))%positive)
  ∧ ∃ lock w', requestWakeLock Grant (world granted) = (Returned lock, w')
      ∧ heldLocks (releaseWakeLock lock w') = heldLocks (world granted).
Proof.
  assert (Hbelow : ∀ l, l ∈ heldLocks (world granted)
                        → (l < nextHandle (world granted))%positive).
  { apply (@Reachable_wellFormed specEvaluator granted).
    apply Reachable_run, Reachable_mount. }
  pose proof (release_undoes_request Grant (world granted) Hbelow) as Hthm.
  destruct Hthm as (lock & w' & Hreq & Hrel & _).
  split; [exact Hbelow|]. exists lock, w'. split; [exact Hreq|exact Hrel].
Defined.

Lemma wakeUpScreen_best_effort_witness :
  focusAnswer calmAnswers = None
  ∧ dispatchAnswer calmAnswers = None
  ∧ vibrateAnswer calmAnswers = None
  ∧ ∃ d', wakeUpScreen calmAnswers phone = (Returned tt, d')
      ∧ errors d' = errors phone
      ∧ focusCalls (devWorld d') = S (focusCalls (devWorld phone)).
Proof.
  pose proof (wakeUpScreen_best_effort calmAnswers phone eq_refl eq_refl
                eq_refl) as Hthm.
  destruct Hthm as (d' & Hrun & He & Hf & _).
  split; [reflexivity|]. split; [reflexivity|]. split; [reflexivity|].
  exists d'. split; [exact Hrun|]. split; [exact He|exact Hf].
Defined.

Lemma focus_failure_skips_the_rest_witness :
  focusAnswer focusFails = Some "SecurityError"
  ∧ wakeUpScreen focusFails phone
    = (Returned tt,
       with_errors
         (errors phone ++ ["Failed to wake up screen: " +:+ "SecurityError"])
         (with_devWorld
            (requestWakeLock (lockAnswer focusFails) (devWorld phone)).2
            phone)).
Proof.
  pose proof (focus_failure_skips_the_rest focusFails phone "SecurityError"
                eq_refl) as Hthm.
  split; [reflexivity|exact Hthm].
Defined.

Lemma wakeUpScreen_lock_is_never_released_witness :
  wakeLockSupported (devWorld phone) = true
  ∧ lockAnswer calmAnswers = Grant
  ∧ nextHandle (devWorld phone)
    ∈ heldLocks
        (devWorld (deviceRun (ForceCalled KeepAwakeWorks :: oneFlash)
                     (wakeUpScreen calmAnswers phone).2)).
Proof.
  pose proof (wakeUpScreen_lock_is_never_released calmAnswers phone
                (ForceCalled KeepAwakeWorks :: oneFlash) eq_refl eq_refl)
    as Hthm.
  split; [reflexivity|]. split; [reflexivity|exact Hthm].
Defined.

Lemma keepAwake_always_has_its_timer_witness :
  (keepAwake phone = true → ∃ call, KeepAwakeOff call ∈ timers phone)
  ∧ keepAwake (deviceRun [ForceCalled KeepAwakeWorks] phone) = true
  ∧ ∃ call, KeepAwakeOff call
            ∈ timers (deviceRun [ForceCalled KeepAwakeWorks] phone).
Proof.
  assert (Hinv : keepAwake phone = true
                 → ∃ call, KeepAwakeOff call ∈ timers phone)
    by (vm_compute; discriminate).
  assert (Hk : keepAwake (deviceRun [ForceCalled KeepAwakeWorks] phone) = true)
    by (vm_compute; reflexivity).
  pose proof (keepAwake_always_has_its_timer [ForceCalled KeepAwakeWorks]
                phone Hinv Hk) as Hthm.
  split; [exact Hinv|]. split; [exact Hk|exact Hthm].
Defined.

Lemma shown_notification_has_its_timer_witness :
  (∀ n, notifications phone !! n = Some true
        → CloseNotification n ∈ timers phone)
  ∧ notifications (deviceRun [WakeUpCalled calmAnswers] phone) !! 2%positive
    = Some true
  ∧ CloseNotification 2
    ∈ timers (deviceRun [WakeUpCalled calmAnswers] phone).
Proof.
  assert (Hinv : ∀ n, notifications phone !! n = Some true
                      → CloseNotification n ∈ timers phone).
  { intros n Hn. change (notifications phone) with (∅ : gmap positive bool)
      in Hn. rewrite lookup_empty in Hn. discriminate. }
  assert (Hn : notifications (deviceRun [WakeUpCalled calmAnswers] phone)
               !! 2%positive = Some true) by (vm_compute; reflexivity).
  pose proof (shown_notification_has_its_timer [WakeUpCalled calmAnswers]
                phone Hinv 2%positive Hn) as Hthm.
  split; [exact Hinv|]. split; [exact Hn|exact Hthm].
Defined.

(** A page on which [forceScreenWakeUp] was never called has nothing to
    account for. *)
Lemma phone_accounted : promisesAccounted phone.
Proof.
  intros call. unfold callAccounted.
  change (awaiting phone) with (∅ : gmap nat (bool * nat)).
  rewrite lookup_empty. intros _. split; [reflexivity|].
  change (orphans phone) with (∅ : gset nat). set_solver.
Qed.


(** The scenario in full: the first call logs its completion, the second
    is reported by the [catch], none is awaited any more, and the flash of
    the second call is still under way. *)
Lemma twoCalls_counts :
  completions (deviceRun twoCalls phone) = 1%nat
  ∧ failures (deviceRun twoCalls phone) = 1%nat
  ∧ size (awaiting (deviceRun twoCalls phone)) = 0%nat
  ∧ forceCalls twoCalls = 2%nat
  ∧ errors (deviceRun twoCalls phone)
    = ["Force screen wake-up failed: TypeError"]
  ∧ timers (deviceRun twoCalls phone) = [CloseNotification 2; CloseContext 3;
                                          FlashDim 1 "none"]
  ∧ bodyFilter (deviceRun twoCalls phone) = "brightness(2)".
Proof. split_and!; vm_compute; reflexivity. Qed.

Lemma awaited_call_waits_for_pending_work_witness :
  promisesAccounted phone
  ∧ awaiting (deviceRun [ForceCalled KeepAwakeWorks] phone) !! 0%nat
    = Some (true, 2%nat)
  ∧ 2%nat = pendingOf 0 (deviceRun [ForceCalled KeepAwakeWorks] phone)
  ∧ (true = true
     ∨ ∃ t, t ∈ timers (deviceRun [ForceCalled KeepAwakeWorks] phone)
            ∧ callOf t = Some 0%nat)
  ∧ 0%nat ∉ orphans (deviceRun [ForceCalled KeepAwakeWorks] phone).
Proof.
  assert (Hl : awaiting (deviceRun [ForceCalled KeepAwakeWorks] phone) !! 0%nat
               = Some (true, 2%nat)) by (vm_compute; reflexivity).
  pose proof (awaited_call_waits_for_pending_work
                [ForceCalled KeepAwakeWorks] phone 0%nat true 2%nat
                phone_accounted Hl) as Hthm.
  split; [exact phone_accounted|]. split; [exact Hl|exact Hthm].
Defined.

Lemma force_catch_reports_executor_throw_witness :
  "Force screen wake-up failed: TypeError"
  ∈ errors (deviceRun [ForceCalled (KeepAwakeTestThrows "TypeError")] phone)
  ∧ ("Force screen wake-up failed: TypeError" ∈ errors phone
     ∨ (∃ err, "Force screen wake-up failed: TypeError"
               = "Failed to wake up screen: " +:+ err)
     ∨ (∃ a err,
          ForceCalled a ∈ [ForceCalled (KeepAwakeTestThrows "TypeError")]
          ∧ (a = KeepAwakeTestThrows err ∨ a = KeepAwakeAssignThrows err)
          ∧ "Force screen wake-up failed: TypeError"
            = "Force screen wake-up failed: " +:+ err)).
Proof.
  assert (Hin : "Force screen wake-up failed: TypeError"
                ∈ errors (deviceRun
                            [ForceCalled (KeepAwakeTestThrows "TypeError")]
                            phone))
    by by_evaluation.
  pose proof (force_catch_reports_executor_throw
                [ForceCalled (KeepAwakeTestThrows "TypeError")] phone _ Hin)
    as Hthm.
  split; [exact Hin|exact Hthm].
Defined.

Lemma flash_restores_the_filter_witness :
  hasBody phone = true
  ∧ forceCalls oneFlash = 0%nat
  ∧ (∀ t, t ∈ timers (deviceRun (ForceCalled KeepAwakeWorks :: oneFlash)
                        phone)
          → isFlash t = false)
  ∧ bodyFilter (deviceRun (ForceCalled KeepAwakeWorks :: oneFlash) phone)
    = bodyFilter phone.
Proof.
  assert (Hnone : ∀ t, t ∈ timers phone → isFlash t = false).
  { intros t Ht. change (timers phone) with (@nil Timer) in Ht.
    by apply elem_of_nil in Ht. }
  assert (Hes : forceCalls oneFlash = 0%nat) by (vm_compute; reflexivity).
  assert (Hdone : ∀ t, t ∈ timers (deviceRun
                                     (ForceCalled KeepAwakeWorks :: oneFlash)
                                     phone)
                       → isFlash t = false).
  { assert (Ht : timers (deviceRun (ForceCalled KeepAwakeWorks :: oneFlash)
                           phone)
                 = [KeepAwakeOff 0]) by (vm_compute; reflexivity).
    rewrite Ht. intros t ->%list_elem_of_singleton. reflexivity. }
  pose proof (flash_restores_the_filter KeepAwakeWorks oneFlash phone eq_refl
                Hnone Hes Hdone) as Hthm.
  split; [reflexivity|]. split; [exact Hes|]. split; [exact Hdone|exact Hthm].
Defined.

Lemma overlapping_flashes_stay_bright_witness :
  hasBody phone = true
  ∧ bodyFilter
      (deviceRun
         [ForceCalled KeepAwakeWorks; ForceCalled KeepAwakeWorks;
          TimerFires (FlashDim (nextCall phone) (bodyFilter phone));
          TimerFires (FlashDim (S (nextCall phone)) "brightness(2)");
          TimerFires (FlashRestore (nextCall phone) (bodyFilter phone));
          TimerFires (FlashRestore (S (nextCall phone)) "brightness(2)")]
         phone)
    = "brightness(2)".
Proof.
  pose proof (overlapping_flashes_stay_bright KeepAwakeWorks KeepAwakeWorks
                phone eq_refl) as Hthm.
  split; [reflexivity|exact Hthm].
Defined.

Lemma broken_tone_leaves_context_open_witness :
  toneAnswer toneBreaks = ToneBreaks "InvalidStateError"
  ∧ (∀ c, CloseContext c ∈ timers phone
          → (c < nextHandle (devWorld phone))%positive)
  ∧ ∃ c d', wakeUpScreen toneBreaks phone = (Returned tt, d')
      ∧ audioContexts (devWorld d') !! c = Some CtxRunning
      ∧ CloseContext c ∉ timers d'.
Proof.
  assert (Hbelow : ∀ c, CloseContext c ∈ timers phone
                        → (c < nextHandle (devWorld phone))%positive).
  { intros c Hc. change (timers phone) with (@nil Timer) in Hc.
    by apply elem_of_nil in Hc. }
  pose proof (broken_tone_leaves_context_open toneBreaks phone
                "InvalidStateError" eq_refl eq_refl eq_refl eq_refl Hbelow)
    as Hthm.
  split; [reflexivity|]. split; [exact Hbelow|exact Hthm].
Defined.

Lemma tone_context_is_closed_by_its_timer_witness :
  toneAnswer calmAnswers = ToneStarts
  ∧ ∃ c d', wakeUpScreen calmAnswers phone = (Returned tt, d')
      ∧ audioContexts (devWorld d') !! c = Some CtxRunning
      ∧ CloseContext c ∈ timers d'
      ∧ audioContexts (devWorld (fireTimer (CloseContext c) d')) !! c
        = Some CtxClosed.
Proof.
  pose proof (tone_context_is_closed_by_its_timer calmAnswers phone eq_refl
                eq_refl eq_refl eq_refl) as Hthm.
  destruct Hthm as (c & d' & Hrun & Hc & Hin & Hclosed & _).
  split; [reflexivity|]. exists c, d'.
  split; [exact Hrun|]. split; [exact Hc|]. split; [exact Hin|exact Hclosed].
Defined.

Lemma cleanup_after_effect_does_nothing_witness :
  (∀ k, keeperStatus (keeperStop k) = false)
  ∧ backgroundCleanup bool keeperStop keeperStatus []
      (trackerEffect [] true true).1
    = ((trackerEffect [] true true).1, []).
Proof.
  assert (Hstop : ∀ k, keeperStatus (keeperStop k) = false)
    by (intros k; reflexivity).
  pose proof (cleanup_after_effect_does_nothing bool keeperStart keeperStop
                keeperSchedule keeperStatus [] true true Hstop) as Hthm.
  split; [exact Hstop|exact Hthm].
Defined.

Lemma effect_leaves_task_active_iff_signals_witness :
  (∀ k, keeperStatus (keeperStart k) = true)
  ∧ (∀ k, keeperStatus (keeperStop k) = false)
  ∧ (∀ l k, keeperStatus (keeperSchedule l k) = keeperStatus k)
  ∧ keeperStatus (trackerEffect [signalEUR] true false).1
    = bool_decide ([signalEUR] ≠ []).
Proof.
  assert (Hstart : ∀ k, keeperStatus (keeperStart k) = true)
    by (intros k; reflexivity).
  assert (Hstop : ∀ k, keeperStatus (keeperStop k) = false)
    by (intros k; reflexivity).
  assert (Hsched : ∀ l k, keeperStatus (keeperSchedule l k) = keeperStatus k)
    by (intros l k; reflexivity).
  pose proof (effect_leaves_task_active_iff_signals bool keeperStart
                keeperStop keeperSchedule keeperStatus [signalEUR] true false
                Hstart Hstop Hsched) as Hthm.
  split; [exact Hstart|]. split; [exact Hstop|]. split; [exact Hsched|].
  exact Hthm.
Defined.
